(* ===== verification/_CoqProject ===== *)
-Q . S2P
Prelude.v
Js.v
Redis.v
Http.v
UserBackend.v
Backends.v
Kafka.v
World.v
ProductService.v
OrderService.v
UserService.v
Invalidator.v
Schema.v
Execution.v
Validation.v
Variables.v
Router.v
Interleaving.v
WebSockets.v
Leetcode.v
KafkaLog.v
EcommKafka.v
KafkaAdmin.v
OrdersMain.v
