(* ===== verification/Prelude.v ===== *)
(** * Verification of the Microservices-Toolkit e-commerce gateway

    The repository's core is an API gateway (src/Ecomm_Microservices/gateway)
    in front of three backend services.  A GraphQL endpoint
    (gateway/src/app.ts, schema.ts) binds each operation to a resolver of
    [UserService], [ProductService] or [OrderService]
    (gateway/src/services/*.ts).  Each resolver calls its backend through an
    axios client (library/http.ts).  The product reads go through a Redis
    cache (library/redis.ts) shared by every request.  A Kafka consumer,
    started in gateway/src/index.ts, deletes the listing key on every
    inventory event.  The user service (Services/User-Service/src/app.ts)
    is the one backend whose code is under src/.

    ** Layout (one file per component, in dependency order)

    - [Prelude]: results of JavaScript code ([res]: a value or a thrown
      error message).  It also holds the state/exception monad [M S A] of
      async handlers (stdpp's [mret] and [x ← m; k]) with [try_catch] for
      [try]/[catch].  The [Lens] classes give each component its part of a
      shared state; [LensDisjoint] says that two parts do not overlap.
      It declares the hint databases [gw] and [gw_rw], the string-append
      lemmas the string proofs share, and the tactics [run_m], [app_norm]
      and [gw_rewrite].
    - [Js]: JavaScript values ([jsval]), property access ([prop], which
      throws a TypeError on [undefined] and [null]), and template literals
      ([to_template]: an object prints as [[object Object]]).  It defines
      [JSON.stringify] ([ser], [stringify]) and [JSON.parse] ([json_parse]),
      a parser driven by fuel.
    - [Redis] (Module [Redis]): the node-redis client [cacheClient].  It has
      an open flag and a store ([gmap string string]).  [connect], [get],
      [set] and [del] reject on a closed client as node-redis does.
    - [Http]: requests, responses and the [Transport] class, which is the
      interface a backend gives the gateway.  Section [Axios] holds the
      axios clients of services/*.ts.  [send] logs the request, then
      rejects a refused connection or a status outside 2xx.  [get_result]
      and [post_result] unwrap [res.data.result].
    - [UserBackend] (Module [UserBackend]): the user service's Express app.
      [register] is [POST /], with zod validation, [findOne], bcrypt and
      [create].  [get_by_id] is [GET /:id], with mongoose's CastError, and
      [get_all] is [GET /].  [handle] is the routing.
    - [Backends] (Module [Rest]): the product and order services.  Their
      code is not under src/, so they are modelled from the REST contract
      of the specification.
    - [Kafka] (Module [Kafka]): the kafkajs consumer and its broker:
      [connect], [subscribe], [run], [disconnect] and delivery.  [cstep] is
      the consumer's lifecycle as a step relation.
    - [World]: the state of the whole system.  The [World] record holds
      the environment, the Redis client, the consumer, the three backends,
      the request log and the process status.  The file gives the [Lens]
      instances with their laws, and the [Transport] instance that routes
      a request to the service behind its base URL.
    - [ProductService] (Module [ProductService]): [getAll], [getById] and
      [post] of product-service.ts.  They are written against the lens and
      transport interfaces, and the [CacheAside] theorems are proved
      against those interfaces.
    - [OrderService] (Module [OrderService]): [getAll], [getById], and
      [post] with its token check ([authorize], which splits on
      ["Bearer "] and runs [jsonwebtoken.verify]).
    - [UserService] (Module [UserService]): the user resolvers.
    - [Invalidator] (Module [Index]): [main] and [eachMessage] of
      gateway/src/index.ts, and delivery of broker messages to the
      running consumer.
    - [Schema] (Module [Schema]): the SDL of schema.ts as data, with the
      type-name check of [buildSchema] and the kind checks of graphql-js's
      [validateSchema].
    - [Execution] (Module [Execution]): graphql-js's completion of a
      resolver's value against a field's type: null propagation through
      non-null positions, lists, the built-in scalars' [serialize] (32-bit
      [Int]) and the default field resolver, for a [selection] of fields.
    - [Variables] (Module [Variables]): graphql-js's coercion of the
      variables of a request ([coerce_variables], [coerce_value]): non-null
      checks, lists with the single-value rule, input objects field by
      field, the built-in scalars' [parseValue] (32-bit [Int]), and the
      error messages with their paths.
    - [Validation] (Module [Validation]): the rules of graphql-js's
      [validate] that a one-field operation can break
      (FieldsOnCorrectTypeRule, with the suggestions of [suggestionList],
      [LexicalDistance] and [naturalCompare], and ScalarLeafsRule), run on
      each field in document order ([validate_sel]).
    - [Router]: the handler graphql-http mounts on [/graphql]
      ([graphql_http_with] a schema, [graphql_http] on schema.ts's): the
      schema assertion, validation, coercion of the variables, the root
      object and the way graphql-js calls a root method with the field's
      arguments object ([execute]), and completion.
    - [Interleaving]: concurrent requests interleaved at their [await]s.
      [exec] and [run] give an executable scheduler for [getAll] fills,
      listing changes and invalidations.  Module [Registration] does the
      same for two concurrent [POST /] of the user service.
    - [WebSockets] (Modules [WsServer] and [WsApp]): the relay server of
      WebSockets/server/src/index.ts, and the React client of
      WebSockets/client/src/App.jsx.  [sstep] is the server's step
      relation over its sockets and the messages sent so far.
    - [Leetcode] (Module [Queue]): the submission server and worker of
      Redis-Leetcode.  They share a Redis server with lists and a channel.
      [exec_event] and [run_events] give an executable scheduler of
      submissions (through the HTTP layer), foreign pushes, worker steps,
      connection losses, Redis becoming reachable and the server's start.
      node-redis's [client.connect()] is [redis_connect]: with an
      ['error'] listener (the server's) it retries until Redis answers,
      without one (the worker's) it rejects and leaves the client open.
    - [KafkaLog] (Module [Broker]): the demos of Kafka/Kafka-Harkirat
      against a broker that keeps each topic as a log, with committed
      offsets per group.  [kstep] is a consumer's life with crashes;
      [producer_main], [consumer_main] and [index_main] are the three
      programs as processes, with their clients ([new Kafka(...)]) and
      the error [run().catch(console.error)] prints.
    - [EcommKafka] (Module [Clients]): the Kafka clients of the product
      and order services (services/*/src/kafka.ts), with their consumer
      groups on the broker model of [KafkaLog].
    - [OrdersMain] (Module [OrdersMain]): the entry point of the orders
      service.
    - [KafkaAdmin] (Module [Admin]): Kafka/admin.js with its client
      (client.js): [init] with its un-awaited [connect], [createTopics] on
      a cluster of topics with partition counts, and Node's exit on an
      unhandled rejection.

    ** What is proved

    - Cache-aside ([ProductService]): a cold [getById] calls the backend
      once and fills the key; the warm call returns the same value without
      a call.  [getAll] refines the backend: it returns what the backend
      returns, and the entry stays coherent.  There are also the failure
      paths: a closed cache fails the read, and a backend error is
      surfaced with the cache untouched.
    - Invalidation ([Invalidator]): the consumer subscribes to
      ["inventory-events "], with a trailing space, which the broker
      refuses, so [main] exits with status 1 and leaves Redis connected.
      On a broker that accepts any name, no message on ["inventory-events"]
      ever reaches [eachMessage].  A delivered message removes the listing
      key and nothing else, whatever it carries, so the next [getAll]
      misses while a per-product entry stays stale.
    - Concurrency ([Interleaving]): the stampede (N readers, N backend
      calls, N writes) and the invalidation race, which ends with no event
      pending and a stale entry.  The invariant [coherent] holds on every
      state reached by steps in which no invalidation overtakes a fill, so
      a hit with no event pending is fresh.  Whatever the interleaving, the
      product service receives at most one request per [getAll] started
      ([calls_le_requests]).  The model lets every [await] settle (the
      fetch and the cache always answer); the code sets no timeout, so
      nothing is claimed about a request's completion.  Two
      registrations interleaved after their [findOne] create two users with
      one name.
    - Authorization ([OrderService], [ProductService]): an order with no
      token, or a token that fails verification, is refused before any
      request; a verified token forwards exactly one [POST /] with
      [x-user-id].  Any text before ["Bearer "] is accepted.  The model of
      [auth.split("Bearer ")[1]] equals the second piece of a reference
      [String.prototype.split] built on [String.index] ([js_split]).  A wrong API
      key is refused; an unset key with no header is accepted.
    - Schema and handler ([Schema], [Router]): [RegisterUserResult] is
      declared [input] but is the result of [registerUser], so
      [validateSchema] reports two errors.  graphql-http validates every
      request, the assertion throws, and the Express adapter answers every
      operation with a bare 500, with no resolver run and nothing changed.
      The other theorems of [Router] run the handler on the schema with
      that declaration fixed ([Schema.sdl_fixed], which is valid), and
      show that the gateway would still fail: [products(id)] answers
      [products: null] with a non-null error, since [getAll]'s list is
      completed as one [Product]; [createProduct] with a price outside 32
      bits is refused by the coercion of its variable, with nothing sent;
      [registerUser] reaches the user service, which refuses the body;
      [product] is refused by validation, with the suggestion
      [products]; [placeOrder] with one product given as an object sends
      the order service the list of that product.
    - Validation and coercion ([Validation], [Variables], [Router]): on a
      valid schema, a request whose selection fails validation or whose
      variables fail coercion is answered with errors and changes nothing
      ([rejected_before_backend]); otherwise the resolver receives
      arguments of their declared types ([coerce_value_sound],
      [coerce_variables_sound], [resolver_args_well_typed]), provided the
      input types have fields with distinct names ([inputs_wf]).  The
      suggestion distance, [LexicalDistance.measure] with its two-row
      table, its swap and length cut-off and its early exit, equals the
      optimal string alignment distance of the lowercased strings within
      the threshold ([measure_correct], against the recursive reference
      [osa]).
    - Completion ([Execution]): every completed response has the field's
      declared type, with exactly the selected members (for every schema,
      a property of the graphql-js model); [products(id)], given the list
      [getAll] returns, is answered [null] with Product's non-null error.
    - Routing ([Router], [UserService]): [products(id)] runs [getAll];
      [user(id)] always requests [/[object Object]] and answers
      [user: null]; [registerUser] is always refused by the user
      service's validation, whose fields sit one level up.
    - User service ([UserBackend]): sequential registrations keep names
      unique, and the second of two equal registrations is refused.
    - JSON ([Js]): [JSON.parse (JSON.stringify v)] is [v] with [undefined]
      normalised away.  The parser's fuel is the length of the text plus
      one, which is enough because every value needs at most as many steps
      as its serialization has characters ([jsize_le_ser]).
    - Kafka ([Kafka]): every consumer reachable by the lifecycle steps is
      subscribed only to names the broker accepts, and runs only when it is
      connected (a lemma of the library; not among the properties).
    - Leetcode queue ([Leetcode]): on every schedule, the list is a FIFO
      queue between the server's pushes and the worker's pops.  Without
      foreign writers, the worker has parsed exactly the first
      submissions, in order.  A waiting worker drains the list in as many
      steps as it has elements.  After a failure with its client open
      (started before Redis, or a malformed element), the worker never
      pops again, even once Redis is up.  While Redis is unreachable the
      server never listens ([server_waits_for_redis]): the [catch] blocks
      of [connectToRedis] cannot run.  With Redis up a body that is not
      JSON is queued as the submission ["{}"].
    - Kafka demos ([KafkaLog]): a crash never makes a group skip an
      offset it has committed past (at-least-once), a running consumer
      catches up with its log, and index.ts prints the whole topic ending
      with its own message; with localhost:9092 down each demo prints the
      connection error and changes nothing ([demos_offline]).
    - WebSockets ([WebSockets]): on every reachable state, ids are
      distinct and no client receives its own message.  A click reaches
      every other open client and is not echoed.
    - Orders service ([OrdersMain]): its consumer is connected but never
      subscribed or run.
    - Kafka admin ([KafkaAdmin]): the script logs that the admin connected
      also when no broker answers, then exits with status 1; on a reachable
      broker it reports [rider-updates] created also when it already
      existed, with its old partition count.

    The invariants are proved with [rtc_inv], the one induction over the
    reflexive-transitive closure of a step relation that every file uses.
    Each theorem with hypotheses has a witness lemma that applies it to a
    concrete system ([world0], [subscribed_world], [cold], [two_clients],
    [demo], [broker1], ...), with the hypotheses discharged by computation.
    Fuel: the JSON parser and the reference [js_split] are the functions
    with fuel; [js_split]'s is the length of the text plus one, enough as
    every round consumes a non-empty separator; [naturalCompare]'s loop
    ([Validation.natural_loop]) gets the length of its first string plus
    one, and any fuel above that length gives the same result
    ([natural_loop_fuel]).  Schedules are
    finite lists of events run by [run] or [run_events], so every model
    terminates.  The liveness results bound the number of steps
    ([worker_drains], [consumer_catches_up]).

    ** Not modelled

    - graphql-js's parsing of the request: an operation is given by its
      kind, its one top-level field, whose arguments it passes as
      variables of their types, the [variables] object and the selection
      below the field (fields without aliases, arguments or fragments,
      none repeated in a selection set), sent as a POST accepted as
      [application/json].  graphql-http's handling of other methods and
      media types, and the locations and paths graphql-js adds to
      errors, are not modelled.  [Number] of a
      string is modelled on decimal integer numerals only.
    - The code the sources only call: Express, graphql-js's parsing,
      mongoose's storage, bcrypt, jsonwebtoken.  Where a handler depends on
      one of them it is a parameter: [bcrypt_hash], [signJWT], the
      [jwt_verify] of the environment.
    - The product and order services' apps, which are not under src/.
    - Logging ([console.log], morgan), except where a theorem is about
      what is printed (the Leetcode subscriber, the Kafka demos'
      [eachMessage], the Kafka admin script) and the axios interceptor,
      modelled to show that it never runs ([Http.service_clients_never_log]).
*)

From stdpp Require Export base gmap strings list fin_maps.
From Stdlib Require Export String Ascii ZArith.

(** ** Results of JavaScript code: a value or a thrown [Error] *)

(** A thrown JavaScript error is modelled by its message. *)
Inductive res (A : Type) : Type :=
| Ok (a : A)
| Throw (msg : string).
Arguments Ok {A} a.
Arguments Throw {A} msg.

(** ** The state/exception monad of asynchronous handlers

    A handler runs against a state [S] (the shared stores it touches) and
    either returns or throws.  The state is threaded through a throw: an
    effect already performed before an [await] that rejects is not undone,
    as in the code. *)
Definition M (S A : Type) : Type := S -> res A * S.

#[export] Instance M_ret {S} : MRet (M S) := fun A a s => (Ok a, s).
#[export] Instance M_bind {S} : MBind (M S) :=
  fun A B f m s =>
    match m s with
    | (Ok a, s') => f a s'
    | (Throw e, s') => (Throw e, s')
    end.

Definition throw {S A} (msg : string) : M S A := fun s => (Throw msg, s).

(** [try { m } catch (e) { h(e) }] *)
Definition try_catch {S A} (m : M S A) (h : string -> M S A) : M S A :=
  fun s => match m s with
           | (Ok a, s') => (Ok a, s')
           | (Throw e, s') => h e s'
           end.

Definition gets {S A} (f : S -> A) : M S A := fun s => (Ok (f s), s).
Definition modify {S} (f : S -> S) : M S unit := fun s => (Ok tt, f s).

Declare Scope gw_scope.
Delimit Scope gw_scope with gw.
Notation "'try' m 'catch' h" := (try_catch m h)
  (at level 10, m at level 100, h at level 200) : gw_scope.
Notation "'throw!' msg" := (throw msg%string) (at level 10) : gw_scope.

(** ** Lenses: how a component reaches its part of the shared state

    The gateway process owns several long-lived resources (the Redis
    client, the Kafka consumer, the backends it talks to); a handler of one
    component reads and writes only its own part.  A [Lens] states what a
    component needs of the global state, and [LensLaws] what it may assume. *)
Class Lens (S T : Type) := {
  view : S -> T;
  update : T -> S -> S
}.
Arguments view {S T _} s.
Arguments update {S T _} t s.

Class LensLaws (S T : Type) `{Lens S T} := {
  view_update : forall t s, view (update t s) = t;
  update_view : forall s, update (view s) s = s;
  update_update : forall t t' s, update t' (update t s) = update t' s
}.

(** Two parts of the state that do not overlap: writing one leaves the
    other as it was. *)
Class LensDisjoint (S A B : Type) `{LA : Lens S A} `{LB : Lens S B} := {
  view_update_l : forall (a : A) s, @view S B LB (@update S A LA a s) = @view S B LB s;
  view_update_r : forall (b : B) s, @view S A LA (@update S B LB b s) = @view S A LA s
}.

(** Run a component computation on its part of the state. *)
Definition zoom {S T A} `{Lens S T} (m : M T A) : M S A :=
  fun s => let '(r, t') := m (view s) in (r, update t' s).

(** ** Hint database and tactics of the development *)
Create HintDb gw discriminated.
Create Rewrite HintDb gw_rw.

(** Unfold the monad's operations and reduce. *)
Ltac unfold_m :=
  unfold mbind, mret, M_bind, M_ret, throw, try_catch, gets, modify, zoom in *.
Ltac run_m := unfold_m; simpl in *.

(** ** Generic lemmas on the monad *)
Section MonadLemmas.
Context {S : Type}.

Lemma bind_ok {A B} (m : M S A) (f : A -> M S B) s a s' :
  m s = (Ok a, s') -> (m ≫= f) s = f a s'.
Proof. intros H. run_m. by rewrite H. Qed.

Lemma bind_throw {A B} (m : M S A) (f : A -> M S B) s e s' :
  m s = (Throw e, s') -> (m ≫= f) s = (Throw e, s').
Proof. intros H. run_m. by rewrite H. Qed.

Lemma try_ok {A} (m : M S A) h s a s' :
  m s = (Ok a, s') -> try_catch m h s = (Ok a, s').
Proof. intros H. run_m. by rewrite H. Qed.

Lemma try_throw {A} (m : M S A) h s e s' :
  m s = (Throw e, s') -> try_catch m h s = h e s'.
Proof. intros H. run_m. by rewrite H. Qed.
End MonadLemmas.

Section LensLemmas.
Context {S T : Type} `{LensLaws S T}.

Lemma zoom_run {A} (m : M T A) s :
  zoom m s = ((m (view s)).1, update (m (view s)).2 s).
Proof. unfold zoom. by destruct (m (view s)). Qed.

Lemma view_zoom {A} (m : M T A) s : view ((zoom m s).2) = (m (view s)).2.
Proof. rewrite zoom_run. simpl. apply view_update. Qed.
End LensLemmas.

(** ** Generic lemmas on strings *)
Local Open Scope string_scope.

(** stdpp makes [String.append] opaque to [simpl]; these are its equations. *)
Lemma string_app_nil_l (a : string) : "" ++ a = a.
Proof. reflexivity. Qed.

Lemma string_app_cons ch (a b : string) : String ch a ++ b = String ch (a ++ b).
Proof. reflexivity. Qed.

Lemma string_app_assoc (a b c : string) : (a ++ b) ++ c = a ++ (b ++ c).
Proof. induction a as [|ch a IH]; rewrite ?string_app_cons; [done | by rewrite IH]. Qed.

Lemma string_app_nil_r (a : string) : a ++ "" = a.
Proof. induction a as [|ch a IH]; rewrite ?string_app_cons; [done | by rewrite IH]. Qed.

Lemma string_app_inj_l (p a b : string) : p ++ a = p ++ b -> a = b.
Proof. induction p as [|ch p IH]; rewrite ?string_app_cons; [done | intros H; injection H; auto]. Qed.

Lemma string_app_length (a b : string) :
  String.length (a ++ b) = String.length a + String.length b.
Proof. induction a as [|ch a IH]; rewrite ?string_app_cons; simpl; auto. Qed.

(** A prefix followed by a non-empty suffix is a different string. *)
Lemma string_app_neq_self (p a : string) : a <> "" -> p ++ a <> p.
Proof.
  intros Ha Heq. apply (f_equal String.length) in Heq.
  rewrite string_app_length in Heq. destruct a; [done | simpl in Heq; lia].
Qed.

#[export] Hint Rewrite string_app_nil_l string_app_cons string_app_assoc string_app_nil_r : gw_rw.
#[export] Hint Resolve string_app_inj_l string_app_neq_self : gw.

(** Normalise string concatenations: right-associated, literal characters
    pushed to the front. *)
Ltac app_norm := repeat progress rewrite ?string_app_assoc, ?string_app_cons, ?string_app_nil_l.

(** Rewrite with the development's equations; the instance arguments they
    leave are closed by instance search. *)
Ltac gw_rewrite := autorewrite with gw_rw; try typeclasses eauto.

(** ** Generic lemmas on lists and transition systems *)

(** A property that every step keeps holds of every state reachable from a
    state that has it: the proof pattern of each invariant of the
    development. *)
Lemma rtc_inv {A} (R : relation A) (P : A -> Prop) x y :
  (forall a b, R a b -> P a -> P b) -> rtc R x y -> P x -> P y.
Proof. intros HR Hr. induction Hr as [|a b c Hab _ IH]; [done|]. intros Ha. by apply IH, (HR a b). Qed.

Lemma omap_cons {A B} (f : A -> option B) x l :
  omap f (x :: l) = match f x with Some y => y :: omap f l | None => omap f l end.
Proof. done. Qed.

Lemma omap_snoc {A B} (f : A -> option B) l x :
  omap f (l ++ [x])%list = (omap f l ++ (match f x with Some y => [y] | None => [] end))%list.
Proof. rewrite omap_app. cbn. by destruct (f x). Qed.

Lemma NoDup_map_filter {A B} (g : A -> B) (p : A -> bool) l :
  NoDup (map g l) -> NoDup (map g (List.filter p l)).
Proof.
  induction l as [|x l IH]; cbn; [done|]. intros [Hx Hl]%NoDup_cons.
  destruct (p x); cbn; [|by apply IH]. apply NoDup_cons. split; [|by apply IH].
  intros Hin. apply Hx. apply list_elem_of_In in Hin. apply list_elem_of_In.
  apply in_map_iff in Hin as (y & <- & Hy). apply in_map_iff. exists y.
  split; [done|]. by apply filter_In in Hy as [? _].
Qed.

(** Counting the elements of a list that satisfy a test, across an update
    by index. *)
Lemma length_filter_insert {A} (f : A -> bool) (l : list A) (i : nat) (x y : A) :
  l !! i = Some x ->
  List.length (List.filter f (<[i:=y]> l)) + (if f x then 1 else 0) =
  List.length (List.filter f l) + (if f y then 1 else 0).
Proof.
  revert i. induction l as [|a l IH]; intros [|i] Hi; cbn in Hi; try done.
  - injection Hi as ->. cbn. destruct (f x), (f y); cbn; lia.
  - specialize (IH i Hi). change (<[S i:=y]> (a :: l)) with (a :: <[i:=y]> l).
    cbn [List.filter]. destruct (f a); cbn [List.length]; lia.
Qed.

Lemma length_filter_snoc {A} (f : A -> bool) (l : list A) (x : A) :
  List.length (List.filter f (l ++ [x])) = List.length (List.filter f l) + (if f x then 1 else 0).
Proof. rewrite List.filter_app, length_app. cbn. by destruct (f x). Qed.
