(* ===== verification/Js.v ===== *)
(** JavaScript values as the gateway handles them: the values a resolver
    returns, property access ([res.data.result]), coercion in template
    strings ([`/${id}`]), and the [JSON.stringify] / [JSON.parse] pair the
    cache stores values with, with the round trip the cache-aside resolver
    relies on. *)

From S2P Require Import Prelude.
From Stdlib Require Import DecimalString DecimalPos DecimalZ.
Local Open Scope string_scope.

(** ** Values *)

#[local] Set Warnings "-register-all".

(** A JSON-shaped JavaScript value.  Numbers are the integers the schema
    declares ([price: Int], [quantity: Int]); an object is the list of its
    own properties in insertion order. *)
Inductive jsval : Type :=
| JUndefined
| JNull
| JBool (b : bool)
| JNum (n : Z)
| JStr (s : string)
| JArr (xs : list jsval)
| JObj (fields : list (string * jsval)).

(** Induction through the lists of arrays and objects. *)
Section jsval_rect.
Variable P : jsval -> Prop.
Hypothesis HUndef : P JUndefined.
Hypothesis HNull : P JNull.
Hypothesis HBool : forall b, P (JBool b).
Hypothesis HNum : forall n, P (JNum n).
Hypothesis HStr : forall s, P (JStr s).
Hypothesis HArr : forall xs, Forall P xs -> P (JArr xs).
Hypothesis HObj : forall fs, Forall (fun kv => P kv.2) fs -> P (JObj fs).

Fixpoint jsval_ind' (v : jsval) : P v :=
  match v with
  | JUndefined => HUndef
  | JNull => HNull
  | JBool b => HBool b
  | JNum n => HNum n
  | JStr s => HStr s
  | JArr xs =>
      HArr xs ((fix go (l : list jsval) : Forall P l :=
                  match l with
                  | [] => Forall_nil_2 _
                  | x :: l' => Forall_cons_2 _ x l' (jsval_ind' x) (go l')
                  end) xs)
  | JObj fs =>
      HObj fs ((fix go (l : list (string * jsval)) : Forall (fun kv => P kv.2) l :=
                  match l with
                  | [] => Forall_nil_2 _
                  | kv :: l' => Forall_cons_2 _ kv l' (jsval_ind' kv.2) (go l')
                  end) fs)
  end.
End jsval_rect.

(** ** Property access [v.k] *)

(** First own property named [k] of an object. *)
Fixpoint field_lookup (k : string) (fs : list (string * jsval)) : option jsval :=
  match fs with
  | [] => None
  | (k', v) :: fs' => if String.eqb k k' then Some v else field_lookup k fs'
  end.

(** [v.k]: a [TypeError] on [undefined] and [null]; [undefined] for a
    missing property or a primitive. *)
Definition prop (v : jsval) (k : string) : res jsval :=
  match v with
  | JUndefined => Throw ("Cannot read properties of undefined (reading '" ++ k ++ "')")
  | JNull => Throw ("Cannot read properties of null (reading '" ++ k ++ "')")
  | JObj fs => Ok (default JUndefined (field_lookup k fs))
  | _ => Ok JUndefined
  end.

(** JavaScript truthiness, for [if (!x)]. *)
Definition truthy (v : jsval) : bool :=
  match v with
  | JUndefined | JNull => false
  | JBool b => b
  | JNum n => negb (Z.eqb n 0)
  | JStr s => negb (String.eqb s "")
  | JArr _ | JObj _ => true
  end.

(** ** Decimal numerals *)

Definition string_of_Z (n : Z) : string := NilEmpty.string_of_int (Z.to_int n).

(** ** Coercion to string in a template literal *)

(** [String(v)]: arrays join their elements with commas, [null] and
    [undefined] elements printing as the empty string; every plain object
    prints as [[object Object]]. *)
Fixpoint to_template (v : jsval) : string :=
  match v with
  | JUndefined => "undefined"
  | JNull => "null"
  | JBool true => "true"
  | JBool false => "false"
  | JNum n => string_of_Z n
  | JStr s => s
  | JArr xs =>
      String.concat ","
        (map (fun x => match x with JUndefined | JNull => "" | _ => to_template x end) xs)
  | JObj _ => "[object Object]"
  end.

(** ** JSON.stringify *)

(** The double-quote character (code 34) and the backslash (code 92), by their bits. *)
Abbreviation quote_char := (Ascii.Ascii false true false false false true false false).
Abbreviation backslash := (Ascii.Ascii false false true true true false true false).

Definition hex_digit (n : nat) : ascii :=
  if Nat.ltb n 10 then ascii_of_nat (48 + n) else ascii_of_nat (87 + n).

(** How [JSON.stringify] writes one character of a string. *)
Definition escape_char (c : ascii) : string :=
  let n := nat_of_ascii c in
  if Nat.eqb n 34 then String backslash (String quote_char "")
  else if Nat.eqb n 92 then String backslash (String backslash "")
  else if Nat.eqb n 8 then String backslash "b"
  else if Nat.eqb n 9 then String backslash "t"
  else if Nat.eqb n 10 then String backslash "n"
  else if Nat.eqb n 12 then String backslash "f"
  else if Nat.eqb n 13 then String backslash "r"
  else if Nat.ltb n 32 then
    String backslash ("u00" ++ String (hex_digit (n / 16)) (String (hex_digit (n mod 16)) ""))
  else String c "".

Fixpoint escape (s : string) : string :=
  match s with
  | "" => ""
  | String c s' => escape_char c ++ escape s'
  end.

Definition quote (s : string) : string :=
  String quote_char (escape s ++ String quote_char "").

(** Serialization of a value nested in an array or object: an [undefined]
    array element prints as [null]; an object property whose value is
    [undefined] is left out. *)
Fixpoint ser (v : jsval) : string :=
  match v with
  | JUndefined | JNull => "null"
  | JBool true => "true"
  | JBool false => "false"
  | JNum n => string_of_Z n
  | JStr s => quote s
  | JArr xs => "[" ++ String.concat "," (map ser xs) ++ "]"
  | JObj fs =>
      "{" ++ String.concat ","
               (flat_map (fun kv => match kv.2 with
                                    | JUndefined => []
                                    | _ => [quote kv.1 ++ ":" ++ ser kv.2]
                                    end) fs) ++ "}"
  end.

(** [JSON.stringify(v)]: [undefined] at top level gives [undefined]. *)
Definition stringify (v : jsval) : option string :=
  match v with
  | JUndefined => None
  | _ => Some (ser v)
  end.

(** The value [JSON.parse(JSON.stringify(v))] denotes. *)
Fixpoint json_norm (v : jsval) : jsval :=
  match v with
  | JUndefined => JNull
  | JArr xs => JArr (map json_norm xs)
  | JObj fs =>
      JObj (flat_map (fun kv => match kv.2 with
                                | JUndefined => []
                                | _ => [(kv.1, json_norm kv.2)]
                                end) fs)
  | _ => v
  end.

(** ** JSON.parse *)

Definition is_digit (c : ascii) : bool :=
  Nat.leb 48 (nat_of_ascii c) && Nat.leb (nat_of_ascii c) 57.

(** Maximal run of decimal digits. *)
Fixpoint take_digits (s : string) : string * string :=
  match s with
  | String c s' =>
      if is_digit c then let '(d, r) := take_digits s' in (String c d, r) else ("", s)
  | "" => ("", "")
  end.

(** An integer numeral: an optional minus sign and at least one digit. *)
Definition parse_number (s : string) : option (jsval * string) :=
  let '(neg, s1) :=
    match s with
    | String c s' => if Ascii.eqb c "-" then (true, s') else (false, s)
    | "" => (false, s)
    end in
  let '(ds, r) := take_digits s1 in
  match ds with
  | "" => None
  | _ =>
      match NilEmpty.uint_of_string ds with
      | Some u => Some (JNum (Z.of_int (if neg then Decimal.Neg u else Decimal.Pos u)), r)
      | None => None
      end
  end.

Definition hex_val (c : ascii) : option nat :=
  let n := nat_of_ascii c in
  if Nat.leb 48 n && Nat.leb n 57 then Some (n - 48)
  else if Nat.leb 97 n && Nat.leb n 102 then Some (n - 87)
  else if Nat.leb 65 n && Nat.leb n 70 then Some (n - 55)
  else None.

(** The character a one-letter escape [\e] stands for. *)
Definition unescape_simple (e : ascii) : option ascii :=
  let n := nat_of_ascii e in
  if Nat.eqb n 34 then Some quote_char
  else if Nat.eqb n 92 then Some backslash
  else if Nat.eqb n 47 then Some "/"%char
  else if Nat.eqb n 98 then Some (ascii_of_nat 8)
  else if Nat.eqb n 116 then Some (ascii_of_nat 9)
  else if Nat.eqb n 110 then Some (ascii_of_nat 10)
  else if Nat.eqb n 102 then Some (ascii_of_nat 12)
  else if Nat.eqb n 114 then Some (ascii_of_nat 13)
  else None.

Definition cons_fst {A} (c : ascii) (o : option (string * A)) : option (string * A) :=
  match o with Some (str, r) => Some (String c str, r) | None => None end.

(** The body of a string literal up to its closing quote.  Characters are
    bytes: a [\uXXXX] escape above [ÿ] is refused. *)
Fixpoint parse_str (s : string) : option (string * string) :=
  match s with
  | "" => None
  | String c s' =>
      if Ascii.eqb c quote_char then Some ("", s')
      else if Ascii.eqb c backslash then
        match s' with
        | "" => None
        | String e s'' =>
            match unescape_simple e with
            | Some c' => cons_fst c' (parse_str s'')
            | None =>
                if Ascii.eqb e "u" then
                  match s'' with
                  | String h1 (String h2 (String h3 (String h4 s3))) =>
                      match hex_val h1, hex_val h2, hex_val h3, hex_val h4 with
                      | Some a, Some b, Some c1, Some d =>
                          let n := ((a * 16 + b) * 16 + c1) * 16 + d in
                          if Nat.ltb n 256 then cons_fst (ascii_of_nat n) (parse_str s3)
                          else None
                      | _, _, _, _ => None
                      end
                  | _ => None
                  end
                else None
            end
        end
      else if Nat.ltb (nat_of_ascii c) 32 then None
      else cons_fst c (parse_str s')
  end.

(** [Some rest] when [s] is the character [c] followed by [rest]. *)
Definition next_is (c : ascii) (s : string) : option string :=
  match s with
  | String c' r => if Ascii.eqb c c' then Some r else None
  | EmptyString => None
  end.

(** [Some rest] when [s] is [p ++ rest]. *)
Fixpoint strip_prefix (p s : string) : option string :=
  match p with
  | EmptyString => Some s
  | String c p' => match next_is c s with Some r => strip_prefix p' r | None => None end
  end.

(** Recursive descent with fuel: every call consumes one unit. *)
Fixpoint parse_value (fuel : nat) (s : string) {struct fuel} : option (jsval * string) :=
  match fuel with
  | O => None
  | S f =>
      match strip_prefix "null" s with Some r => Some (JNull, r) | None =>
      match strip_prefix "true" s with Some r => Some (JBool true, r) | None =>
      match strip_prefix "false" s with Some r => Some (JBool false, r) | None =>
      match next_is "[" s with
      | Some r =>
          match next_is "]" r with
          | Some r' => Some (JArr [], r')
          | None => match parse_elems f r with Some (xs, r') => Some (JArr xs, r') | None => None end
          end
      | None =>
      match next_is "{" s with
      | Some r =>
          match next_is "}" r with
          | Some r' => Some (JObj [], r')
          | None => match parse_fields f r with Some (fs, r') => Some (JObj fs, r') | None => None end
          end
      | None =>
      match next_is quote_char s with
      | Some r => match parse_str r with Some (str, r') => Some (JStr str, r') | None => None end
      | None => parse_number s
      end end end end end end
  end
(** Elements of an array after its [\[], up to and including its [\]]. *)
with parse_elems (fuel : nat) (s : string) {struct fuel} : option (list jsval * string) :=
  match fuel with
  | O => None
  | S f =>
      match parse_value f s with
      | Some (v, r) =>
          match next_is "," r with
          | Some r' => match parse_elems f r' with Some (vs, r'') => Some (v :: vs, r'') | None => None end
          | None => match next_is "]" r with Some r' => Some ([v], r') | None => None end
          end
      | None => None
      end
  end
(** Members of an object after its [{], up to and including its [}]. *)
with parse_fields (fuel : nat) (s : string) {struct fuel}
  : option (list (string * jsval) * string) :=
  match fuel with
  | O => None
  | S f =>
      match next_is quote_char s with
      | None => None
      | Some r =>
      match parse_str r with
      | None => None
      | Some (k, r1) =>
      match next_is ":" r1 with
      | None => None
      | Some r1' =>
      match parse_value f r1' with
      | None => None
      | Some (v, r2) =>
          match next_is "," r2 with
          | Some r2' => match parse_fields f r2' with Some (fs, r3) => Some ((k, v) :: fs, r3) | None => None end
          | None => match next_is "}" r2 with Some r3 => Some ([(k, v)], r3) | None => None end
          end
      end end end end
  end.

(** [JSON.parse(s)]: [None] is the [SyntaxError] it throws. *)
Definition json_parse (s : string) : option jsval :=
  match parse_value (S (String.length s)) s with
  | Some (v, "") => Some v
  | _ => None
  end.

(** ** [String.prototype.split] *)

(** [S.split(R)] for a string separator [R]: the pieces of [S] between the
    occurrences of [R], left to right (ECMAScript's algorithm, with
    StringIndexOf as the Standard Library's [String.index]; each round
    restarts on the text after the occurrence it found).  Each round
    consumes at least one character when [R] is not empty, so the length of
    [S] plus one rounds are enough. *)
Fixpoint split_pieces (fuel : nat) (sep s : string) : list string :=
  match fuel with
  | O => [s]
  | S f =>
      match String.index 0 sep s with
      | Some j =>
          String.substring 0 j s
          :: split_pieces f sep (String.substring (j + String.length sep)
                                   (String.length s - (j + String.length sep)) s)
      | None => [s]
      end
  end.

Definition js_split (sep s : string) : list string := split_pieces (S (String.length s)) sep s.

Lemma substring_full t : String.substring 0 (String.length t) t = t.
Proof. induction t as [|c t IH]; cbn; [done|]. by rewrite IH. Qed.

(** [strip_prefix] is [String.prefix] followed by the rest of the text. *)
Lemma strip_prefix_spec p t :
  strip_prefix p t =
  if String.prefix p t
  then Some (String.substring (String.length p) (String.length t - String.length p) t)
  else None.
Proof.
  revert t. induction p as [|c p IH]; intros t.
  - destruct t; cbn; [done|]. by rewrite substring_full.
  - destruct t as [|c' t]; [done|]. cbn [strip_prefix next_is String.prefix].
    destruct (ascii_dec c c') as [<-|Hne].
    + rewrite Ascii.eqb_refl. apply IH.
    + by rewrite (proj2 (Ascii.eqb_neq _ _) Hne).
Qed.

(** ** The round trip [JSON.parse(JSON.stringify(v))] *)

Section Roundtrip.

Lemma parse_str_escape_char c t : parse_str (escape_char c ++ t) = cons_fst c (parse_str t).
Proof. destruct c as [[] [] [] [] [] [] [] []]; reflexivity. Qed.

Lemma parse_str_quote s r : parse_str (escape s ++ String quote_char r) = Some (s, r).
Proof.
induction s as [|c s IH]; [reflexivity|].
cbn [escape]. rewrite string_app_assoc, parse_str_escape_char, IH. reflexivity.
Qed.

(** A string that does not continue a numeral. *)
Definition delim (r : string) : bool :=
match r with String c _ => negb (is_digit c) | EmptyString => true end.

Lemma take_digits_uint u r :
delim r = true -> take_digits (NilEmpty.string_of_uint u ++ r) = (NilEmpty.string_of_uint u, r).
Proof.
intros Hr. induction u; cbn [NilEmpty.string_of_uint];
  rewrite ?string_app_cons, ?string_app_nil_l; cbn [take_digits]; rewrite ?IHu; try reflexivity.
destruct r as [|c r]; [reflexivity|]. cbn in Hr |- *.
destruct (is_digit c); [discriminate | reflexivity].
Qed.

Lemma string_of_uint_head u :
u <> Decimal.Nil -> exists c s, NilEmpty.string_of_uint u = String c s /\ is_digit c = true.
Proof. destruct u; [done|..]; intros _; eexists _, _; split; reflexivity. Qed.

Lemma digit_not_minus c : is_digit c = true -> Ascii.eqb c "-" = false.
Proof. destruct (Ascii.eqb_spec c "-"); [subst; done | done]. Qed.

Lemma parse_number_uint (neg : bool) u r :
u <> Decimal.Nil -> delim r = true ->
parse_number ((if neg then "-" else "") ++ NilEmpty.string_of_uint u ++ r)
= Some (JNum (Z.of_int (if neg then Decimal.Neg u else Decimal.Pos u)), r).
Proof.
intros Hu Hr. pose proof (take_digits_uint u r Hr) as Ht.
destruct (string_of_uint_head u Hu) as (c & s & Hs & Hc).
rewrite Hs, string_app_cons in Ht |- *.
destruct neg; unfold parse_number; rewrite ?string_app_cons, ?string_app_nil_l;
  cbn -[take_digits NilEmpty.uint_of_string]; rewrite ?digit_not_minus by done;
  rewrite Ht; cbn -[NilEmpty.uint_of_string]; rewrite <- Hs, NilEmpty.usu; reflexivity.
Qed.

Lemma to_int_digits_nonnil n :
match Z.to_int n with Decimal.Pos u | Decimal.Neg u => u <> Decimal.Nil end.
Proof. destruct n; simpl; [done | apply Unsigned.to_uint_nonnil ..]. Qed.

Lemma parse_number_Z n r : delim r = true -> parse_number (string_of_Z n ++ r) = Some (JNum n, r).
Proof.
intros Hr. unfold string_of_Z. rewrite <- (DecimalZ.of_to n) at 2.
pose proof (to_int_digits_nonnil n) as Hn.
destruct (Z.to_int n) as [u|u]; cbn [NilEmpty.string_of_int].
- exact (parse_number_uint false u r Hn Hr).
- exact (parse_number_uint true u r Hn Hr).
Qed.

Lemma string_of_Z_head n :
exists c s, string_of_Z n = String c s /\ (is_digit c || Ascii.eqb c "-") = true.
Proof.
unfold string_of_Z. pose proof (to_int_digits_nonnil n) as Hn.
destruct (Z.to_int n) as [u|u]; cbn [NilEmpty.string_of_int].
- destruct (string_of_uint_head u Hn) as (c & s & -> & Hc). exists c, s. by rewrite Hc.
- by exists "-"%char, (NilEmpty.string_of_uint u).
Qed.

(** A numeral is dispatched to [parse_number]. *)
Lemma parse_value_numeral f c s :
(is_digit c || Ascii.eqb c "-") = true -> parse_value (S f) (String c s) = parse_number (String c s).
Proof. intros H. destruct c as [[] [] [] [] [] [] [] []]; try discriminate H; reflexivity. Qed.

(** The fuel a value needs: one unit per nesting level and element. *)
Fixpoint jsize (v : jsval) : nat :=
match v with
| JArr xs => S (list_sum (map (fun x => S (jsize x)) xs))
| JObj fs => S (list_sum (flat_map (fun kv => match kv.2 with
                                             | JUndefined => []
                                             | _ => [S (jsize kv.2)]
                                             end) fs))
| _ => 1
end.

(** The properties [JSON.stringify] writes: those not [undefined]. *)
Definition kept (fs : list (string * jsval)) : list (string * jsval) :=
flat_map (fun kv => match kv.2 with JUndefined => [] | _ => [kv] end) fs.

Lemma flat_map_kept {B} (g : string * jsval -> B) fs :
flat_map (fun kv => match kv.2 with JUndefined => [] | _ => [g kv] end) fs = map g (kept fs).
Proof. induction fs as [|[k v] fs IH]; [done|]. destruct v; simpl; by rewrite IH. Qed.

Lemma ser_obj fs :
ser (JObj fs) = "{" ++ String.concat "," (map (fun kv => quote kv.1 ++ ":" ++ ser kv.2) (kept fs)) ++ "}".
Proof. cbn [ser]. by rewrite (flat_map_kept (fun kv => quote kv.1 ++ ":" ++ ser kv.2)). Qed.

Lemma norm_obj fs : json_norm (JObj fs) = JObj (map (fun kv => (kv.1, json_norm kv.2)) (kept fs)).
Proof. cbn [json_norm]. by rewrite (flat_map_kept (fun kv => (kv.1, json_norm kv.2))). Qed.

Lemma jsize_obj fs : jsize (JObj fs) = S (list_sum (map (fun kv => S (jsize kv.2)) (kept fs))).
Proof. cbn [jsize]. by rewrite (flat_map_kept (fun kv => S (jsize kv.2))). Qed.

Lemma numeral_not_close c :
(is_digit c || Ascii.eqb c "-") = true -> Ascii.eqb "]" c = false /\ Ascii.eqb "}" c = false.
Proof. intros H. destruct c as [[] [] [] [] [] [] [] []]; try discriminate H; done. Qed.

Lemma ser_head v :
exists c s, ser v = String c s /\ Ascii.eqb "]" c = false /\ Ascii.eqb "}" c = false.
Proof.
destruct v as [| |[]|n|s|xs|fs]; try (eexists _, _; split; [reflexivity | done]).
- destruct (string_of_Z_head n) as (c & s & Hs & Hc). exists c, s.
  split; [exact Hs | by apply numeral_not_close].
Qed.

(** [ser v] parses back to [json_norm v], whatever follows it. *)
Definition ser_ok (v : jsval) : Prop :=
forall f r, jsize v < f -> delim r = true -> parse_value f (ser v ++ r) = Some (json_norm v, r).

Lemma parse_elems_ser xs f r :
Forall ser_ok xs -> xs <> [] -> list_sum (map (fun x => S (jsize x)) xs) < f ->
parse_elems f (String.concat "," (map ser xs) ++ String "]" r) = Some (map json_norm xs, r).
Proof.
intros Hok. revert f. induction Hok as [|x xs Hx Hxs IH]; intros f Hne Hf; [done|].
destruct f as [|f]; [lia|]. simpl in Hf. cbn [parse_elems].
destruct xs as [|y xs].
- cbn [map String.concat]. app_norm. rewrite Hx by (reflexivity || lia). reflexivity.
- change (String.concat "," (map ser (x :: y :: xs)))
    with (ser x ++ "," ++ String.concat "," (map ser (y :: xs))).
  app_norm. rewrite Hx by (reflexivity || lia). cbn [next_is Ascii.eqb Bool.eqb].
  rewrite IH by (done || lia).
  reflexivity.
Qed.

Lemma parse_fields_ser kl f r :
Forall (fun kv => ser_ok kv.2) kl -> kl <> [] ->
list_sum (map (fun kv => S (jsize kv.2)) kl) < f ->
parse_fields f (String.concat "," (map (fun kv => quote kv.1 ++ ":" ++ ser kv.2) kl) ++ String "}" r)
= Some (map (fun kv => (kv.1, json_norm kv.2)) kl, r).
Proof.
intros Hok. revert f. induction Hok as [|[k v] kl Hx Hkl IH]; intros f Hne Hf; [done|].
destruct f as [|f]; [lia|]. simpl in Hf, Hx. cbn [parse_fields].
destruct kl as [|kv' kl].
- cbn [map String.concat fst snd]. unfold quote. app_norm. cbn [next_is].
  rewrite Ascii.eqb_refl, parse_str_quote. cbn [next_is Ascii.eqb Bool.eqb].
  rewrite Hx by (reflexivity || lia). reflexivity.
- change (String.concat "," (map (fun kv => quote kv.1 ++ ":" ++ ser kv.2) ((k, v) :: kv' :: kl)))
    with ((quote k ++ ":" ++ ser v) ++ "," ++
          String.concat "," (map (fun kv => quote kv.1 ++ ":" ++ ser kv.2) (kv' :: kl))).
  unfold quote at 1. app_norm. cbn [next_is].
  rewrite Ascii.eqb_refl, parse_str_quote. cbn [next_is Ascii.eqb Bool.eqb].
  rewrite Hx by (reflexivity || lia). cbn [next_is Ascii.eqb Bool.eqb].
  rewrite IH by (done || lia). reflexivity.
Qed.

Lemma concat_cons_head (sep a : string) l : exists t, String.concat sep (a :: l) = a ++ t.
Proof. destruct l; [exists ""; by rewrite string_app_nil_r | by eexists]. Qed.

Lemma next_is_concat_map {A} c (g : A -> string) x l t :
(forall t', next_is c (g x ++ t') = None) ->
next_is c (String.concat "," (map g (x :: l)) ++ t) = None.
Proof.
intros H. destruct (concat_cons_head "," (g x) (map g l)) as [t' Ht].
cbn [map]. by rewrite Ht, string_app_assoc.
Qed.

(** A serialized value never starts with a closing bracket. *)
Lemma next_is_close_ser c v t :
(c = "]" \/ c = "}")%char -> next_is c (ser v ++ t) = None.
Proof.
intros Hc. destruct (ser_head v) as (c' & s & Hs & H1 & H2).
rewrite Hs, string_app_cons. cbn [next_is]. by destruct Hc as [-> | ->]; [rewrite H1 | rewrite H2].
Qed.

Lemma Forall_kept (P : string * jsval -> Prop) fs : Forall P fs -> Forall P (kept fs).
Proof.
induction 1 as [|[k v] fs Hx _ IH]; [constructor|].
destruct v; cbn; try constructor; done.
Qed.

Lemma parse_ser v : ser_ok v.
Proof.
induction v as [| |b|n|s|xs Hxs|fs Hfs] using jsval_ind'; intros f r Hf Hr;
  (destruct f as [|f]; [cbn in Hf; lia|]).
- reflexivity.
- reflexivity.
- by destruct b.
- destruct (string_of_Z_head n) as (c & s & Hs & Hc). cbn [ser json_norm].
  rewrite Hs, string_app_cons, parse_value_numeral, <- string_app_cons, <- Hs by done.
  by apply parse_number_Z.
- cbn [ser json_norm]. unfold quote. app_norm. cbn.
  rewrite parse_str_quote. reflexivity.
- destruct xs as [|x xs]; [reflexivity|]. cbn [ser json_norm jsize] in *. app_norm.
  cbn [parse_value strip_prefix next_is Ascii.eqb Bool.eqb].
  rewrite next_is_concat_map by (intros; apply next_is_close_ser; auto).
  rewrite (parse_elems_ser (x :: xs)) by (done || (simpl in *; lia)). reflexivity.
- rewrite ser_obj, norm_obj. rewrite jsize_obj in Hf.
  apply Forall_kept in Hfs. destruct (kept fs) as [|[k v] kl]; [reflexivity|]. app_norm.
  cbn [parse_value strip_prefix next_is Ascii.eqb Bool.eqb].
  rewrite next_is_concat_map by (intros; unfold quote; by app_norm).
  rewrite (parse_fields_ser ((k, v) :: kl)) by (done || (simpl in *; lia)). reflexivity.
Qed.

Lemma concat_length (l : list string) :
l <> [] -> String.length (String.concat "," l) + 1 = list_sum (map (fun s => S (String.length s)) l).
Proof.
induction l as [|a l IH]; [done|]. intros _. destruct l as [|b l]; [simpl; lia|].
change (String.concat "," (a :: b :: l)) with (a ++ "," ++ String.concat "," (b :: l)).
rewrite !string_app_length. specialize (IH ltac:(done)). simpl in *. lia.
Qed.

Lemma list_sum_map_le {A} (f g : A -> nat) l :
Forall (fun x => f x <= g x) l -> list_sum (map f l) <= list_sum (map g l).
Proof. induction 1; simpl; lia. Qed.

(** A value needs no more fuel than its text has characters. *)
Lemma jsize_le_ser v : jsize v <= String.length (ser v).
Proof.
induction v as [| |b|n|s|xs Hxs|fs Hfs] using jsval_ind'; try (destruct b); try (simpl; lia).
- destruct (string_of_Z_head n) as (c & s & Hs & _). cbn [ser jsize]. rewrite Hs. simpl. lia.
- destruct xs as [|x xs]; [simpl; lia|]. cbn [ser jsize].
  rewrite !string_app_length.
  change (String.length "[") with 1. change (String.length "]") with 1.
  pose proof (concat_length (map ser (x :: xs)) ltac:(done)).
  assert (list_sum (map (fun x => S (jsize x)) (x :: xs))
          <= list_sum (map (fun x => S (String.length x)) (map ser (x :: xs)))); [|lia].
  rewrite map_map. apply list_sum_map_le. eapply Forall_impl; [exact Hxs|]. simpl. lia.
- rewrite ser_obj, jsize_obj. apply Forall_kept in Hfs.
  destruct (kept fs) as [|[k v] kl]; [simpl; lia|].
  rewrite !string_app_length.
  change (String.length "{") with 1. change (String.length "}") with 1.
  pose proof (concat_length (map (fun kv => quote kv.1 ++ ":" ++ ser kv.2) ((k, v) :: kl))
                ltac:(done)).
  assert (list_sum (map (fun kv => S (jsize kv.2)) ((k, v) :: kl))
          <= list_sum (map (fun s => S (String.length s))
                (map (fun kv => quote kv.1 ++ ":" ++ ser kv.2) ((k, v) :: kl)))); [|lia].
  rewrite map_map. apply list_sum_map_le.
  eapply Forall_impl; [exact Hfs|]. intros [k' v'] Hv. cbn [fst snd] in *.
  rewrite !string_app_length. lia.
Qed.
Lemma parse_ser_norm v : v <> JUndefined -> json_parse (ser v) = Some (json_norm v).
Proof.
  intros Hv. unfold json_parse. pose proof (parse_ser v (S (String.length (ser v))) "") as P.
  rewrite string_app_nil_r in P. rewrite P; [reflexivity | | reflexivity].
  pose proof (jsize_le_ser v). lia.
Qed.
End Roundtrip.

(** [JSON.parse(JSON.stringify(v))] is [json_norm v]: the value read back
    from the cache is the value written, with [undefined] array elements
    read as [null] and [undefined] properties dropped. *)
Theorem json_roundtrip v s : stringify v = Some s -> json_parse s = Some (json_norm v).
Proof.
  intros H. assert (s = ser v /\ v <> JUndefined) as [-> Hv]
    by (destruct v; unfold stringify in H; split; congruence).
  by apply parse_ser_norm.
Qed.

(** A JSON value: no [undefined] anywhere. *)
Fixpoint json_value (v : jsval) : bool :=
  match v with
  | JUndefined => false
  | JArr xs => forallb json_value xs
  | JObj fs => forallb (fun kv => json_value kv.2) fs
  | _ => true
  end.

Lemma kept_cons k v fs : v <> JUndefined -> kept ((k, v) :: fs) = (k, v) :: kept fs.
Proof. destruct v; [done | reflexivity ..]. Qed.

Lemma json_norm_id v : json_value v = true -> json_norm v = v.
Proof.
  induction v as [| |b|n|s|xs Hxs|fs Hfs] using jsval_ind'; intros Hv; try done.
  - cbn [json_norm]. f_equal. cbn in Hv. induction Hxs as [|x xs Hx _ IH]; [done|].
    apply andb_prop in Hv as [H1 H2]. cbn. by rewrite Hx, IH.
  - rewrite norm_obj. f_equal. cbn in Hv.
    induction Hfs as [|[k v] fs Hx _ IH]; [done|].
    apply andb_prop in Hv as [H1 H2]. cbn [fst snd] in *.
    assert (v <> JUndefined) by (by intros ->).
    rewrite kept_cons by done. cbn [map fst snd]. by rewrite Hx, IH.
Qed.

(** Stringifying a JSON value gives text that parses back to the value. *)
Corollary json_roundtrip_value v : json_value v = true -> exists s, stringify v = Some s /\ json_parse s = Some v.
Proof.
  intros Hv. assert (v <> JUndefined) by (by intros ->).
  exists (ser v). split; [by destruct v|].
  rewrite <- (json_norm_id v Hv) at 2. by apply parse_ser_norm.
Qed.

(** ** Runs on concrete values *)

(** A document with a negative number, an [undefined] array element, an
    [undefined] property and a string holding a quote and a newline. *)
Definition sample : jsval :=
  JObj [("a", JArr [JNum (-12); JUndefined; JBool true]); ("b", JUndefined);
        ("s", JStr (String quote_char (String (ascii_of_nat 10) "x")))].

Lemma json_roundtrip_witness :
  json_parse (ser sample) =
  Some (JObj [("a", JArr [JNum (-12); JNull; JBool true]);
              ("s", JStr (String quote_char (String (ascii_of_nat 10) "x")))]).
Proof. apply (json_roundtrip sample). reflexivity. Defined.

Lemma json_roundtrip_value_witness :
  exists s, stringify (JArr [JNum 7; JStr "k"; JObj [("n", JNull)]]) = Some s /\
            json_parse s = Some (JArr [JNum 7; JStr "k"; JObj [("n", JNull)]]).
Proof. apply json_roundtrip_value. reflexivity. Defined.
