(* ===== verification/Redis.v ===== *)
(** The Redis client the gateway shares between its resolvers and its
    Kafka consumer ([cacheClient], library/redis.ts): a connection flag and
    the server's key/value store, with the commands the gateway issues
    ([connect], [get], [set], [del], [disconnect]) as node-redis runs them. *)

From S2P Require Import Prelude.
Local Open Scope string_scope.

Module Redis.

(** [createClient({ url })]: a client starts closed; the store is the
    server's, which outlives the client. *)
Record t : Type := mk {
  is_open : bool;
  store : gmap string string
}.

Definition create (store0 : gmap string string) : t := mk false store0.

(** The error node-redis raises for a command on a closed client. *)
Definition closed_msg : string := "The client is closed".

Definition connect : M t unit := fun c =>
  if is_open c then (Throw "Socket already opened", c) else (Ok tt, mk true (store c)).

Definition disconnect : M t unit := fun c =>
  if is_open c then (Ok tt, mk false (store c)) else (Throw closed_msg, c).

(** [GET k]: [null] (here [None]) for a missing key. *)
Definition get (k : string) : M t (option string) := fun c =>
  if is_open c then (Ok (store c !! k), c) else (Throw closed_msg, c).

(** [SET k v] with no expiry. *)
Definition set (k v : string) : M t unit := fun c =>
  if is_open c then (Ok tt, mk true (<[k := v]> (store c))) else (Throw closed_msg, c).

(** [DEL k]: the number of keys removed. *)
Definition del (k : string) : M t Z := fun c =>
  if is_open c then
    (Ok (if decide (is_Some (store c !! k)) then 1%Z else 0%Z), mk true (delete k (store c)))
  else (Throw closed_msg, c).

(** ** Command semantics *)

Lemma get_open c k : is_open c = true -> get k c = (Ok (store c !! k), c).
Proof. unfold get. by intros ->. Qed.

Lemma set_open c k v :
  is_open c = true -> set k v c = (Ok tt, mk true (<[k := v]> (store c))).
Proof. unfold set. by intros ->. Qed.

Lemma del_store c k : is_open c = true -> store (del k c).2 = delete k (store c).
Proof. unfold del. by intros ->. Qed.

Lemma closed_throws c k v :
  is_open c = false ->
  get k c = (Throw closed_msg, c) /\ set k v c = (Throw closed_msg, c) /\
  del k c = (Throw closed_msg, c).
Proof. unfold get, set, del. by intros ->. Qed.

(** Every command leaves the connection flag as it found it. *)
Lemma get_state c k : (get k c).2 = c.
Proof. unfold get. by destruct (is_open c). Qed.

Lemma set_is_open c k v : is_open (set k v c).2 = is_open c.
Proof. unfold set. by destruct (is_open c) eqn:E. Qed.

Lemma del_is_open c k : is_open (del k c).2 = is_open c.
Proof. unfold del. by destruct (is_open c) eqn:E. Qed.

(** A [del] of one key leaves every other key as it was. *)
Lemma del_other c k k' : k <> k' -> store (del k c).2 !! k' = store c !! k'.
Proof. intros Hk. unfold del. destruct (is_open c); cbn [store snd]; [by rewrite lookup_delete_ne | done]. Qed.



Lemma set_other c k k' v : k <> k' -> store (set k v c).2 !! k' = store c !! k'.
Proof. intros Hk. unfold set. destruct (is_open c); cbn [store snd]; [by rewrite lookup_insert_ne | done]. Qed.

End Redis.

#[export] Hint Resolve Redis.get_state Redis.set_is_open Redis.del_is_open : gw.
