(* ===== verification/Http.v ===== *)
(** HTTP between the gateway and the three backend services: requests and
    responses, the [Transport] interface a backend provides, and the axios
    clients of the gateway (library/http.ts and the [Axios.create] clients
    of services/*.ts), which reject every status outside 2xx and unwrap the
    [{ result }] envelope ([.then((res) => res.data.result)]).  Every
    request the gateway sends is recorded in a log, so that theorems can
    count backend calls.  The instances themselves are modelled with their
    interceptors, to show that the logging interceptor of library/http.ts
    is not attached to the clients that send the requests. *)

From S2P Require Import Prelude Js.
Local Open Scope string_scope.

Inductive service : Type := UserSvc | ProductSvc | OrderSvc.

#[export] Instance service_eq_dec : EqDecision service.
Proof. solve_decision. Defined.

Inductive method : Type := GET | POST.

#[export] Instance method_eq_dec : EqDecision method.
Proof. solve_decision. Defined.

Record request : Type := mkRequest {
  req_method : method;
  req_path : string;
  req_body : jsval;
  req_headers : list (string * string)
}.

Record response : Type := mkResponse {
  status : Z;
  data : jsval
}.

(** The per-request context the GraphQL handler builds
    ([context: (req) => ({ headers: req.headers })], gateway/src/app.ts):
    the inbound headers, with their names in lower case as Node gives them. *)
Record context : Type := mkContext { headers : list (string * string) }.

(** [context.headers[name]] *)
Definition header (ctx : context) (name : string) : option string :=
  match List.find (fun h => String.eqb h.1 name) (headers ctx) with
  | Some (_, v) => Some v
  | None => None
  end.

(** What a backend service promises the gateway: it answers a request (or
    the connection fails, [None]) and may change its own state. *)
Class Transport (S : Type) := {
  serve : service -> request -> S -> option response * S
}.

(** The log of every request sent, oldest first. *)
Abbreviation reqlog := (list (service * request)).

(** Message of the [AxiosError] for a status outside 2xx. *)
Definition status_msg (st : Z) : string := "Request failed with status code " ++ string_of_Z st.

Definition ok_status (st : Z) : bool := (200 <=? st)%Z && (st <? 300)%Z.

(** [{ result: v }] *)
Definition envelope (v : jsval) : jsval := JObj [("result", v)].

(** ** Axios instances and their interceptors (library/http.ts) *)

(** The interceptor library/http.ts registers: it logs the URL and the body
    of a response and returns the response unchanged. *)
Inductive interceptor : Type := LogResponse.

(** The configuration of an instance; the base URL is the only setting the
    gateway gives. *)
Record config : Type := mkConfig { cfg_base_url : option string }.

Record instance : Type := mkInstance {
  defaults : config;
  response_interceptors : list interceptor
}.

(** [Axios.create(config)]: a new instance with no interceptor. *)
Definition axios_create (cfg : config) : instance := mkInstance cfg [].

(** [inst.interceptors.response.use(i)] *)
Definition use_response (i : interceptor) (inst : instance) : instance :=
  mkInstance (defaults inst) (response_interceptors inst ++ [i])%list.

(** [const axios = Axios.create({}); axios.interceptors.response.use(...)] *)
Definition shared_axios : instance := use_response LogResponse (axios_create (mkConfig None)).

(** [Axios.create({ ...axios.defaults, baseURL })] in services/*.ts: the
    spread copies the shared instance's configuration, with [baseURL]
    set; its interceptors are not part of it. *)
Definition service_client (base : option string) (shared : instance) : instance :=
  axios_create (mkConfig base).

(** [`URL :  ${response.config?.url}\n ${JSON.stringify(response.data)}`] *)
Definition log_line (req : request) (rsp : response) : string :=
  "URL :  " ++ req_path req ++ String (Ascii.ascii_of_nat 10) (" " ++ default "undefined" (stringify (data rsp))).

(** The lines the response interceptors of [inst] print for a response:
    they run on a response that passes [validateStatus] (2xx). *)
Definition intercept (inst : instance) (req : request) (rsp : response) : list string :=
  if ok_status (status rsp)
  then map (fun i => match i with LogResponse => log_line req rsp end) (response_interceptors inst)
  else [].


(** A thrown [res] re-thrown in the monad. *)
Definition lift_res {S A} (r : res A) : M S A :=
  match r with Ok a => mret a | Throw e => throw e end.

Section Axios.
Context {S : Type} `{Lens S reqlog} `{Transport S}.

(** One request through the client [Axios.create({ ...axios.defaults,
    baseURL })] of a service: logged, served, and rejected unless its status
    is 2xx (axios's default [validateStatus]).  Spreading [axios.defaults]
    copies the shared instance's configuration, not its interceptors, so the
    logging interceptor of library/http.ts never runs on these clients. *)
Definition send (svc : service) (req : request) : M S response := fun s =>
  let s1 := update ((view s ++ [(svc, req)])%list) s in
  match serve svc req s1 with
  | (None, s2) => (Throw "connect ECONNREFUSED", s2)
  | (Some rsp, s2) =>
      if ok_status (status rsp) then (Ok rsp, s2) else (Throw (status_msg (status rsp)), s2)
  end.

Definition http_get (svc : service) (path : string) : M S response :=
  send svc (mkRequest GET path JUndefined []).

Definition http_post (svc : service) (path : string) (body : jsval)
    (hdrs : list (string * string)) : M S response :=
  send svc (mkRequest POST path body hdrs).

(** [.then((res) => res.data.result)] *)
Definition result_of (rsp : response) : M S jsval := lift_res (prop (data rsp) "result").

(** [client.get(path).then((res) => res.data.result)] *)
Definition get_result (svc : service) (path : string) : M S jsval :=
  rsp ← http_get svc path; result_of rsp.

Definition post_result (svc : service) (path : string) (body : jsval)
    (hdrs : list (string * string)) : M S jsval :=
  rsp ← http_post svc path body hdrs; result_of rsp.

(** ** What one call does *)

(** A backend that answers [200 { result: v }] without changing state. *)
Definition answers (s : S) (svc : service) (req : request) (v : jsval) : Prop :=
  forall l, serve svc req (update l s) = (Some (mkResponse 200 (envelope v)), update l s).

Context `{!LensLaws S reqlog}.

Lemma send_ok svc req s v :
  answers s svc req v ->
  send svc req s = (Ok (mkResponse 200 (envelope v)), update ((view s ++ [(svc, req)])%list) s).
Proof. intros Hs. unfold send. by rewrite Hs. Qed.

Lemma get_result_ok svc path s v :
  answers s svc (mkRequest GET path JUndefined []) v ->
  get_result svc path s = (Ok v, update ((view s ++ [(svc, mkRequest GET path JUndefined [])])%list) s).
Proof. intros Hs. unfold get_result, http_get. erewrite bind_ok by (by apply send_ok). done. Qed.

Lemma post_result_ok svc path body hdrs s v :
  answers s svc (mkRequest POST path body hdrs) v ->
  post_result svc path body hdrs s
  = (Ok v, update ((view s ++ [(svc, mkRequest POST path body hdrs)])%list) s).
Proof. intros Hs. unfold post_result, http_post. erewrite bind_ok by (by apply send_ok). done. Qed.

(** A 2xx answer, whatever it does to the backend's state. *)
Lemma send_served svc req s rsp s' :
  serve svc req (update ((view s ++ [(svc, req)])%list) s) = (Some rsp, s') ->
  ok_status (status rsp) = true ->
  send svc req s = (Ok rsp, s').
Proof. intros Hs Hst. unfold send. by rewrite Hs, Hst. Qed.

Lemma post_result_served svc path body hdrs s rsp s' r :
  serve svc (mkRequest POST path body hdrs)
    (update ((view s ++ [(svc, mkRequest POST path body hdrs)])%list) s) = (Some rsp, s') ->
  ok_status (status rsp) = true -> prop (data rsp) "result" = Ok r ->
  post_result svc path body hdrs s = (Ok r, s').
Proof.
  intros Hs Hst Hr. unfold post_result, http_post.
  erewrite bind_ok by (by apply send_served). unfold result_of. by rewrite Hr.
Qed.

(** A status outside 2xx is thrown with axios's message; the request has
    been logged all the same. *)
Lemma send_status_error svc req s rsp s' :
  serve svc req (update ((view s ++ [(svc, req)])%list) s) = (Some rsp, s') ->
  ok_status (status rsp) = false ->
  send svc req s = (Throw (status_msg (status rsp)), s').
Proof. intros Hs Hst. unfold send. by rewrite Hs, Hst. Qed.

(** Exactly one request is logged per call, whatever the outcome, as long
    as the backend does not touch the log. *)
Definition log_preserving : Prop :=
  forall svc req s, view (serve svc req s).2 = view s.

Lemma send_logs svc req s :
  log_preserving -> view (send svc req s).2 = (view s ++ [(svc, req)])%list.
Proof.
  intros Hp. unfold send.
  pose proof (Hp svc req (update ((view s ++ [(svc, req)])%list) s)) as HP.
  rewrite view_update in HP.
  destruct (serve svc req _) as [[rsp|] s2]; [destruct (ok_status (status rsp))|]; exact HP.
Qed.
End Axios.

#[export] Hint Resolve send_ok get_result_ok post_result_ok : gw.

