(* ===== verification/UserBackend.v ===== *)
(** The user service (Services/User-Service/src/app.ts): an Express app over
    a MongoDB [User] collection.  [POST /] validates its body with zod,
    refuses a taken username, hashes the password with bcrypt and creates
    the user; [GET /:id] and [GET /] read the collection.  The password
    hash, [signJWT] (./middleware) and the [User] model (./models) are not
    under src/: they are parameters of the Section. *)

From S2P Require Import Prelude Js Http.
Local Open Scope string_scope.

Module UserBackend.

Record user : Type := mkUser {
  uid : string;
  username : string;
  password : string
}.

(** The collection, and the counter MongoDB draws fresh ObjectIds from. *)
Record db : Type := mkDb {
  users : list user;
  next_oid : nat
}.

(** A 24-digit hexadecimal ObjectId. *)
Fixpoint hex_pad (w n : nat) (acc : string) : string :=
  match w with
  | O => acc
  | S w' => hex_pad w' (n / 16) (String (hex_digit (n mod 16)) acc)
  end.

Definition oid_of_nat (n : nat) : string := hex_pad 24 n "".

Definition is_hex (c : ascii) : bool :=
  let n := nat_of_ascii c in
  (Nat.leb 48 n && Nat.leb n 57) || (Nat.leb 97 n && Nat.leb n 102) || (Nat.leb 65 n && Nat.leb n 70).

(** What mongoose accepts as an ObjectId in [findById]. *)
Definition is_object_id (s : string) : bool :=
  Nat.eqb (String.length s) 24 && forallb is_hex (list_ascii_of_string s).

(** [User.findOne({ username })] *)
Definition find_by_name (name : string) (d : db) : option user :=
  List.find (fun u => String.eqb (username u) name) (users d).

(** [User.findById(id)]: a [CastError] when [id] is no ObjectId. *)
Definition find_by_id (id : string) (d : db) : res (option user) :=
  if is_object_id id
  then Ok (List.find (fun u => String.eqb (uid u) id) (users d))
  else Throw ("Cast to ObjectId failed for value " ++ id ++ " at path _id for model User").

(** [User.create({ username, password })] *)
Definition create (name hash : string) (d : db) : user * db :=
  let u := mkUser (oid_of_nat (next_oid d)) name hash in
  (u, mkDb (users d ++ [u]) (S (next_oid d))).

(** The JSON of a user document ([_id], [username], [password], [__v]). *)
Definition user_json (u : user) : jsval :=
  JObj [("_id", JStr (uid u)); ("username", JStr (username u));
        ("password", JStr (password u)); ("__v", JNum 0)].

Definition reply (st : Z) (v : jsval) : response := mkResponse st v.
Definition error_reply (st : Z) (msg : string) : response := reply st (JObj [("error", JStr msg)]).

(** [z.object({ username: z.string(), password: z.string() })] *)
Definition valid_body (body : jsval) : option (string * string) :=
  match prop body "username", prop body "password" with
  | Ok (JStr n), Ok (JStr p) => Some (n, p)
  | _, _ => None
  end.

(** The 400 reply of [validateRequestBody] on a body that fails the schema. *)
Definition validation_reply : response :=
  reply 400 (JArr [JObj [("type", JStr "Body")]]).

Section Handlers.
(** [bcrypt.hash(password, 10, cb)]: a hash or the error passed to [cb]. *)
Variable bcrypt_hash : string -> res string.
(** [signJWT(newUser.id)] *)
Variable signJWT : string -> string.

(** [app.post('/', validateRequestBody(...), async (req, res) => ...)] *)
Definition register (body : jsval) (d : db) : response * db :=
  match valid_body body with
  | None => (validation_reply, d)
  | Some (name, pw) =>
      match find_by_name name d with
      | Some _ => (error_reply 400 "Username already exists", d)
      | None =>
          match bcrypt_hash pw with
          | Throw e => (error_reply 500 e, d)
          | Ok hash =>
              let '(u, d') := create name hash d in
              (reply 201 (JObj [("result", JObj [("user", user_json u);
                                                ("access_token", JStr (signJWT (uid u)))])]), d')
          end
      end
  end.

(** [app.get('/:id', ...)] *)
Definition get_by_id (id : string) (d : db) : response :=
  match find_by_id id d with
  | Throw e => error_reply 500 e
  | Ok None => error_reply 404 "User not Found"
  | Ok (Some u) => reply 200 (envelope (user_json u))
  end.

(** [app.get('/', ...)] *)
Definition get_all (d : db) : response := reply 200 (envelope (JArr (map user_json (users d)))).

(** Express routing of the three routes; anything else is Express's 404. *)
Definition handle (req : request) (d : db) : response * db :=
  match req_method req, req_path req with
  | POST, "/" => register (req_body req) d
  | GET, "/" => (get_all d, d)
  | GET, String "/" seg =>
      if String.eqb seg "" || existsb (fun c => Ascii.eqb c "/") (list_ascii_of_string seg) then (error_reply 404 "Cannot GET", d)
      else (get_by_id seg d, d)
  | _, _ => (error_reply 404 "Cannot handle", d)
  end.

(** ** Registration *)

(** Usernames in the collection are pairwise distinct. *)
Definition names_unique (d : db) : Prop := NoDup (map username (users d)).

Lemma find_by_name_None name d :
  find_by_name name d = None -> name ∉ map username (users d).
Proof.
  unfold find_by_name. intros Hf Hin. apply list_elem_of_In, in_map_iff in Hin as (u & <- & Hu).
  eapply find_none in Hf; [|exact Hu]. by rewrite String.eqb_refl in Hf.
Qed.

Lemma find_by_name_Some name d u :
  find_by_name name d = Some u -> username u = name.
Proof. unfold find_by_name. intros Hf. apply find_some in Hf as [_ Hf]. by apply String.eqb_eq. Qed.

Lemma find_by_name_snoc name d u n :
  find_by_name name d = None -> username u = name ->
  find_by_name name (mkDb (users d ++ [u]) n) = Some u.
Proof.
  unfold find_by_name. cbn. intros Hf Hu. induction (users d) as [|x xs IH]; cbn in *.
  - by rewrite Hu, String.eqb_refl.
  - destruct (String.eqb (username x) name); [done | by apply IH].
Qed.

(** A body that passes validation with a taken username gets the 400
    "Username already exists" and leaves the collection unchanged. *)
Lemma register_taken body name pw d u :
  valid_body body = Some (name, pw) -> find_by_name name d = Some u ->
  register body d = (error_reply 400 "Username already exists", d).
Proof. intros Hb Hf. unfold register. by rewrite Hb, Hf. Qed.

Lemma register_fresh body name pw hash d :
  valid_body body = Some (name, pw) -> find_by_name name d = None -> bcrypt_hash pw = Ok hash ->
  (register body d).2 = mkDb (users d ++ [mkUser (oid_of_nat (next_oid d)) name hash]) (S (next_oid d)).
Proof. intros Hb Hf Hh. unfold register. by rewrite Hb, Hf, Hh. Qed.

(** Sequential registrations keep usernames unique. *)
Lemma register_names_unique body d :
  names_unique d -> names_unique (register body d).2.
Proof.
  unfold register, names_unique. intros Hu.
  destruct (valid_body body) as [[name pw]|]; [|done].
  destruct (find_by_name name d) eqn:Hf; [done|].
  destruct (bcrypt_hash pw); [|done]. cbn. rewrite map_app. cbn.
  apply NoDup_app. split; [done|]. split; [|apply NoDup_singleton].
  intros x Hx ->%list_elem_of_singleton. by apply (find_by_name_None name d).
Qed.

(** C20: [POST /] twice with the same body: the first call creates the user
    (201), the second is refused with 400 "Username already exists" and
    creates no second record. *)
Theorem register_twice body name pw hash d :
  valid_body body = Some (name, pw) -> find_by_name name d = None -> bcrypt_hash pw = Ok hash ->
  let '(r1, d1) := register body d in
  let '(r2, d2) := register body d1 in
  status r1 = 201%Z /\ r2 = error_reply 400 "Username already exists" /\ d2 = d1 /\
  List.length (users d1) = S (List.length (users d)).
Proof.
  intros Hb Hf Hh. unfold register at 1. rewrite Hb, Hf, Hh. unfold create.
  rewrite (register_taken body name pw _ (mkUser (oid_of_nat (next_oid d)) name hash) Hb)
    by (by apply find_by_name_snoc).
  cbn [status reply users]. rewrite length_app. cbn [List.length]. repeat split; lia.
Qed.

(** [GET /:id] with an id that is no ObjectId answers 500 (the
    [CastError] mongoose throws is caught by the handler). *)
Lemma get_by_id_cast_error id d :
  is_object_id id = false -> status (get_by_id id d) = 500%Z.
Proof. intros H. unfold get_by_id, find_by_id. by rewrite H. Qed.
End Handlers.

(** ** Runs on a concrete collection *)

Definition hash_of (pw : string) : res string := Ok ("h:" ++ pw).
Definition token_of (id : string) : string := "tok:" ++ id.

Definition bob : user := mkUser (oid_of_nat 0) "bob" "h:pw".
Definition db1 : db := mkDb [bob] 1.
Definition ann_body : jsval := JObj [("username", JStr "ann"); ("password", JStr "pw")].

Lemma register_names_unique_witness : names_unique (register hash_of token_of ann_body db1).2.
Proof. apply register_names_unique. constructor; [set_solver | constructor]. Defined.

Lemma register_twice_witness :
  let '(r1, d1) := register hash_of token_of ann_body db1 in
  let '(r2, d2) := register hash_of token_of ann_body d1 in
  status r1 = 201%Z /\ r2 = error_reply 400 "Username already exists" /\ d2 = d1 /\
  List.length (users d1) = S (List.length (users db1)).
Proof. apply (register_twice hash_of token_of ann_body "ann" "pw" "h:pw"); reflexivity. Defined.


End UserBackend.
