(* ===== verification/Backends.v ===== *)
(** The product and order services.  Their Express apps are not under src/
    (only their Kafka clients are), so they are modelled from the REST
    contract of the specification (section 6): [GET /] lists the collection,
    [GET /:id] returns one document or 404 [{ error }], [POST /] creates a
    document.  Both are one generic collection service, parameterised by how
    a [POST] body becomes a document. *)

From S2P Require Import Prelude Js Http.
Local Open Scope string_scope.

Module Rest.

(** A collection of JSON documents with their ids, and an id counter. *)
Record db : Type := mkDb {
  docs : list (string * jsval);
  next_id : nat
}.

Definition doc_id (n : nat) : string := "id" ++ string_of_Z (Z.of_nat n).

Definition with_id (id : string) (doc : jsval) : jsval :=
  match doc with
  | JObj fs => JObj (("_id", JStr id) :: fs)
  | _ => JObj [("_id", JStr id)]
  end.

Definition error_reply (st : Z) (msg : string) : response :=
  mkResponse st (JObj [("error", JStr msg)]).

Section Service.
(** How the service builds a document from a [POST] (an error message
    for a body or header it refuses). *)
Variable build : request -> res jsval.

Definition lookup_doc (id : string) (d : db) : option jsval :=
  match List.find (fun p => String.eqb p.1 id) (docs d) with
  | Some (_, v) => Some v
  | None => None
  end.

Definition handle (req : request) (d : db) : response * db :=
  match req_method req, req_path req with
  | GET, "/" => (mkResponse 200 (envelope (JArr (map snd (docs d)))), d)
  | GET, String "/" id =>
      match lookup_doc id d with
      | Some v => (mkResponse 200 (envelope v), d)
      | None => (error_reply 404 "Not found", d)
      end
  | POST, "/" =>
      match build req with
      | Throw e => (error_reply 400 e, d)
      | Ok doc =>
          let id := doc_id (next_id d) in
          let v := with_id id doc in
          (mkResponse 201 (envelope v), mkDb (docs d ++ [(id, v)]) (S (next_id d)))
      end
  | _, _ => (error_reply 404 "Not found", d)
  end.

(** Reads leave the collection unchanged. *)
Lemma handle_get_db req d : req_method req = GET -> (handle req d).2 = d.
Proof.
  unfold handle. intros ->. destruct (req_path req) as [|c [|c' id]]; try done.
  all: try (destruct (lookup_doc _ d); done).
  all: repeat (match goal with |- context [match ?c with Ascii.Ascii _ _ _ _ _ _ _ _ => _ end] =>
                destruct c as [[] [] [] [] [] [] [] []] end); try done;
       try (destruct (lookup_doc _ d); done).
Qed.
End Service.

(** The product service stores the [input] of a [createProduct] body. *)
Definition build_product (req : request) : res jsval :=
  match prop (req_body req) "input" with
  | Ok (JObj fs) => Ok (JObj fs)
  | _ => Throw "Invalid product"
  end.

(** The order service takes its owner from the [x-user-id] header the
    gateway sets, and the products from the body. *)
Definition build_order (req : request) : res jsval :=
  match List.find (fun h => String.eqb h.1 "x-user-id") (req_headers req) with
  | Some (_, uid) =>
      match prop (req_body req) "products" with
      | Ok ps => Ok (JObj [("userId", JStr uid); ("products", ps)])
      | Throw e => Throw e
      end
  | None => Throw "Unauthorized"
  end.

End Rest.
