(* ===== verification/Kafka.v ===== *)
(** The kafkajs consumer of the gateway (library/kafka.ts, used by index.ts)
    and the broker it talks to.  The consumer goes
    Disconnected -> Connected -> Subscribed -> Running; the broker accepts a
    subscription only to a legal topic name and delivers a message to a
    running consumer only when it is subscribed to the message's topic. *)

From S2P Require Import Prelude Js.
Local Open Scope string_scope.

Module Kafka.

(** [accepts] is the broker's answer to a subscription request for a
    topic name; the connection state is the client's. *)
Record consumer : Type := mkConsumer {
  accepts : string -> bool;
  connected : bool;
  subscriptions : list string;
  running : bool
}.

(** A message as [eachMessage] receives it. *)
Record message : Type := mkMessage {
  topic : string;
  partition : Z;
  offset : Z;
  value : string
}.

(** Kafka's topic names: 1 to 249 characters among [a-zA-Z0-9._-]. *)
Definition legal_topic_char (c : ascii) : bool :=
  let n := nat_of_ascii c in
  (Nat.leb 48 n && Nat.leb n 57) || (Nat.leb 65 n && Nat.leb n 90) ||
  (Nat.leb 97 n && Nat.leb n 122) || Nat.eqb n 46 || Nat.eqb n 95 || Nat.eqb n 45.

Definition valid_topic (t : string) : bool :=
  Nat.ltb 0 (String.length t) && Nat.leb (String.length t) 249 &&
  forallb legal_topic_char (list_ascii_of_string t).

(** A fresh consumer of a broker that checks topic names as Kafka does. *)
Definition consumer0 : consumer := mkConsumer valid_topic false [] false.

Definition invalid_topic_msg : string :=
  "The request attempted to perform an operation on an invalid topic".

(** [consumer.connect()] *)
Definition connect : M consumer unit := fun c =>
  (Ok tt, mkConsumer (accepts c) true (subscriptions c) (running c)).

(** [consumer.subscribe({ topic })]: the metadata request for the topic
    fails on a name the broker refuses. *)
Definition subscribe (t : string) : M consumer unit := fun c =>
  if negb (connected c) then (Throw "The consumer is not connected", c)
  else if accepts c t then (Ok tt, mkConsumer (accepts c) true (subscriptions c ++ [t]) (running c))
  else (Throw invalid_topic_msg, c).

(** [consumer.run({ eachMessage })]: start the fetch loop. *)
Definition run : M consumer unit := fun c =>
  if negb (connected c) then (Throw "The consumer is not connected", c)
  else (Ok tt, mkConsumer (accepts c) true (subscriptions c) true).

(** [consumer.disconnect()] *)
Definition disconnect : M consumer unit := fun c =>
  (Ok tt, mkConsumer (accepts c) false (subscriptions c) false).

(** The broker hands [m] to the consumer's [eachMessage]. *)
Definition receives (c : consumer) (m : message) : bool :=
  running c && bool_decide (topic m ∈ subscriptions c).

Lemma subscribe_refused c t :
  accepts c t = false ->
  subscribe t c = (if connected c then Throw invalid_topic_msg else Throw "The consumer is not connected", c).
Proof. unfold subscribe. intros ->. by destruct (connected c). Qed.

Lemma receives_subscribed c m : receives c m = true -> topic m ∈ subscriptions c.
Proof. unfold receives. intros [_ H]%andb_prop. by apply bool_decide_eq_true in H. Qed.


(** ** The consumer's lifecycle as a step relation *)

Inductive cstep : consumer -> consumer -> Prop :=
| cstep_connect c : cstep c (connect c).2
| cstep_subscribe c t : cstep c (subscribe t c).2
| cstep_run c : cstep c (run c).2
| cstep_disconnect c : cstep c (disconnect c).2.

(** What holds of every consumer the operations can reach: the broker is
    the same, a running consumer is connected, and every subscription is
    one the broker accepted. *)
Definition consumer_inv (acc : string -> bool) (c : consumer) : Prop :=
  accepts c = acc /\ (running c = true -> connected c = true) /\
  Forall (fun t => acc t = true) (subscriptions c).

Lemma cstep_inv acc c c' : cstep c c' -> consumer_inv acc c -> consumer_inv acc c'.
Proof.
  intros Hs Hinv. pose proof Hinv as (Ha & Hr & Hf).
  destruct Hs as [c|c t|c|c]; unfold connect, subscribe, run, disconnect.
  - split_and!; cbn; auto.
  - destruct (negb (connected c)); [exact Hinv|].
    destruct (accepts c t) eqn:Ht; [|exact Hinv].
    split_and!; cbn; auto. apply Forall_app. split; [done|]. repeat constructor. by rewrite <- Ha.
  - destruct (negb (connected c)); [exact Hinv|]. split_and!; cbn; auto.
  - split_and!; cbn; auto.
Qed.

(** Every consumer reachable from a fresh one satisfies the invariant; in
    particular it is subscribed only to topics the broker accepts. *)
Theorem reachable_consumer_inv acc c :
  rtc cstep (mkConsumer acc false [] false) c -> consumer_inv acc c.
Proof.
  intros Hr. assert (Hi : consumer_inv acc (mkConsumer acc false [] false))
    by (split; [done | split; [done | constructor]]).
  revert Hi. induction Hr as [|c1 c2 c3 Hs _ IH]; [done|].
  intros Hi. apply IH. by eapply cstep_inv.
Qed.
End Kafka.

(** A fresh consumer that connects, subscribes to [orders] and runs. *)
Lemma reachable_consumer_inv_witness :
  Kafka.consumer_inv Kafka.valid_topic (Kafka.mkConsumer Kafka.valid_topic true ["orders"] true).
Proof.
  apply (Kafka.reachable_consumer_inv Kafka.valid_topic).
  eapply rtc_l; [apply Kafka.cstep_connect|].
  eapply rtc_l; [apply (Kafka.cstep_subscribe _ "orders")|].
  eapply rtc_l; [apply Kafka.cstep_run|]. apply rtc_refl.
Defined.
