(* ===== verification/World.v ===== *)
(** The state of the whole system as the gateway sees it: the process
    environment ([process.env] and the libraries configured from it), the
    shared Redis client, the Kafka consumer, the three backend services,
    the log of requests sent to them, and the process's own status.  The
    lenses give each component its part; the [Transport] instance routes a
    request to the service it names. *)

From S2P Require Import Prelude Js Redis Http UserBackend Backends Kafka.
Local Open Scope string_scope.

(** [process.env] and the library functions the handlers call. *)
Record env : Type := mkEnv {
  PRODUCT_SERVICE_API_KEY : option string;
  JWT_SECRET : option string;
  (** [jsonwebtoken.verify(token, secret)]: the payload, or the error thrown *)
  jwt_verify : string -> string -> res jsval;
  (** [bcrypt.hash(password, 10, cb)] in the user service *)
  bcrypt_hash : string -> res string;
  (** [signJWT(id)] in the user service *)
  sign_jwt : string -> string
}.

Record World : Type := mkWorld {
  w_env : env;
  w_redis : Redis.t;
  w_consumer : Kafka.consumer;
  w_users : UserBackend.db;
  w_products : Rest.db;
  w_orders : Rest.db;
  w_log : reqlog;
  w_listening : bool;
  w_exit : option Z
}.

Definition set_redis (r : Redis.t) (w : World) : World :=
  mkWorld (w_env w) r (w_consumer w) (w_users w) (w_products w) (w_orders w) (w_log w)
          (w_listening w) (w_exit w).
Definition set_consumer (c : Kafka.consumer) (w : World) : World :=
  mkWorld (w_env w) (w_redis w) c (w_users w) (w_products w) (w_orders w) (w_log w)
          (w_listening w) (w_exit w).
Definition set_log (l : reqlog) (w : World) : World :=
  mkWorld (w_env w) (w_redis w) (w_consumer w) (w_users w) (w_products w) (w_orders w) l
          (w_listening w) (w_exit w).
Definition set_users (d : UserBackend.db) (w : World) : World :=
  mkWorld (w_env w) (w_redis w) (w_consumer w) d (w_products w) (w_orders w) (w_log w)
          (w_listening w) (w_exit w).
Definition set_products (d : Rest.db) (w : World) : World :=
  mkWorld (w_env w) (w_redis w) (w_consumer w) (w_users w) d (w_orders w) (w_log w)
          (w_listening w) (w_exit w).
Definition set_orders (d : Rest.db) (w : World) : World :=
  mkWorld (w_env w) (w_redis w) (w_consumer w) (w_users w) (w_products w) d (w_log w)
          (w_listening w) (w_exit w).

Definition set_listening (b : bool) (w : World) : World :=
  mkWorld (w_env w) (w_redis w) (w_consumer w) (w_users w) (w_products w) (w_orders w) (w_log w)
          b (w_exit w).
Definition set_exit (code : Z) (w : World) : World :=
  mkWorld (w_env w) (w_redis w) (w_consumer w) (w_users w) (w_products w) (w_orders w) (w_log w)
          (w_listening w) (Some code).

#[export] Instance world_redis : Lens World Redis.t := { view := w_redis; update := set_redis }.
#[export] Instance world_consumer : Lens World Kafka.consumer :=
  { view := w_consumer; update := set_consumer }.
#[export] Instance world_log : Lens World reqlog := { view := w_log; update := set_log }.

#[export] Instance world_redis_laws : LensLaws World Redis.t.
Proof. split; by intros []. Qed.
#[export] Instance world_consumer_laws : LensLaws World Kafka.consumer.
Proof. split; by intros []. Qed.
#[export] Instance world_log_laws : LensLaws World reqlog.
Proof. split; by intros []. Qed.

(** The three services behind their base URLs. *)
Definition serve_world (svc : service) (req : request) (w : World) : option response * World :=
  match svc with
  | UserSvc =>
      let '(r, d) := UserBackend.handle (bcrypt_hash (w_env w)) (sign_jwt (w_env w)) req (w_users w) in
      (Some r, set_users d w)
  | ProductSvc => let '(r, d) := Rest.handle Rest.build_product req (w_products w) in (Some r, set_products d w)
  | OrderSvc => let '(r, d) := Rest.handle Rest.build_order req (w_orders w) in (Some r, set_orders d w)
  end.

#[export] Instance world_transport : Transport World := { serve := serve_world }.

(** Backends never touch the gateway's request log or its Redis client. *)
Lemma serve_world_log svc req w : w_log (serve_world svc req w).2 = w_log w.
Proof.
  destruct svc; cbn; repeat match goal with |- context [let '(_, _) := ?e in _] => destruct e end; done.
Qed.

Lemma serve_world_redis svc req w : w_redis (serve_world svc req w).2 = w_redis w.
Proof.
  destruct svc; cbn; repeat match goal with |- context [let '(_, _) := ?e in _] => destruct e end; done.
Qed.

Lemma world_log_preserving : @log_preserving World _ _.
Proof. intros svc req w. apply serve_world_log. Qed.

(** The product service answers a [GET] from its collection, unchanged. *)
Lemma product_get_answers w path v :
  fst (Rest.handle Rest.build_product (mkRequest GET path JUndefined []) (w_products w))
    = mkResponse 200 (envelope v) ->
  answers w ProductSvc (mkRequest GET path JUndefined []) v.
Proof.
  intros H l. pose proof (Rest.handle_get_db Rest.build_product (mkRequest GET path JUndefined [])
                           (w_products w) eq_refl) as Hd.
  cbn [serve world_transport serve_world].
  change (w_products (update l w)) with (w_products w).
  destruct (Rest.handle Rest.build_product _ (w_products w)) as [r d] eqn:E.
  cbn [fst snd] in H, Hd. subst. by destruct w.
Qed.

#[export] Hint Resolve world_log_preserving : gw.

#[export] Instance world_redis_log : LensDisjoint World Redis.t reqlog.
Proof. split; by intros ? []. Qed.
#[export] Instance world_consumer_redis : LensDisjoint World Kafka.consumer Redis.t.
Proof. split; by intros ? []. Qed.
#[export] Instance world_consumer_log : LensDisjoint World Kafka.consumer reqlog.
Proof. split; by intros ? []. Qed.
