(* ===== verification/ProductService.v ===== *)
(** The product resolvers of the gateway (gateway/src/services/product-service.ts):
    [getAll] and [getById] read through the Redis cache (cache-aside: a hit
    returns the parsed entry, anything else falls back to the product
    service and writes its answer to the cache), and [post] checks the
    [x-api-key] header before forwarding [createProduct].  The resolvers are
    written against an interface: any state with a Redis client, a request
    log that does not overlap it, and a transport that leaves the cache
    alone. *)

From S2P Require Import Prelude Js Redis Http UserBackend Backends Kafka World.
Local Open Scope string_scope.

(** ** The state the resolvers share: the Redis client and the request log *)

Section State.
Context {S : Type} `{LR : Lens S Redis.t} `{LL : Lens S reqlog}.

Definition redis_of (s : S) : Redis.t := @view S Redis.t LR s.
Definition cache_of (s : S) : gmap string string := Redis.store (redis_of s).
Definition log_of (s : S) : reqlog := @view S reqlog LL s.

(** ** The commands on the shared client, seen from the whole state *)

Context `{!LensLaws S Redis.t} `{!LensLaws S reqlog} `{!LensDisjoint S Redis.t reqlog}.

Lemma zoom_get_open k s :
  Redis.is_open (redis_of s) = true -> zoom (Redis.get k) s = (Ok (cache_of s !! k), s).
Proof. intros Ho. rewrite zoom_run. unfold cache_of, redis_of in *. rewrite Redis.get_open by done. cbn. by rewrite update_view. Qed.

Lemma zoom_get_closed k s :
  Redis.is_open (redis_of s) = false -> zoom (Redis.get k) s = (Throw Redis.closed_msg, s).
Proof.
  intros Hc. rewrite zoom_run. unfold redis_of in *.
  destruct (Redis.closed_throws (view s) k "" Hc) as (-> & _). cbn. by rewrite update_view.
Qed.

Lemma zoom_set_closed k v s :
  Redis.is_open (redis_of s) = false -> zoom (Redis.set k v) s = (Throw Redis.closed_msg, s).
Proof.
  intros Hc. rewrite zoom_run. unfold redis_of in *.
  destruct (Redis.closed_throws (view s) k v Hc) as (_ & -> & _). cbn. by rewrite update_view.
Qed.

(** The state after [SET k v] on an open client. *)
Definition set_state (k v : string) (s : S) : S :=
  @update S Redis.t LR (Redis.mk true (<[k := v]> (cache_of s))) s.

Lemma zoom_set_open k v s :
  Redis.is_open (redis_of s) = true -> zoom (Redis.set k v) s = (Ok tt, set_state k v s).
Proof. intros Ho. rewrite zoom_run. unfold redis_of in *. by rewrite Redis.set_open. Qed.

Lemma set_state_cache k v s : cache_of (set_state k v s) = <[k := v]> (cache_of s).
Proof. unfold cache_of, redis_of, set_state. by rewrite view_update. Qed.

Lemma set_state_open k v s : Redis.is_open (redis_of (set_state k v s)) = true.
Proof. unfold redis_of, set_state. by rewrite view_update. Qed.

Lemma set_state_log k v s : log_of (set_state k v s) = log_of s.
Proof. unfold log_of, set_state. apply view_update_l. Qed.

(** The state after logging one request. *)
Definition log_state (e : service * request) (s : S) : S :=
  @update S reqlog LL (log_of s ++ [e])%list s.

Lemma log_state_redis e s : redis_of (log_state e s) = redis_of s.
Proof. unfold redis_of, log_state. apply view_update_r. Qed.

Lemma log_state_log e s : log_of (log_state e s) = (log_of s ++ [e])%list.
Proof. unfold log_of, log_state. apply view_update. Qed.
End State.

(** The object [ProductService] of product-service.ts. *)
Module ProductService.
Section Resolvers.
Context {S : Type} `{LR : Lens S Redis.t} `{LL : Lens S reqlog} `{Transport S}.
(** [process.env.PRODUCT_SERVICE_API_KEY] *)
Variable api_key_of : S -> option string.

(** The listing key and the key of one product. *)
Definition all_key : string := "products/".
Definition id_key (id : jsval) : string := "products/" ++ to_template id.

(** [const cached = await cacheClient.get(key);
     if (!cached) throw Error("Cache not found");
     return JSON.parse(cached);] *)
Definition read_cached (key : string) : M S jsval :=
  cached ← zoom (Redis.get key);
  match cached with
  | None => throw "Cache not found"
  | Some c =>
      if String.eqb c "" then throw "Cache not found"
      else match json_parse c with
           | Some v => mret v
           | None => throw "Unexpected token in JSON"
           end
  end.

(** [await cacheClient.set(key, JSON.stringify(data))]: node-redis
    refuses the [undefined] that [JSON.stringify(undefined)] gives when it
    encodes the command, after a closed client has already rejected it. *)
Definition write_cache (key : string) (data : jsval) : M S unit :=
  match stringify data with
  | Some str => zoom (Redis.set key str)
  | None => fun s =>
      (Throw (if Redis.is_open (view s) then "Invalid argument type" else Redis.closed_msg), s)
  end.

(** The [catch] block: fetch, fill the cache, return what was fetched. *)
Definition fill (key path : string) : M S jsval :=
  data ← get_result ProductSvc path;
  write_cache key data;;
  mret data.

(** [ProductService.getAll()] *)
Definition getAll : M S jsval :=
  try_catch (read_cached all_key) (fun _ => fill all_key "/").

(** [ProductService.getById(id)]: [id] is whatever the caller passes, put
    in the key and the path by a template literal. *)
Definition getById (id : jsval) : M S jsval :=
  try_catch (read_cached (id_key id)) (fun _ => fill (id_key id) ("/" ++ to_template id)).

(** [ProductService.post({ input }, context)] *)
Definition post (args : jsval) (ctx : context) : M S jsval :=
  input ← lift_res (prop args "input");
  key ← gets api_key_of;
  if bool_decide (header ctx "x-api-key" = key)
  then post_result ProductSvc "/" (JObj [("input", input)]) []
  else throw "Invalid API Key".
End Resolvers.
End ProductService.
Import ProductService.

#[export] Hint Rewrite @set_state_cache @set_state_open @set_state_log
  @log_state_redis @log_state_log : gw_rw.

(** What a cache entry yields when read: a value when it is present,
    non-empty and parses; nothing otherwise. *)
Definition cache_hit (o : option string) : option jsval :=
  match o with
  | Some c => if String.eqb c "" then None else json_parse c
  | None => None
  end.

Section CacheAside.
Context {S : Type} `{LR : Lens S Redis.t} `{LL : Lens S reqlog} `{Transport S}.
Context `{!LensLaws S Redis.t} `{!LensLaws S reqlog} `{!LensDisjoint S Redis.t reqlog}.
Variable api_key_of : S -> option string.

(** ** Reading the cache *)

Lemma read_cached_state key s : (read_cached key s).2 = s.
Proof.
  unfold read_cached. destruct (Redis.is_open (redis_of s)) eqn:Ho.
  - erewrite bind_ok by (by apply zoom_get_open).
    destruct (cache_of s !! key) as [c|]; [|done].
    destruct (String.eqb c ""); [done|]. by destruct (json_parse c).
  - by erewrite bind_throw by (by apply zoom_get_closed).
Qed.

Lemma read_cached_hit key s v :
  Redis.is_open (redis_of s) = true -> cache_hit (cache_of s !! key) = Some v ->
  read_cached key s = (Ok v, s).
Proof.
  intros Ho Hh. unfold read_cached. erewrite bind_ok by (by apply zoom_get_open).
  destruct (cache_of s !! key) as [c|]; [|done]. cbn in Hh.
  destruct (String.eqb c ""); [done|]. by rewrite Hh.
Qed.

(** Anything but a hit is thrown, whether the cache is up or down. *)
Lemma read_cached_nohit key s :
  (Redis.is_open (redis_of s) = true -> cache_hit (cache_of s !! key) = None) ->
  exists e, read_cached key s = (Throw e, s).
Proof.
  intros Hh. pose proof (read_cached_state key s) as Hs.
  destruct (read_cached key s) as [[v|e] s'] eqn:E; cbn in Hs; subst s'; [|by eexists].
  exfalso. destruct (Redis.is_open (redis_of s)) eqn:Ho.
  - specialize (Hh eq_refl). unfold read_cached in E.
    rewrite (bind_ok _ _ _ _ _ (zoom_get_open key s Ho)) in E.
    destruct (cache_of s !! key) as [c|]; [|done]. cbn in Hh.
    destruct (String.eqb c ""); [done|]. by rewrite Hh in E.
  - unfold read_cached in E. by rewrite (bind_throw _ _ _ _ _ (zoom_get_closed key s Ho)) in E.
Qed.

(** ** Filling the cache *)

Definition get_req (path : string) : request := mkRequest GET path JUndefined [].

Lemma fill_ok key path s d t :
  Redis.is_open (redis_of s) = true -> answers s ProductSvc (get_req path) d -> stringify d = Some t ->
  fill key path s = (Ok d, set_state key t (log_state (ProductSvc, get_req path) s)).
Proof.
  intros Ho Ha Ht. unfold fill. erewrite bind_ok by (by apply get_result_ok).
  erewrite bind_ok; [reflexivity|]. unfold write_cache. rewrite Ht.
  apply zoom_set_open. by rewrite log_state_redis.
Qed.

(** With the cache down, the fetch succeeds but the [await cacheClient.set]
    rejects, and the read fails with it. *)
Lemma fill_closed key path s d t :
  Redis.is_open (redis_of s) = false -> answers s ProductSvc (get_req path) d -> stringify d = Some t ->
  fill key path s = (Throw Redis.closed_msg, log_state (ProductSvc, get_req path) s).
Proof.
  intros Hc Ha Ht. unfold fill. erewrite bind_ok by (by apply get_result_ok).
  erewrite bind_throw; [reflexivity|]. unfold write_cache. rewrite Ht.
  apply zoom_set_closed. by rewrite log_state_redis.
Qed.

(** ** The resolvers *)

(** A miss (no entry, an empty one, or one that does not parse) calls
    the product service once and stores its answer under the key. *)
Lemma cache_aside_miss key path s d t :
  Redis.is_open (redis_of s) = true -> cache_hit (cache_of s !! key) = None ->
  answers s ProductSvc (get_req path) d -> stringify d = Some t ->
  try_catch (read_cached key) (fun _ => fill key path) s
  = (Ok d, set_state key t (log_state (ProductSvc, get_req path) s)).
Proof.
  intros Ho Hh Ha Ht. destruct (read_cached_nohit key s) as [e He]; [done|].
  erewrite try_throw by exact He. by apply fill_ok.
Qed.

Lemma cache_aside_hit key path s v :
  Redis.is_open (redis_of s) = true -> cache_hit (cache_of s !! key) = Some v ->
  try_catch (read_cached key) (fun _ => fill key path) s = (Ok v, s).
Proof. intros Ho Hh. erewrite try_ok by (by apply read_cached_hit). done. Qed.

(** The entry a fill writes is a hit for the value fetched, normalised as
    JSON normalises it. *)
Lemma cache_hit_stringify d t : stringify d = Some t -> cache_hit (Some t) = Some (json_norm d).
Proof.
  intros Ht. assert (t = ser d /\ d <> JUndefined) as [-> Hd]
    by (destruct d; unfold stringify in Ht; split; congruence).
  destruct (ser_head d) as (c & s' & Hs & _). unfold cache_hit. rewrite Hs. cbn [String.eqb].
  rewrite <- Hs. by apply parse_ser_norm.
Qed.

(** ** Properties of the resolvers *)

(** C12: Cold cache then warm cache: the first [getById(id)] calls the product
    service exactly once and stores its answer under [products/{id}]; the
    second calls nothing, changes nothing, and returns the same value. *)
Theorem getById_cold_then_warm id s d :
  Redis.is_open (redis_of s) = true -> cache_of s !! id_key id = None ->
  answers s ProductSvc (get_req ("/" ++ to_template id)) d -> json_value d = true ->
  let '(r1, s1) := getById id s in
  let '(r2, s2) := getById id s1 in
  r1 = Ok d /\ r2 = Ok d /\ s2 = s1 /\
  log_of s1 = (log_of s ++ [(ProductSvc, get_req ("/" ++ to_template id))])%list /\
  cache_of s1 !! id_key id = stringify d.
Proof.
  intros Ho Hn Ha Hv. assert (Ht : stringify d = Some (ser d)) by (by destruct d).
  unfold getById. rewrite (cache_aside_miss _ _ s d (ser d) Ho) by (by rewrite Hn || done).
  rewrite (cache_aside_hit _ _ _ d) by
    (gw_rewrite; rewrite ?lookup_insert_eq; done ||
     (erewrite cache_hit_stringify by done; by rewrite json_norm_id)).
  gw_rewrite. rewrite lookup_insert_eq, Ht. done.
Qed.

(** Coherence of the listing entry with the product service's answer [d]:
    absent, or the serialization of [d]. *)
Definition coherent (key : string) (d : jsval) (s : S) : Prop :=
  forall t, cache_of s !! key = Some t -> t = ser d.

(** C13: Refinement: with the listing entry coherent, [getAll] returns exactly
    what a direct read of the product service returns, calls it at most
    once, and leaves the entry coherent. *)
Theorem getAll_refines_backend s d :
  Redis.is_open (redis_of s) = true -> answers s ProductSvc (get_req "/") d -> json_value d = true ->
  coherent all_key d s ->
  (getAll s).1 = (get_result ProductSvc "/" s).1 /\ coherent all_key d (getAll s).2 /\
  (log_of (getAll s).2 = log_of s \/
   log_of (getAll s).2 = (log_of s ++ [(ProductSvc, get_req "/")])%list).
Proof.
  intros Ho Ha Hv Hc. rewrite (get_result_ok _ _ _ d Ha).
  assert (stringify d = Some (ser d)) as Ht by (destruct d; done).
  unfold getAll. destruct (cache_of s !! all_key) as [t|] eqn:E.
  - rewrite (Hc t E) in E. rewrite (cache_aside_hit _ _ _ d Ho)
      by (rewrite E; erewrite cache_hit_stringify by done; by rewrite json_norm_id).
    cbn. split; [done|]. split; [|by left]. intros t'. rewrite E. congruence.
  - rewrite (cache_aside_miss _ _ s d (ser d) Ho) by (by rewrite E || done). cbn.
    split; [done|]. split; [|right; by gw_rewrite].
    intros t'. gw_rewrite. rewrite lookup_insert_eq. congruence.
Qed.

(** C29: Cache down: the read misses, the product service is called and
    answers, and then [await cacheClient.set] rejects, so [getAll] fails
    instead of falling back to the backend's answer. *)
Theorem getAll_cache_down s d t :
  Redis.is_open (redis_of s) = false -> answers s ProductSvc (get_req "/") d -> stringify d = Some t ->
  getAll s = (Throw Redis.closed_msg, log_state (ProductSvc, get_req "/") s).
Proof.
  intros Hc Ha Ht. destruct (read_cached_nohit all_key s) as [e He]; [by rewrite Hc|].
  unfold getAll. erewrite try_throw by exact He. by apply (fill_closed _ _ _ d t).
Qed.

(** C17: A miss on which the product service answers outside 2xx (a product
    that does not exist answers 404): the error is surfaced and the cache
    is not written. *)
Theorem getById_backend_error id s rsp s' :
  (forall x, redis_of (serve ProductSvc (get_req ("/" ++ to_template id)) x).2 = redis_of x) ->
  (Redis.is_open (redis_of s) = true -> cache_hit (cache_of s !! id_key id) = None) ->
  serve ProductSvc (get_req ("/" ++ to_template id))
    (log_state (ProductSvc, get_req ("/" ++ to_template id)) s) = (Some rsp, s') ->
  ok_status (status rsp) = false ->
  getById id s = (Throw (status_msg (status rsp)), s') /\ cache_of s' = cache_of s.
Proof.
  intros Hr Hh Hs Hst. split.
  - destruct (read_cached_nohit (id_key id) s Hh) as [e He].
    unfold getById. erewrite try_throw by exact He. unfold fill, get_result, http_get.
    rewrite (bind_throw _ _ _ _ _ (bind_throw _ _ _ _ _ (send_status_error _ _ _ _ _ Hs Hst))).
    reflexivity.
  - pose proof (Hr (log_state (ProductSvc, get_req ("/" ++ to_template id)) s)) as E.
    rewrite Hs in E. cbn [snd] in E. unfold cache_of. by rewrite E, log_state_redis.
Qed.

(** ** createProduct *)

Definition post_req (input : jsval) : request := mkRequest POST "/" (JObj [("input", input)]) [].

(** C27: A key that differs from [PRODUCT_SERVICE_API_KEY] is refused before
    any request is sent. *)
Theorem post_rejects_bad_key args ctx s input :
  prop args "input" = Ok input -> header ctx "x-api-key" <> api_key_of s ->
  post api_key_of args ctx s = (Throw "Invalid API Key", s).
Proof.
  intros Hi Hk. unfold post. rewrite Hi. cbn. unfold gets, mbind, M_bind, mret, M_ret.
  by rewrite bool_decide_eq_false_2.
Qed.

Lemma post_key_ok args ctx s input :
  prop args "input" = Ok input -> header ctx "x-api-key" = api_key_of s ->
  post api_key_of args ctx s = post_result ProductSvc "/" (JObj [("input", input)]) [] s.
Proof.
  intros Hi Hk. unfold post. rewrite Hi. cbn. unfold gets, mbind, M_bind, mret, M_ret.
  by rewrite bool_decide_eq_true_2.
Qed.

(** The matching key forwards exactly one [POST /] with body [{ input }]
    and returns the [result] of the service's 2xx answer. *)
Theorem post_forwards args ctx s input rsp s' r :
  prop args "input" = Ok input -> header ctx "x-api-key" = api_key_of s ->
  serve ProductSvc (post_req input) (log_state (ProductSvc, post_req input) s) = (Some rsp, s') ->
  ok_status (status rsp) = true -> prop (data rsp) "result" = Ok r ->
  post api_key_of args ctx s = (Ok r, s').
Proof.
  intros Hi Hk Hs Hst Hr. rewrite (post_key_ok _ _ _ input) by done.
  by apply (post_result_served _ _ _ _ _ rsp).
Qed.

(** C28: With [PRODUCT_SERVICE_API_KEY] unset, a request that carries no
    [x-api-key] passes the check ([undefined !== undefined] is false) and
    the product is created: the guard fails open. *)
Theorem post_accepts_missing_key args ctx s input rsp s' r :
  prop args "input" = Ok input -> api_key_of s = None -> header ctx "x-api-key" = None ->
  serve ProductSvc (post_req input) (log_state (ProductSvc, post_req input) s) = (Some rsp, s') ->
  ok_status (status rsp) = true -> prop (data rsp) "result" = Ok r ->
  post api_key_of args ctx s = (Ok r, s').
Proof.
  intros Hi Hk Hh Hs Hst Hr. rewrite (post_key_ok _ _ _ input) by (done || by rewrite Hk, Hh).
  by apply (post_result_served _ _ _ _ _ rsp).
Qed.
End CacheAside.

(** ** Runs on a concrete system *)

Definition env0 (key : option string) : env :=
  mkEnv key (Some "s3cret") (fun _ _ => Throw "invalid signature") (fun p => Ok ("h:" ++ p))
        (fun id => "tok:" ++ id).

Definition pen : jsval :=
  JObj [("_id", JStr "id0"); ("name", JStr "pen"); ("price", JNum 3); ("quantity", JNum 10)].

(** An open cache with [entries], the product service holding [pen]. *)
Definition world0 (key : option string) (entries : gmap string string) : World :=
  mkWorld (env0 key) (Redis.mk true entries) Kafka.consumer0 (UserBackend.mkDb [] 0)
          (Rest.mkDb [("id0", pen)] 1) (Rest.mkDb [] 0) [] false None.

Definition api_key (w : World) : option string := PRODUCT_SERVICE_API_KEY (w_env w).

Lemma getById_cold_then_warm_witness :
  let '(r1, s1) := getById (JStr "id0") (world0 None ∅) in
  let '(r2, s2) := getById (JStr "id0") s1 in
  r1 = Ok pen /\ r2 = Ok pen /\ s2 = s1 /\
  log_of s1 = (log_of (world0 None ∅) ++ [(ProductSvc, get_req ("/" ++ to_template (JStr "id0")))])%list /\
  cache_of s1 !! id_key (JStr "id0") = stringify pen.
Proof.
  exact (getById_cold_then_warm (JStr "id0") (world0 None ∅) pen eq_refl eq_refl
           (product_get_answers (world0 None ∅) "/id0" pen eq_refl) eq_refl).
Defined.

Lemma getAll_refines_backend_witness :
  let s := world0 None {[ "products/" := ser (JArr [pen]) ]} in
  (getAll s).1 = (get_result ProductSvc "/" s).1 /\
  coherent all_key (JArr [pen]) (getAll s).2 /\
  (log_of (getAll s).2 = log_of s \/
   log_of (getAll s).2 = (log_of s ++ [(ProductSvc, get_req "/")])%list).
Proof.
  apply getAll_refines_backend;
    [reflexivity | apply product_get_answers; reflexivity | reflexivity |].
  intros t Ht. assert (Some t = Some (ser (JArr [pen]))) as [= ->] by (rewrite <- Ht; reflexivity).
  reflexivity.
Defined.

Definition closed_world : World :=
  set_redis (Redis.mk false ∅) (world0 None ∅).

Lemma getAll_cache_down_witness :
  getAll closed_world
  = (Throw Redis.closed_msg, log_state (ProductSvc, get_req "/") closed_world).
Proof.
  apply (getAll_cache_down closed_world (JArr [pen]) (ser (JArr [pen])));
    [reflexivity | apply product_get_answers; reflexivity | reflexivity].
Defined.

(** The product service has no product [nope] and answers 404. *)
Lemma getById_backend_error_witness :
  let s := world0 None ∅ in
  let req := get_req ("/" ++ to_template (JStr "nope")) in
  getById (JStr "nope") s = (Throw (status_msg 404), log_state (ProductSvc, req) s) /\
  cache_of (log_state (ProductSvc, req) s) = cache_of s.
Proof.
  exact (getById_backend_error (JStr "nope") (world0 None ∅) (Rest.error_reply 404 "Not found")
           (log_state (ProductSvc, get_req "/nope") (world0 None ∅))
           (fun x => serve_world_redis _ _ x) (fun _ => eq_refl) eq_refl eq_refl).
Defined.

Definition pen_input : jsval := JObj [("name", JStr "pen")].

Lemma post_rejects_bad_key_witness :
  post api_key (JObj [("input", pen_input)]) (mkContext [("x-api-key", "wrong")]) (world0 (Some "k3y") ∅)
  = (Throw "Invalid API Key", world0 (Some "k3y") ∅).
Proof. apply (post_rejects_bad_key api_key _ _ _ pen_input); [reflexivity | discriminate]. Defined.

Definition created_pen : jsval := JObj [("_id", JStr "id1"); ("name", JStr "pen")].

Lemma post_forwards_witness :
  let w := world0 (Some "k3y") ∅ in
  post api_key (JObj [("input", pen_input)]) (mkContext [("x-api-key", "k3y")]) w
  = (Ok created_pen, (serve ProductSvc (post_req pen_input) (log_state (ProductSvc, post_req pen_input) w)).2).
Proof.
  exact (post_forwards api_key (JObj [("input", pen_input)]) (mkContext [("x-api-key", "k3y")])
           (world0 (Some "k3y") ∅) pen_input (mkResponse 201 (envelope created_pen)) _ created_pen
           eq_refl eq_refl eq_refl eq_refl eq_refl).
Defined.

Lemma post_accepts_missing_key_witness :
  let w := world0 None ∅ in
  post api_key (JObj [("input", pen_input)]) (mkContext []) w
  = (Ok created_pen, (serve ProductSvc (post_req pen_input) (log_state (ProductSvc, post_req pen_input) w)).2).
Proof.
  exact (post_accepts_missing_key api_key (JObj [("input", pen_input)]) (mkContext []) (world0 None ∅)
           pen_input (mkResponse 201 (envelope created_pen)) _
           created_pen eq_refl eq_refl eq_refl eq_refl eq_refl eq_refl).
Defined.
