(* ===== verification/OrderService.v ===== *)
(** The order resolvers of the gateway (gateway/src/services/order-service.ts)
    and the bearer-token check in front of [placeOrder]: the token is what
    follows ["Bearer "] in the [authorization] header, it must verify
    against [JWT_SECRET], and its [userId] claim is forwarded to the order
    service in the [x-user-id] header.  Every failure inside the check is
    rethrown as ["Unauthorized"]. *)

From S2P Require Import Prelude Js Redis Http UserBackend Backends Kafka World ProductService.
Local Open Scope string_scope.

(** ** [s.split(sep)[1]] *)

(** The first occurrence of [sep] in [s]: the text before it and after it. *)
Fixpoint break_at (sep s : string) : option (string * string) :=
  match strip_prefix sep s with
  | Some rest => Some ("", rest)
  | None =>
      match s with
      | "" => None
      | String c s' =>
          match break_at sep s' with
          | Some (b, a) => Some (String c b, a)
          | None => None
          end
      end
  end.

(** The second field of [s.split(sep)] for a non-empty [sep]: [undefined]
    ([None]) when [sep] does not occur; otherwise the text between its first
    and its second occurrence, or up to the end. *)
Definition split_at1 (sep s : string) : option string :=
  match break_at sep s with
  | None => None
  | Some (_, a) =>
      match break_at sep a with
      | Some (b, _) => Some b
      | None => Some a
      end
  end.

Lemma break_at_eq sep s :
  break_at sep s =
  match strip_prefix sep s with
  | Some rest => Some ("", rest)
  | None =>
      match s with
      | "" => None
      | String c s' => match break_at sep s' with Some (b, a) => Some (String c b, a) | None => None end
      end
  end.
Proof. destruct s; reflexivity. Qed.

Lemma strip_prefix_app p t : strip_prefix p (p ++ t) = Some t.
Proof. induction p as [|c p IH]; [done|]. rewrite string_app_cons. cbn. by rewrite Ascii.eqb_refl. Qed.

(** The separator found after a prefix in which no occurrence can start
    (the prefix has no ["B"]). *)
Lemma break_at_bearer p t :
  forallb (fun c => negb (Ascii.eqb c "B")) (list_ascii_of_string p) = true ->
  break_at "Bearer " (p ++ "Bearer " ++ t) = Some (p, t).
Proof.
  induction p as [|c p IH]; intros Hp.
  - rewrite string_app_nil_l, break_at_eq. by rewrite strip_prefix_app.
  - cbn in Hp. apply andb_prop in Hp as [Hc Hp]. rewrite string_app_cons, break_at_eq.
    replace (strip_prefix "Bearer " (String c (p ++ "Bearer " ++ t))) with (@None string).
    + by rewrite IH.
    + cbn [strip_prefix next_is]. destruct (Ascii.eqb_spec "B" c); [subst c; discriminate Hc | done].
Qed.

(** [("Bearer " + t).split("Bearer ")[1]] is [t] when [t] holds no
    further separator. *)
Lemma split_at1_bearer p t :
  forallb (fun c => negb (Ascii.eqb c "B")) (list_ascii_of_string p) = true ->
  break_at "Bearer " t = None ->
  split_at1 "Bearer " (p ++ "Bearer " ++ t) = Some t.
Proof. intros Hp Ht. unfold split_at1. rewrite break_at_bearer by done. by rewrite ?Ht. Qed.

(** [break_at] finds the first occurrence where [String.index] does. *)
Lemma break_at_index sep s :
  sep <> "" ->
  break_at sep s =
  match String.index 0 sep s with
  | Some j => Some (String.substring 0 j s,
                    String.substring (j + String.length sep) (String.length s - (j + String.length sep)) s)
  | None => None
  end.
Proof.
  intros Hsep. induction s as [|c s IH].
  - destruct sep; [done | reflexivity].
  - rewrite break_at_eq, strip_prefix_spec. cbn [String.index].
    destruct (String.prefix sep (String c s)); [reflexivity|].
    rewrite IH. by destruct (String.index 0 sep s).
Qed.

(** The token check's [auth.split("Bearer ")[1]] is the second piece
    of [String.prototype.split]: for every non-empty separator and every
    header, [split_at1] agrees with the reference [js_split] indexed at 1,
    [undefined] when there is no second piece. *)
Theorem split_at1_js_split sep s :
  sep <> "" -> split_at1 sep s = nth_error (js_split sep s) 1.
Proof.
  intros Hsep. unfold split_at1, js_split. rewrite (break_at_index sep s Hsep).
  cbn [split_pieces]. destruct (String.index 0 sep s) as [j|] eqn:Ej; [|done].
  cbn [nth_error]. rewrite (break_at_index _ _ Hsep).
  destruct (String.length s) as [|n] eqn:Hl.
  - destruct s; cbn in Hl; [|discriminate]. destruct sep; [done|]. cbn in Ej. discriminate Ej.
  - cbn [split_pieces].
    by destruct (String.index 0 sep (String.substring (j + String.length sep) (S n - (j + String.length sep)) s)).
Qed.

Lemma split_at1_js_split_witness :
  split_at1 "Bearer " "x Bearer a Bearer b" = nth_error (js_split "Bearer " "x Bearer a Bearer b") 1 /\
  split_at1 "Bearer " "x Bearer a Bearer b" = Some "a ".
Proof. split; [apply split_at1_js_split; discriminate | reflexivity]. Defined.

(** [{ "x-user-id": userId }] as axios sends it: no header for [undefined]
    or [null]. *)
Definition user_header (uid : jsval) : list (string * string) :=
  match uid with
  | JUndefined | JNull => []
  | _ => [("x-user-id", to_template uid)]
  end.

(** The object [OrderService] of order-service.ts, with what its [post]
    guarantees. *)
Module OrderService.

(** [const client = Axios.create({ ...axios.defaults, baseURL:
    process.env.ORDER_SERVICE_URL })]: a client with no interceptor, whose
    requests the transport delivers to [OrderSvc]. *)
Definition client (base_url : option string) : instance := service_client base_url shared_axios.

Section Resolvers.
Context {S : Type} `{LL : Lens S reqlog} `{Transport S}.
(** [process.env.JWT_SECRET] and [jsonwebtoken.verify] *)
Variable secret_of : S -> option string.
Variable verify_of : S -> string -> string -> res jsval.

(** The [try] block of [post]: the [userId] claim, or what it throws. *)
Definition authorize (auth : option string) (secret : option string)
  (verify : string -> string -> res jsval) : res jsval :=
match auth with
| None => Throw "Cannot read properties of undefined (reading 'split')"
| Some a =>
    match split_at1 "Bearer " a with
    | None => Throw "Token is not provided"
    | Some token =>
        if String.eqb token "" then Throw "Token is not provided" else
        match secret with
        | None => Throw "JWT_SECRET is not defined"
        | Some k =>
            if String.eqb k "" then Throw "JWT_SECRET is not defined" else
            match verify token k with
            | Throw e => Throw e
            | Ok payload => prop payload "userId"
            end
        end
    end
end.

(** [OrderService.getAll()] and [OrderService.getById(id)] *)
Definition getAll : M S jsval := get_result OrderSvc "/".
Definition getById (id : jsval) : M S jsval := get_result OrderSvc ("/" ++ to_template id).

(** [OrderService.post({ products }, context)] *)
Definition post (args : jsval) (ctx : context) : M S jsval :=
products ← lift_res (prop args "products");
secret ← gets secret_of;
verify ← gets verify_of;
match authorize (header ctx "authorization") secret verify with
| Throw _ => throw "Unauthorized"
| Ok uid => post_result OrderSvc "/" (JObj [("products", products)]) (user_header uid)
end.

Definition order_req (products uid : jsval) : request :=
mkRequest POST "/" (JObj [("products", products)]) (user_header uid).

(** ** The check fails closed *)

Lemma post_unauthorized args ctx s products :
prop args "products" = Ok products ->
(exists e, authorize (header ctx "authorization") (secret_of s) (verify_of s) = Throw e) ->
post args ctx s = (Throw "Unauthorized", s).
Proof.
intros Hp [e He]. unfold post. rewrite Hp. cbn. unfold gets, mbind, M_bind, mret, M_ret.
by rewrite He.
Qed.

(** No [authorization] header: rejected, and nothing is sent. *)
Theorem post_no_header args ctx s products :
prop args "products" = Ok products -> header ctx "authorization" = None ->
post args ctx s = (Throw "Unauthorized", s).
Proof. intros Hp Hh. apply (post_unauthorized _ _ _ products Hp). rewrite Hh. by eexists. Qed.

(** C23: A token that fails verification (a wrong signature): rejected, and
  nothing is sent. *)
Theorem post_bad_signature args ctx s products auth token k e :
prop args "products" = Ok products -> header ctx "authorization" = Some auth ->
split_at1 "Bearer " auth = Some token -> token <> "" ->
secret_of s = Some k -> verify_of s token k = Throw e ->
post args ctx s = (Throw "Unauthorized", s).
Proof.
intros Hp Hh Hsp Ht Hk He. apply (post_unauthorized _ _ _ products Hp).
unfold authorize. rewrite Hh, Hsp, Hk.
destruct (String.eqb token ""); [by eexists|]. destruct (String.eqb k ""); [by eexists|].
rewrite He. by eexists.
Qed.

Context `{!LensLaws S reqlog}.

(** C24: A token that verifies: exactly one [POST /] reaches the order
  service, carrying the token's [userId] claim in [x-user-id]. *)
Theorem post_authorized args ctx s products auth token k payload uid rsp s' r :
prop args "products" = Ok products -> header ctx "authorization" = Some auth ->
split_at1 "Bearer " auth = Some token -> token <> "" ->
secret_of s = Some k -> k <> "" -> verify_of s token k = Ok payload ->
prop payload "userId" = Ok uid ->
serve OrderSvc (order_req products uid) (log_state (OrderSvc, order_req products uid) s)
  = (Some rsp, s') ->
ok_status (status rsp) = true -> prop (data rsp) "result" = Ok r ->
post args ctx s = (Ok r, s').
Proof.
intros Hp Hh Hsp Ht Hk Hk' Hv Hu Hs Hst Hr. unfold post. rewrite Hp. cbn.
unfold gets, mbind, M_bind, mret, M_ret. unfold authorize. rewrite Hh, Hsp, Hk.
rewrite (proj2 (String.eqb_neq _ _) Ht), (proj2 (String.eqb_neq _ _) Hk'), Hv, Hu.
by apply (post_result_served _ _ _ _ _ rsp).
Qed.

(** C25: A token whose header does not start with ["Bearer "] is still
  accepted: whatever precedes the separator is ignored. *)
Theorem authorize_any_prefix p t secret verify :
forallb (fun c => negb (Ascii.eqb c "B")) (list_ascii_of_string p) = true ->
break_at "Bearer " t = None ->
authorize (Some (p ++ "Bearer " ++ t)) secret verify = authorize (Some ("Bearer " ++ t)) secret verify.
Proof.
intros Hp Ht. unfold authorize.
pose proof (split_at1_bearer "" t eq_refl Ht) as H0. rewrite string_app_nil_l in H0.
by rewrite (split_at1_bearer p t Hp Ht), H0.
Qed.
End Resolvers.
End OrderService.
Import OrderService.

(** ** Runs on a concrete system *)

(** Tokens [tok:<id>] verify against the secret [s3cret] with the payload
    [{ userId: id }]; this is how [signJWT] of the user service signs. *)
Definition toy_verify (token secret : string) : res jsval :=
  if String.eqb secret "s3cret" then
    match strip_prefix "tok:" token with
    | Some id => Ok (if String.eqb id "" then JObj [] else JObj [("userId", JStr id)])
    | None => Throw "invalid signature"
    end
  else Throw "invalid signature".

Definition order_world : World :=
  mkWorld (mkEnv None (Some "s3cret") toy_verify (fun p => Ok ("h:" ++ p)) (fun id => "tok:" ++ id))
          (Redis.mk true ∅) Kafka.consumer0 (UserBackend.mkDb [] 0)
          (Rest.mkDb [] 0) (Rest.mkDb [] 0) [] false None.

Definition jwt_secret (w : World) : option string := JWT_SECRET (w_env w).
Definition jwt_verify_of (w : World) : string -> string -> res jsval := jwt_verify (w_env w).

Definition order_args : jsval := JObj [("products", JArr [JObj [("_id", JStr "id0"); ("quantity", JNum 1)]])].

Lemma post_no_header_witness :
  post jwt_secret jwt_verify_of order_args (mkContext []) order_world = (Throw "Unauthorized", order_world).
Proof. apply (post_no_header _ _ _ _ _ (JArr [JObj [("_id", JStr "id0"); ("quantity", JNum 1)]])); reflexivity. Defined.

Lemma post_bad_signature_witness :
  post jwt_secret jwt_verify_of order_args (mkContext [("authorization", "Bearer forged")]) order_world
  = (Throw "Unauthorized", order_world).
Proof.
  exact (post_bad_signature jwt_secret jwt_verify_of order_args
           (mkContext [("authorization", "Bearer forged")]) order_world
           (JArr [JObj [("_id", JStr "id0"); ("quantity", JNum 1)]]) "Bearer forged" "forged"
           "s3cret" "invalid signature" eq_refl eq_refl eq_refl ltac:(discriminate) eq_refl eq_refl).
Defined.

Lemma post_authorized_witness :
  let ctx := mkContext [("authorization", "Bearer tok:u1")] in
  let products := JArr [JObj [("_id", JStr "id0"); ("quantity", JNum 1)]] in
  post jwt_secret jwt_verify_of order_args ctx order_world
  = (Ok (JObj [("_id", JStr "id0"); ("userId", JStr "u1"); ("products", products)]),
     (serve OrderSvc (order_req products (JStr "u1"))
        (log_state (OrderSvc, order_req products (JStr "u1")) order_world)).2).
Proof.
  exact (post_authorized jwt_secret jwt_verify_of order_args
           (mkContext [("authorization", "Bearer tok:u1")]) order_world
           (JArr [JObj [("_id", JStr "id0"); ("quantity", JNum 1)]]) "Bearer tok:u1" "tok:u1"
           "s3cret" (JObj [("userId", JStr "u1")]) (JStr "u1")
           (mkResponse 201 (envelope (JObj [("_id", JStr "id0"); ("userId", JStr "u1");
                                            ("products", JArr [JObj [("_id", JStr "id0"); ("quantity", JNum 1)]])])))
           _ _ eq_refl eq_refl eq_refl ltac:(discriminate) eq_refl ltac:(discriminate) eq_refl eq_refl
           eq_refl eq_refl eq_refl).
Defined.

Lemma authorize_any_prefix_witness :
  authorize (Some ("Token " ++ "Bearer " ++ "tok:u1")) (Some "s3cret") toy_verify
  = authorize (Some ("Bearer " ++ "tok:u1")) (Some "s3cret") toy_verify.
Proof. apply authorize_any_prefix; reflexivity. Defined.
