(* ===== verification/UserService.v ===== *)
(** The user resolvers of the gateway (gateway/src/services/user-service.ts):
    plain forwards to the user service.  [post({ input })] sends the body
    [{ input }], while the user service validates [{ username, password }]
    at the top level of the body (Services/User-Service/src/app.ts). *)

From S2P Require Import Prelude Js Redis Http UserBackend Backends Kafka World ProductService.
Local Open Scope string_scope.

(** The object [UserService] of user-service.ts. *)
Module UserService.

(** [const client = Axios.create({ ...axios.defaults, baseURL:
    process.env.USER_SERVICE_URL })]: a client with no interceptor, whose
    requests the transport delivers to [UserSvc]. *)
Definition client (base_url : option string) : instance := service_client base_url shared_axios.

Section Resolvers.
Context {S : Type} `{Lens S reqlog} `{Transport S}.

(** [UserService.getAll()] and [UserService.getById(id)] *)
Definition getAll : M S jsval := get_result UserSvc "/".
Definition getById (id : jsval) : M S jsval := get_result UserSvc ("/" ++ to_template id).

(** [UserService.post({ input })] *)
Definition post (args : jsval) : M S jsval :=
input ← lift_res (prop args "input");
post_result UserSvc "/" (JObj [("input", input)]) [].
End Resolvers.
End UserService.
Import UserService.

Definition register_req (input : jsval) : request := mkRequest POST "/" (JObj [("input", input)]) [].

(** The body the gateway sends never passes the user service's schema: the
    fields are one level down, under [input]. *)
Lemma valid_body_wrapped input : UserBackend.valid_body (JObj [("input", input)]) = None.
Proof. reflexivity. Qed.

(** The user service answers the wrapped body with its validation error,
    which axios turns into a rejection. *)
Lemma post_wrapped_rejected w input :
  post (JObj [("input", input)]) w
  = (Throw (status_msg 400), log_state (UserSvc, register_req input) w).
Proof.
  unfold post. rewrite (bind_ok _ _ w input w) by reflexivity. unfold post_result, http_post.
  assert (Hs : serve UserSvc (register_req input)
                 (update ((view w ++ [(UserSvc, register_req input)])%list) w)
               = (Some UserBackend.validation_reply, log_state (UserSvc, register_req input) w))
    by (cbn; reflexivity).
  rewrite (bind_throw _ _ _ _ _ (send_status_error _ _ _ _ _ Hs eq_refl)).
  reflexivity.
Qed.

(** [registerUser] through the gateway always fails: the user service
    answers 400 from its body validation, axios rejects, and no user is
    created, whatever the input. *)
Theorem registerUser_always_rejected w input :
  post (JObj [("input", input)]) w
  = (Throw (status_msg 400), log_state (UserSvc, register_req input) w) /\
  w_users (post (JObj [("input", input)]) w).2 = w_users w.
Proof. rewrite post_wrapped_rejected. by split. Qed.
