(* ===== verification/Invalidator.v ===== *)
(** The gateway's process entry point and its cache invalidation
    (gateway/src/index.ts): [main] connects the Redis client, connects the
    Kafka consumer, subscribes it to the inventory topic, starts it with an
    [eachMessage] handler that deletes the listing key [products/], and then
    starts the HTTP server; a failure anywhere disconnects the consumer and
    exits with status 1.  [deliver] is one message handed over by the
    broker. *)

From S2P Require Import Prelude Js Redis Http UserBackend Backends Kafka World ProductService.
Import ProductService.ProductService.
Local Open Scope string_scope.

(** The definitions of gateway/src/index.ts. *)
Module Index.

(** The topic [main] subscribes to, character for character. *)
Definition inventory_topic : string := "inventory-events ".

Section EachMessage.
Context {S : Type} `{Lens S Redis.t}.

(** [eachMessage: async ({ topic, partition }) => { ...; await cacheClient.del("products/"); }]:
    the message itself is never read. *)
Definition eachMessage (m : Kafka.message) : M S unit :=
  zoom (Redis.del all_key);; mret tt.
End EachMessage.

(** The broker hands [m] to the consumer, which runs [eachMessage]. *)
Definition deliver (m : Kafka.message) : M World unit := fun w =>
  if Kafka.receives (w_consumer w) m then eachMessage m w else (Ok tt, w).

(** A sequence of deliveries, stopping at the first failure. *)
Fixpoint deliver_all (ms : list Kafka.message) : M World unit :=
  match ms with
  | [] => mret tt
  | m :: ms' => deliver m;; deliver_all ms'
  end.

(** [const main = async () => { ... }] *)
Definition main_body : M World unit :=
  zoom Redis.connect;;
  zoom Kafka.connect;;
  zoom (Kafka.subscribe inventory_topic);;
  zoom Kafka.run;;
  modify (set_listening true).

(** [main().catch(async (error) => { await consumer.disconnect(); process.exit(1); })] *)
Definition main : M World unit :=
  try_catch main_body (fun _ => zoom Kafka.disconnect;; modify (set_exit 1)).

End Index.
Import Index.

(** ** Startup *)

(** The consumer's subscriptions after [main]: those it had, and at most
    the inventory topic. *)
Lemma main_subscriptions w t :
  t ∈ Kafka.subscriptions (w_consumer (main w).2) ->
  t ∈ Kafka.subscriptions (w_consumer w) \/ t = inventory_topic.
Proof.
  intros Ht. destruct w as [e r c u p o l li ex].
  unfold main, main_body in Ht. run_m.
  destruct (Redis.connect r) as [[] r'] eqn:Er; cbn in Ht; [|by left].
  unfold Kafka.connect, Kafka.subscribe, Kafka.run, Kafka.disconnect in Ht. cbn in Ht.
  destruct (Kafka.accepts c inventory_topic); cbn in Ht; [|by left].
  apply elem_of_app in Ht as [Ht | ->%list_elem_of_singleton]; auto.
Qed.

(** The topic name carries a trailing space, which Kafka does not allow in
    a topic name. *)
Lemma inventory_topic_invalid : Kafka.valid_topic inventory_topic = false.
Proof. reflexivity. Qed.

(** C10: On a broker that checks topic names, [main] fails at the subscription:
    the consumer is disconnected, the process exits with status 1 and never
    listens, and the Redis client is left connected. *)
Theorem main_fails_on_topic w :
  Kafka.accepts (w_consumer w) = Kafka.valid_topic -> Redis.is_open (w_redis w) = false ->
  w_listening w = false ->
  let w' := (main w).2 in
  w_exit w' = Some 1%Z /\ w_listening w' = false /\ Kafka.connected (w_consumer w') = false /\
  Redis.is_open (w_redis w') = true.
Proof.
  intros Ha Hr Hl. destruct w as [e [ro rs] [acc co subs run] u p o l li ex]; cbn in Ha, Hr, Hl.
  subst. unfold main, main_body. run_m.
  unfold Redis.connect, Kafka.connect, Kafka.subscribe, Kafka.disconnect. cbn.
  repeat split.
Qed.

(** C11: Whatever the broker accepts, no message on the topic the
    specification names ([inventory-events], no trailing space) ever
    reaches [eachMessage] after [main]: delivering any number of them
    changes nothing, and the listing entry stays. *)
Theorem inventory_events_never_invalidate w ms :
  Kafka.subscriptions (w_consumer w) = [] ->
  Forall (fun m => Kafka.topic m = "inventory-events") ms ->
  deliver_all ms (main w).2 = (Ok tt, (main w).2).
Proof.
  intros Hs Hms. induction Hms as [|m ms Hm _ IH]; [done|].
  cbn [deliver_all]. unfold deliver at 1.
  destruct (Kafka.receives (w_consumer (main w).2) m) eqn:Hr.
  - apply Kafka.receives_subscribed, main_subscriptions in Hr. rewrite Hs, Hm in Hr.
    destruct Hr as [Hr | Hr]; [by apply not_elem_of_nil in Hr | discriminate Hr].
  - run_m. rewrite Hr. exact IH.
Qed.

(** ** What one delivered message does *)

Lemma deliver_received m w :
  Kafka.receives (w_consumer w) m = true -> Redis.is_open (w_redis w) = true ->
  deliver m w = (Ok tt, set_redis (Redis.mk true (delete all_key (Redis.store (w_redis w)))) w).
Proof.
  intros Hr Ho. unfold deliver. rewrite Hr. unfold eachMessage. run_m.
  unfold Redis.del. rewrite Ho. done.
Qed.

Lemma deliver_backends m w :
  w_products (deliver m w).2 = w_products w /\ w_log (deliver m w).2 = w_log w /\
  Redis.is_open (w_redis (deliver m w).2) = Redis.is_open (w_redis w).
Proof.
  unfold deliver. destruct (Kafka.receives _ _); [|done]. unfold eachMessage. run_m.
  unfold Redis.del. destruct (Redis.is_open (w_redis w)) eqn:E; repeat split. all: cbn; rewrite ?E; done.
Qed.

Lemma deliver_cache m w :
  Kafka.receives (w_consumer w) m = true -> Redis.is_open (w_redis w) = true ->
  cache_of (deliver m w).2 = delete all_key (cache_of w).
Proof. intros Hr Ho. by rewrite deliver_received by done. Qed.

(** A message the consumer receives removes the listing entry and nothing
    else, whatever it carries. *)
Theorem deliver_invalidates_listing m w k :
  Kafka.receives (w_consumer w) m = true -> Redis.is_open (w_redis w) = true ->
  cache_of (deliver m w).2 !! all_key = None /\
  (k <> all_key -> cache_of (deliver m w).2 !! k = cache_of w !! k).
Proof.
  intros Hr Ho. rewrite deliver_received by done. unfold cache_of, redis_of. cbn [snd view world_redis set_redis w_redis Redis.store].
  split; [apply lookup_delete_eq | intros Hk; by apply lookup_delete_ne].
Qed.

(** The handler never reads the message: two messages on the same topic
    have the same effect. *)
Theorem deliver_content_blind m1 m2 w :
  Kafka.topic m1 = Kafka.topic m2 -> deliver m1 w = deliver m2 w.
Proof. intros Ht. unfold deliver, Kafka.receives. by rewrite Ht. Qed.

(** After a received message, the next [getAll] misses and calls the
    product service exactly once. *)
Theorem deliver_then_getAll_misses m w d t :
  Kafka.receives (w_consumer w) m = true -> Redis.is_open (w_redis w) = true ->
  fst (Rest.handle Rest.build_product (get_req "/") (w_products w)) = mkResponse 200 (envelope d) ->
  stringify d = Some t ->
  getAll (deliver m w).2
  = (Ok d, set_state all_key t (log_state (ProductSvc, get_req "/") (deliver m w).2)).
Proof.
  intros Hr Ho Hp Ht. destruct (deliver_backends m w) as (Hpr & _ & Hop).
  unfold getAll. apply cache_aside_miss; [by rewrite <- Ho, <- Hop | | | done].
  - by rewrite deliver_cache, lookup_delete_eq.
  - apply product_get_answers. by rewrite Hpr.
Qed.

(** C7: A per-product entry survives the message: the next [getById] for that
    product is served from the cache, stale or not, without calling the
    product service. *)
Theorem stale_item_after_event m w id v :
  Kafka.receives (w_consumer w) m = true -> Redis.is_open (w_redis w) = true ->
  to_template id <> "" -> cache_hit (cache_of w !! id_key id) = Some v ->
  getById id (deliver m w).2 = (Ok v, (deliver m w).2).
Proof.
  intros Hr Ho Hid Hh. destruct (deliver_backends m w) as (_ & _ & Hop).
  unfold getById. apply cache_aside_hit; [by rewrite <- Ho, <- Hop|].
  rewrite deliver_cache by done. rewrite lookup_delete_ne; [done|].
  unfold id_key, all_key. intros Heq. symmetry in Heq. apply Hid.
  rewrite <- (string_app_nil_r "products/") in Heq at 2. by apply string_app_inj_l in Heq.
Qed.

(** ** Runs on a concrete system *)

(** A gateway whose consumer runs subscribed to [inventory-events], with
    the listing and product [id0] cached. *)
Definition subscribed_world : World :=
  set_consumer (Kafka.mkConsumer Kafka.valid_topic true ["inventory-events"] true)
    (world0 None (<[ "products/id0" := ser pen ]> {[ "products/" := ser (JArr [pen]) ]})).

Definition event (payload : string) : Kafka.message :=
  Kafka.mkMessage "inventory-events" 0 7 payload.

Lemma main_fails_on_topic_witness :
  let w' := (main (set_redis (Redis.mk false ∅) (world0 None ∅))).2 in
  w_exit w' = Some 1%Z /\ w_listening w' = false /\ Kafka.connected (w_consumer w') = false /\
  Redis.is_open (w_redis w') = true.
Proof. apply main_fails_on_topic; reflexivity. Defined.

(** A gateway whose Redis client is closed and whose broker accepts any
    topic name, with the listing cached: [main] connects, subscribes to
    the name with the trailing space, runs and listens; the inventory
    events then leave the listing in place. *)
Definition lenient_world : World :=
  set_redis (Redis.mk false {[ "products/" := ser (JArr [pen]) ]})
    (set_consumer (Kafka.mkConsumer (fun _ => true) false [] false) (world0 None ∅)).

Lemma inventory_events_never_invalidate_witness :
  w_listening (main lenient_world).2 = true /\
  Redis.store (w_redis (main lenient_world).2) !! "products/" = Some (ser (JArr [pen])) /\
  deliver_all [event "stock changed"; event "{}"] (main lenient_world).2 = (Ok tt, (main lenient_world).2).
Proof.
  split_and!; [vm_compute; reflexivity | vm_compute; reflexivity |].
  apply inventory_events_never_invalidate; [reflexivity | repeat constructor].
Defined.

Lemma deliver_invalidates_listing_witness :
  cache_of (deliver (event "x") subscribed_world).2 !! all_key = None /\
  ("products/id0" <> all_key ->
   cache_of (deliver (event "x") subscribed_world).2 !! "products/id0"
   = cache_of subscribed_world !! "products/id0").
Proof. apply deliver_invalidates_listing; reflexivity. Defined.

Lemma deliver_then_getAll_misses_witness :
  getAll (deliver (event "x") subscribed_world).2
  = (Ok (JArr [pen]), set_state all_key (ser (JArr [pen]))
                        (log_state (ProductSvc, get_req "/") (deliver (event "x") subscribed_world).2)).
Proof. apply deliver_then_getAll_misses; reflexivity. Defined.

Lemma stale_item_after_event_witness :
  getById (JStr "id0") (deliver (event "x") subscribed_world).2
  = (Ok pen, (deliver (event "x") subscribed_world).2).
Proof. apply stale_item_after_event; [reflexivity | reflexivity | discriminate | reflexivity]. Defined.

