(* ===== verification/Schema.v ===== *)
(** The schema of the gateway (gateway/src/schema.ts) as its SDL declares
    it, and the checks graphql-js makes of it: [buildSchema] refuses a type
    name it does not know (rule KnownTypeNames of [assertValidSDL]), and the
    [validateSchema] that [validate] runs on every request
    ([assertValidSchema]) checks the kinds of the types: the query root must
    be an object type, a field of an object type must have an output type,
    an argument and a field of an input type an input type.  Types are
    checked in the order the SDL declares them, which is the order of
    graphql-js's type map for a schema built from SDL. *)

From S2P Require Import Prelude Js.
Local Open Scope string_scope.

Module Schema.

(** A type reference: [T], [[T]] or [T!]. *)
Inductive tref : Type :=
| Named (n : string)
| ListOf (t : tref)
| NonNull (t : tref).

(** A field of an object type with its arguments. *)
Record field_def : Type := mkField {
  fname : string;
  fargs : list (string * tref);
  ftype : tref
}.

(** [type T { ... }] and [input T { ... }]. *)
Inductive type_def : Type :=
| ObjectDef (name : string) (fields : list field_def)
| InputDef (name : string) (fields : list (string * tref)).

Inductive kind : Type := KScalar | KObject | KInput.

(** The built-in scalar types. *)
Definition scalars : list string := ["Int"; "Float"; "String"; "Boolean"; "ID"].

Definition type_name (d : type_def) : string :=
  match d with ObjectDef n _ | InputDef n _ => n end.

Definition find_type (sdl : list type_def) (n : string) : option type_def :=
  List.find (fun d => String.eqb (type_name d) n) sdl.

Definition kind_of (sdl : list type_def) (n : string) : option kind :=
  if bool_decide (n ∈ scalars) then Some KScalar
  else match find_type sdl n with
       | Some (ObjectDef _ _) => Some KObject
       | Some (InputDef _ _) => Some KInput
       | None => None
       end.

Fixpoint named_type (t : tref) : string :=
  match t with Named n => n | ListOf t | NonNull t => named_type t end.

(** [String(type)]: [User!], [[OrderProduct]]. *)
Fixpoint print_tref (t : tref) : string :=
  match t with
  | Named n => n
  | ListOf t => "[" ++ print_tref t ++ "]"
  | NonNull t => print_tref t ++ "!"
  end.

(** [isOutputType] and [isInputType] on the types this SDL can declare. *)
Definition is_output_type (sdl : list type_def) (t : tref) : bool :=
  match kind_of sdl (named_type t) with Some KScalar | Some KObject => true | _ => false end.
Definition is_input_type (sdl : list type_def) (t : tref) : bool :=
  match kind_of sdl (named_type t) with Some KScalar | Some KInput => true | _ => false end.

(** Every type reference of a definition, in order. *)
Definition trefs (d : type_def) : list tref :=
  match d with
  | ObjectDef _ fs => flat_map (fun f => ftype f :: map snd (fargs f)) fs
  | InputDef _ fs => map snd fs
  end.

(** [buildSchema]: the first unknown type name is refused. *)
Definition build_schema (sdl : list type_def) : res (list type_def) :=
  match List.find (fun t => negb (bool_decide (is_Some (kind_of sdl (named_type t)))))
                  (flat_map trefs sdl) with
  | Some t => Throw ("Unknown type " ++ quote (named_type t) ++ ".")
  | None => Ok sdl
  end.

Definition check (b : bool) (msg : string) : list string := if b then [] else [msg].

(** [validateFields] and [validateInputFields] of one type. *)
Definition validate_type (sdl : list type_def) (d : type_def) : list string :=
  match d with
  | ObjectDef T fs =>
      flat_map (fun f =>
        app (check (is_output_type sdl (ftype f))
          ("The type of " ++ T ++ "." ++ fname f ++ " must be Output Type but got: "
           ++ print_tref (ftype f) ++ "."))
        (flat_map (fun a =>
          check (is_input_type sdl a.2)
            ("The type of " ++ T ++ "." ++ fname f ++ "(" ++ a.1 ++ ":) must be Input Type but got: "
             ++ print_tref a.2 ++ ".")) (fargs f))) fs
  | InputDef T fs =>
      flat_map (fun a =>
        check (is_input_type sdl a.2)
          ("The type of " ++ T ++ "." ++ a.1 ++ " must be Input Type but got: "
           ++ print_tref a.2 ++ ".")) fs
  end.

(** [validateRootTypes]: the query root is the object type [Query]. *)
Definition validate_root (sdl : list type_def) : list string :=
  match find_type sdl "Query" with
  | Some (ObjectDef _ _) => []
  | _ => ["Query root type must be provided."]
  end.

(** [validateSchema]: the list of its errors, empty for a valid schema. *)
Definition validate_schema (sdl : list type_def) : list string :=
  (validate_root sdl ++ flat_map (validate_type sdl) sdl)%list.

(** The fields of an object type, in order. *)
Definition fields_of (sdl : list type_def) (T : string) : list string :=
  match find_type sdl T with
  | Some (ObjectDef _ fs) => map fname fs
  | _ => []
  end.

Definition nn (n : string) : tref := NonNull (Named n).

(** The SDL of schema.ts. *)
Definition sdl : list type_def := [
  ObjectDef "User" [mkField "_id" [] (nn "ID"); mkField "username" [] (nn "String")];
  ObjectDef "Product" [mkField "_id" [] (nn "ID"); mkField "name" [] (nn "String");
                       mkField "price" [] (nn "Int"); mkField "quantity" [] (nn "Int")];
  ObjectDef "OrderProduct" [mkField "_id" [] (nn "ID"); mkField "quantity" [] (nn "Int")];
  ObjectDef "Order" [mkField "_id" [] (nn "ID"); mkField "userId" [] (nn "ID");
                     mkField "products" [] (ListOf (Named "OrderProduct"))];
  InputDef "RegisterUserInput" [("username", nn "String"); ("password", nn "String")];
  InputDef "RegisterUserResult" [("access_token", nn "String"); ("user", nn "User")];
  InputDef "CreateProductInput" [("name", nn "String"); ("price", nn "Int"); ("quantity", nn "Int")];
  InputDef "OrderProductInput" [("_id", nn "String"); ("quantity", nn "Int")];
  ObjectDef "Query" [mkField "users" [] (ListOf (Named "User"));
                     mkField "user" [("id", nn "ID")] (Named "User");
                     mkField "products" [("id", nn "ID")] (Named "Product");
                     mkField "orders" [] (ListOf (Named "Order"));
                     mkField "order" [("id", nn "ID")] (Named "Order")];
  ObjectDef "Mutation" [mkField "registerUser" [("input", Named "RegisterUserInput")] (Named "RegisterUserResult");
                        mkField "createProduct" [("input", Named "CreateProductInput")] (Named "Product");
                        mkField "placeOrder" [("products", ListOf (Named "OrderProductInput"))] (Named "Order")]
].

(** [const schema = buildSchema(...)]: every type name is known, so the
    module loads. *)
Lemma schema_builds : build_schema sdl = Ok sdl.
Proof. vm_compute. reflexivity. Qed.

(** C2: The schema of schema.ts is not a valid GraphQL schema: graphql-js's
    [validateSchema] reports exactly two errors, in this order.
    [RegisterUserResult] is declared [input] but is the result type of
    [registerUser], and as an input type it cannot have the object-typed
    field [user]. *)
Theorem schema_invalid :
  validate_schema sdl =
  ["The type of RegisterUserResult.user must be Input Type but got: User!.";
   "The type of Mutation.registerUser must be Output Type but got: RegisterUserResult."].
Proof. vm_compute. reflexivity. Qed.

(** The schema with [RegisterUserResult] declared [type], as its use as a
    result needs. *)
Definition sdl_fixed : list type_def :=
  map (fun d => match d with
                | InputDef "RegisterUserResult" fs =>
                    ObjectDef "RegisterUserResult" (map (fun a => mkField a.1 [] a.2) fs)
                | _ => d
                end) sdl.

(** The checks are not vacuous: the fixed schema is valid. *)
Lemma schema_fixed_valid : validate_schema sdl_fixed = [].
Proof. vm_compute. reflexivity. Qed.

End Schema.
