(* ===== verification/Execution.v ===== *)
(** How graphql-js completes a resolver's value against the schema's types
    (its [completeValue], [completeListValue], [completeObjectValue], the
    default field resolver and the [serialize] of the built-in scalars),
    for the types of gateway/src/schema.ts.  A query selects fields
    ([selection]); an object's fields are read as properties of the value.
    A field that fails is [null] with its error recorded when its type is
    nullable, and makes its parent fail when it is non-null.  Numbers are
    the integers of [jsval]; [Number(s)] of a string is modelled on decimal
    integer numerals only. *)

From S2P Require Import Prelude Js Schema.
Import Schema.Schema.
Local Open Scope string_scope.

Module Execution.

Local Set Warnings "-register-all".

(** A field of a query and the fields selected under it. *)
Inductive selection : Type := Field (name : string) (sub : list selection).

Definition sel_name (s : selection) : string := match s with Field f _ => f end.

(** Induction through the fields selected under a field. *)
Section selection_ind.
Variable P : selection -> Prop.
Hypothesis HField : forall f sub, Forall P sub -> P (Field f sub).

Fixpoint selection_ind' (s : selection) : P s :=
  match s with
  | Field f sub =>
      HField f sub ((fix go (l : list selection) : Forall P l :=
                       match l with
                       | [] => Forall_nil_2 _
                       | x :: l' => Forall_cons_2 _ x l' (selection_ind' x) (go l')
                       end) sub)
  end.
End selection_ind.

(** The completed value, or [None] when an error propagates to the parent,
    and the errors recorded on the way. *)
Definition outcome : Type := (option jsval * list string)%type.

Definition err (msg : string) : outcome := (None, [msg]).

(** The note on the items past the tenth. *)
Definition more_items (more : nat) : list string :=
  match more with
  | O => []
  | 1 => ["... 1 more item"]
  | _ => ["... " ++ string_of_Z (Z.of_nat more) ++ " more items"]
  end.

(** graphql-js's [inspect] in error messages: strings as JSON, arrays and
    objects two levels deep, at most ten array items. *)
Fixpoint inspect_d (depth : nat) (v : jsval) : string :=
  match v with
  | JUndefined => "undefined"
  | JNull => "null"
  | JBool b => if b then "true" else "false"
  | JNum z => string_of_Z z
  | JStr s => quote s
  | JArr [] => "[]"
  | JArr xs =>
      match depth with
      | O => "[Array]"
      | S d =>
          "[" ++ String.concat ", " (map (inspect_d d) (firstn 10 xs) ++ more_items (List.length xs - 10))%list
          ++ "]"
      end
  | JObj [] => "{}"
  | JObj fs =>
      match depth with
      | O => "[Object]"
      | S d => "{ " ++ String.concat ", " (map (fun kv => kv.1 ++ ": " ++ inspect_d d kv.2) fs) ++ " }"
      end
  end.

Definition inspect (v : jsval) : string := inspect_d 2 v.

(** GraphQL's [Int]: a 32-bit signed integer. *)
Definition int32 (z : Z) : bool := (-2147483648 <=? z)%Z && (z <=? 2147483647)%Z.

(** [Number(s)] on a decimal integer numeral. *)
Definition numeral (s : string) : option Z :=
  match parse_number s with Some (JNum z, "") => Some z | _ => None end.

Definition serialize_int (v : jsval) : outcome :=
  let num := match v with
             | JNum z => Some z
             | JStr s => if String.eqb s "" then None else numeral s
             | _ => None
             end in
  match v, num with
  | JBool b, _ => (Some (JNum (if b then 1 else 0)%Z), [])
  | _, Some z =>
      if int32 z then (Some (JNum z), [])
      else err ("Int cannot represent non 32-bit signed integer value: " ++ inspect v)
  | _, None => err ("Int cannot represent non-integer value: " ++ inspect v)
  end.

Definition serialize_string (v : jsval) : outcome :=
  match v with
  | JStr s => (Some (JStr s), [])
  | JBool b => (Some (JStr (if b then "true" else "false")), [])
  | JNum z => (Some (JStr (string_of_Z z)), [])
  | _ => err ("String cannot represent value: " ++ inspect v)
  end.

Definition serialize_id (v : jsval) : outcome :=
  match v with
  | JStr s => (Some (JStr s), [])
  | JNum z => (Some (JStr (string_of_Z z)), [])
  | _ => err ("ID cannot represent value: " ++ inspect v)
  end.

Definition serialize_boolean (v : jsval) : outcome :=
  match v with
  | JBool b => (Some (JBool b), [])
  | JNum z => (Some (JBool (negb (Z.eqb z 0))), [])
  | _ => err ("Boolean cannot represent a non boolean value: " ++ inspect v)
  end.

Definition serialize_float (v : jsval) : outcome :=
  match v with
  | JNum z => (Some (JNum z), [])
  | JBool b => (Some (JNum (if b then 1 else 0)%Z), [])
  | JStr s => match numeral s with
              | Some z => (Some (JNum z), [])
              | None => err ("Float cannot represent non numeric value: " ++ inspect v)
              end
  | _ => err ("Float cannot represent non numeric value: " ++ inspect v)
  end.

Definition serialize (scalar : string) (v : jsval) : outcome :=
  if String.eqb scalar "Int" then serialize_int v
  else if String.eqb scalar "String" then serialize_string v
  else if String.eqb scalar "ID" then serialize_id v
  else if String.eqb scalar "Boolean" then serialize_boolean v
  else serialize_float v.

(** [defaultFieldResolver]: the property of an object (an array has only
    [length] among the names a schema can use); [undefined] on other
    values. *)
Definition resolve (v : jsval) (f : string) : jsval :=
  match v with
  | JObj fs => default JUndefined (field_lookup f fs)
  | JArr xs => if String.eqb f "length" then JNum (Z.of_nat (List.length xs)) else JUndefined
  | _ => JUndefined
  end.

Definition nullish (v : jsval) : bool := match v with JUndefined | JNull => true | _ => false end.

Definition is_non_null (t : tref) : bool := match t with NonNull _ => true | _ => false end.

(** [handleFieldError]: a failure of a nullable position is [null]. *)
Definition catch_nullable (t : tref) (o : outcome) : outcome :=
  match o with
  | (None, es) => if is_non_null t then (None, es) else (Some JNull, es)
  | _ => o
  end.

(** The items of a list, completed in order; the first that fails stops
    the list. *)
Fixpoint collect_list (os : list outcome) : outcome :=
  match os with
  | [] => (Some (JArr []), [])
  | (Some v, es) :: os' =>
      let '(r, es') := collect_list os' in
      (match r with Some (JArr vs) => Some (JArr (v :: vs)) | _ => None end, (es ++ es')%list)
  | (None, es) :: _ => (None, es)
  end.

(** The fields of an object, completed in order. *)
Fixpoint collect_obj (os : list (string * outcome)) : outcome :=
  match os with
  | [] => (Some (JObj []), [])
  | (k, (Some v, es)) :: os' =>
      let '(r, es') := collect_obj os' in
      (match r with Some (JObj fs) => Some (JObj ((k, v) :: fs)) | _ => None end, (es ++ es')%list)
  | (_, (None, es)) :: _ => (None, es)
  end.

Definition non_null_msg (parent f : string) : string :=
  "Cannot return null for non-nullable field " ++ parent ++ "." ++ f ++ ".".

Section Complete.
Variable sdl : list type_def.

(** The declared type of a field of an object type. *)
Definition field_type (parent f : string) : option tref :=
  match find_type sdl parent with
  | Some (ObjectDef _ fs) => option_map ftype (List.find (fun d => String.eqb (fname d) f) fs)
  | _ => None
  end.

(** [completeValue] for the wrappers and leaves of a type; [obj] completes
    a value of an object type with the fields selected under it. *)
Fixpoint complete_tref (obj : string -> jsval -> outcome) (parent f : string) (t : tref) (v : jsval)
  : outcome :=
  match t with
  | NonNull t' =>
      match complete_tref obj parent f t' v with
      | (Some JNull, es) =>
          (None, (es ++ [non_null_msg parent f])%list)
      | o => o
      end
  | ListOf t' =>
      if nullish v then (Some JNull, []) else
      match v with
      | JArr xs => collect_list (map (fun x => catch_nullable t' (complete_tref obj parent f t' x)) xs)
      | _ => err ("Expected Iterable, but did not find one for field " ++ quote (parent ++ "." ++ f) ++ ".")
      end
  | Named n =>
      if nullish v then (Some JNull, []) else
      match kind_of sdl n with
      | Some KScalar => serialize n v
      | Some KObject => obj n v
      | _ => err ("Cannot complete value of unexpected output type: " ++ quote n ++ ".")
      end
  end.

(** A selected field of [parent] whose resolved value is [v]. *)
Fixpoint complete_sel (s : selection) (parent : string) (v : jsval) : outcome :=
  match s with
  | Field f sub =>
      match field_type parent f with
      | None => err ("Cannot query field " ++ quote f ++ " on type " ++ quote parent ++ ".")
      | Some t =>
          catch_nullable t
            (complete_tref
               (fun n w => collect_obj (map (fun s' => (sel_name s', complete_sel s' n (resolve w (sel_name s')))) sub))
               parent f t v)
      end
  end.

(** ** What a completed value looks like *)

(** The values a scalar serializes to. *)
Definition scalar_ok (n : string) (r : jsval) : bool :=
  match r with
  | JNum z => if String.eqb n "Int" then int32 z else String.eqb n "Float"
  | JStr _ => String.eqb n "String" || String.eqb n "ID"
  | JBool _ => String.eqb n "Boolean"
  | _ => false
  end.

(** A value of a type: no [null] in a non-null position, arrays for
    lists, a serialized scalar for a leaf, and [objok] for an object. *)
Fixpoint conforms_tref (objok : string -> jsval -> bool) (t : tref) (r : jsval) : bool :=
  match t with
  | NonNull t' => match r with JNull => false | _ => conforms_tref objok t' r end
  | ListOf t' =>
      match r with JNull => true | JArr xs => forallb (conforms_tref objok t') xs | _ => false end
  | Named n =>
      match r with
      | JNull => true
      | _ => match kind_of sdl n with
             | Some KScalar => scalar_ok n r
             | Some KObject => objok n r
             | _ => false
             end
      end
  end.

(** The members of an object are the selected fields, in order. *)
Fixpoint fields_ok (chk : selection -> jsval -> bool) (sub : list selection)
  (fs : list (string * jsval)) : bool :=
  match sub, fs with
  | [], [] => true
  | s' :: sub', (k, x) :: fs' => String.eqb k (sel_name s') && chk s' x && fields_ok chk sub' fs'
  | _, _ => false
  end.

(** The response to a selected field of [parent]: a value of the field's
    type whose objects have exactly the selected members. *)
Fixpoint conforms_sel (s : selection) (parent : string) (r : jsval) : bool :=
  match s with
  | Field f sub =>
      match field_type parent f with
      | None => false
      | Some t =>
          conforms_tref (fun n w =>
            match w with
            | JObj fs => fields_ok (fun s' x => conforms_sel s' n x) sub fs
            | _ => false
            end) t r
      end
  end.

End Complete.

(** ** Completion produces values of the field's type *)

Section Soundness.
Variable sdl : list type_def.

Lemma catch_nullable_some t o r es :
  catch_nullable t o = (Some r, es) -> o.1 = Some r \/ (r = JNull /\ is_non_null t = false).
Proof.
  intros H. destruct o as [[r'|] es']; cbn in *.
  - injection H as -> _. by left.
  - destruct (is_non_null t); [discriminate H|]. injection H as <- _. by right.
Qed.

Lemma conforms_null objok t : is_non_null t = false -> conforms_tref sdl objok t JNull = true.
Proof. by destruct t. Qed.

Lemma collect_list_some os r es :
  collect_list os = (Some r, es) -> exists rs, r = JArr rs /\ Forall2 (fun o x => o.1 = Some x) os rs.
Proof.
  revert r es. induction os as [|[[v|] es0] os IH]; intros r es H; cbn in H.
  - injection H as <- _. exists []. split; [done | constructor].
  - destruct (collect_list os) as [[r0|] es'] eqn:E; [|discriminate H].
    destruct r0; cbn in H; try discriminate H. injection H as <- _.
    destruct (IH _ _ eq_refl) as (rs & [= <-] & HF). eexists. split; [done | by constructor].
  - discriminate H.
Qed.

Lemma collect_obj_some os r es :
  collect_obj os = (Some r, es) ->
  exists fs, r = JObj fs /\ Forall2 (fun ko kv => kv.1 = ko.1 /\ ko.2.1 = Some kv.2) os fs.
Proof.
  revert r es. induction os as [|[k [[v|] es0]] os IH]; intros r es H; cbn in H.
  - injection H as <- _. exists []. split; [done | constructor].
  - destruct (collect_obj os) as [[r0|] es'] eqn:E; [|discriminate H].
    destruct r0; cbn in H; try discriminate H. injection H as <- _.
    destruct (IH _ _ eq_refl) as (fs & [= ->] & HF). exists ((k, v) :: fs). split; [done | by constructor].
  - discriminate H.
Qed.

Lemma forallb_Forall2_map {A} (g : A -> outcome) (p : jsval -> bool) xs rs :
  (forall x r, (g x).1 = Some r -> p r = true) ->
  Forall2 (fun o r => o.1 = Some r) (map g xs) rs -> forallb p rs = true.
Proof.
  intros Hg. revert rs. induction xs as [|x xs IH]; intros rs HF; inversion HF; subst; [done|].
  cbn. rewrite (Hg x); [by apply IH | done].
Qed.

Lemma kind_scalar n : kind_of sdl n = Some KScalar -> n ∈ scalars.
Proof.
  unfold kind_of. case_bool_decide; [done|]. by destruct (find_type sdl n) as [[]|].
Qed.

Lemma serialize_ok n v r es : n ∈ scalars -> serialize n v = (Some r, es) -> scalar_ok n r = true.
Proof.
  intros Hn. repeat (apply elem_of_cons in Hn as [->|Hn]); [..|by apply not_elem_of_nil in Hn];
    unfold serialize, serialize_int, serialize_string, serialize_id, serialize_boolean, serialize_float;
    cbn -[int32 inspect numeral]; intros H;
    repeat (case_match; simplify_eq/=); try done; by destruct b.
Qed.

(** [completeValue] on the wrappers and leaves. *)
Lemma complete_tref_sound obj objok parent f t v r es :
  (forall n w r es, obj n w = (Some r, es) -> objok n r = true) ->
  complete_tref sdl obj parent f t v = (Some r, es) -> conforms_tref sdl objok t r = true.
Proof.
  intros Hobj. revert v r es. induction t as [n|t IH|t IH]; intros v r es H; cbn in H.
  - destruct (nullish v); [by injection H as <- _|].
    destruct (kind_of sdl n) as [[]|] eqn:Hk; try discriminate H.
    + pose proof (serialize_ok n v r es (kind_scalar n Hk) H) as Hs.
      destruct r; cbn; rewrite ?Hk; done.
    + pose proof (Hobj _ _ _ _ H) as Ho. destruct r; cbn; rewrite ?Hk; done.
  - destruct (nullish v); [by injection H as <- _|].
    destruct v; try discriminate H.
    destruct (collect_list_some _ _ _ H) as (rs & -> & HF). cbn.
    eapply forallb_Forall2_map; [|exact HF].
    intros x r' Hx. cbn beta in Hx.
    destruct (catch_nullable t (complete_tref sdl obj parent f t x)) as [o1 es1] eqn:Ec; cbn in Hx; subst o1.
    apply catch_nullable_some in Ec as [Hx|[-> Hn]]; [|by apply conforms_null].
    destruct (complete_tref sdl obj parent f t x) as [o es'] eqn:E; cbn in Hx; subst o.
    eapply IH; exact E.
  - destruct (complete_tref sdl obj parent f t v) as [[r'|] es'] eqn:E; [|discriminate H].
    destruct r'; try discriminate H; injection H as <- _; cbn; eapply IH; exact E.
Qed.

Lemma fields_ok_intro n w sub fs :
  Forall (fun s => forall parent v r es, complete_sel sdl s parent v = (Some r, es) ->
                                       conforms_sel sdl s parent r = true) sub ->
  Forall2 (fun ko kv => kv.1 = ko.1 /\ ko.2.1 = Some kv.2)
    (map (fun s' => (sel_name s', complete_sel sdl s' n (resolve w (sel_name s')))) sub) fs ->
  fields_ok (fun s' x => conforms_sel sdl s' n x) sub fs = true.
Proof.
  revert fs. induction sub as [|s' sub IH]; intros fs Hs HF; inversion HF as [|ko [k x] ? fs' [Hk Hx] HF']; subst;
    [done|].
  apply Forall_cons in Hs as [Hs' Hs]. cbn in Hk, Hx |- *. subst k.
  rewrite String.eqb_refl. cbn.
  destruct (complete_sel sdl s' n (resolve w (sel_name s'))) as [o es0] eqn:E; cbn in Hx; subst o.
  rewrite (Hs' _ _ _ _ E). by apply IH.
Qed.

(** Type soundness of completion: whenever graphql-js completes a
    resolver's value for a selected field, the response is a value of the
    field's declared type ([null] only in nullable positions, 32-bit
    integers for [Int], strings for [String] and [ID]) whose objects have
    exactly the selected members, in order. *)
Theorem completion_well_typed s parent v r es :
  complete_sel sdl s parent v = (Some r, es) -> conforms_sel sdl s parent r = true.
Proof.
  revert parent v r es. induction s as [f sub IH] using selection_ind'.
  intros parent v r es H. cbn in H |- *. destruct (field_type sdl parent f) as [t|]; [|discriminate H].
  apply catch_nullable_some in H as [H|[-> Hn]]; [|by apply conforms_null].
  destruct (complete_tref _ _ _ _ _ _) as [o es'] eqn:E; cbn in H; subst o.
  eapply complete_tref_sound; [|exact E].
  intros n w r' es0 Ho. destruct (collect_obj_some _ _ _ Ho) as (fs & -> & HF).
  by apply fields_ok_intro with w.
Qed.

End Soundness.

(** ** The schema of schema.ts *)

(** [products(id)] resolves to [ProductService.getAll], whose value is
    the list of products, while its type is one [Product]: graphql-js reads
    the selected fields as properties of the array, finds [undefined] for
    the first non-null one, and answers [products: null] with that error,
    whatever the list holds. *)
Theorem products_list_null xs f sub rest :
  f ∈ ["_id"; "name"; "price"; "quantity"] ->
  complete_sel sdl (Field "products" (Field f sub :: rest)) "Query" (JArr xs)
  = (Some JNull, [non_null_msg "Product" f]).
Proof.
  intros Hf. repeat (apply elem_of_cons in Hf as [->|Hf]); [..|by apply not_elem_of_nil in Hf];
    reflexivity.
Qed.

End Execution.

Import Execution.

(** A product as the product service returns it. *)
Definition sample_product (price : Z) : jsval :=
  JObj [("_id", JStr "p1"); ("name", JStr "Pen"); ("price", JNum price); ("quantity", JNum 3)].

Definition products_q : selection := Field "products" [Field "name" []; Field "price" []].

Lemma completion_well_typed_witness :
  complete_sel Schema.Schema.sdl products_q "Query" (sample_product 5)
  = (Some (JObj [("name", JStr "Pen"); ("price", JNum 5)]), []) /\
  conforms_sel Schema.Schema.sdl products_q "Query" (JObj [("name", JStr "Pen"); ("price", JNum 5)]) = true.
Proof.
  split; [reflexivity|].
  apply (completion_well_typed Schema.Schema.sdl products_q "Query" (sample_product 5) _ []). reflexivity.
Defined.

