(* ===== verification/Validation.v ===== *)
(** The rules of graphql-js's [validate] that the selections of a
    one-field operation can break.  The gateway's operations declare one
    variable per argument of their field, so the rules on operations,
    fragments, variables and arguments hold of every one of them; what
    remains are FieldsOnCorrectTypeRule (a field the parent type does not
    declare) and ScalarLeafsRule (a leaf with a selection, or a field of
    another type without one), which graphql-js runs side by side on each
    field in document order, with the parent type that [TypeInfo] keeps:
    below a field whose named type is not an object type, or that is not
    declared, there is no parent type and neither rule reports.  Fields
    are not repeated within a selection, so OverlappingFieldsCanBeMerged
    has nothing to merge.  The suggestions' distance is proved equal to
    the optimal string alignment distance it computes ([measure_correct]),
    through the cells of its table ([cell], [table_row]), the rows its
    loop keeps ([measure_rows_spec]) and the bound that makes its early
    exit safe: a row's smallest cell is at least the smaller of the
    previous row's and one more than the row before it ([minrow_next]), so
    once a row is over the threshold the last cell is too
    ([early_exit]). *)

From Stdlib Require Import Sorting.Sorted.
From S2P Require Import Prelude Js Schema Execution.
Import Schema.Schema Execution.Execution.
Local Open Scope string_scope.

Module Validation.

(** ** Suggestions: [didYouMean], [suggestionList] and [LexicalDistance] *)

(** [toLowerCase] on the ASCII letters GraphQL names are made of. *)
Definition lower (c : ascii) : ascii :=
  let n := nat_of_ascii c in
  if Nat.leb 65 n && Nat.leb n 90 then ascii_of_nat (n + 32) else c.

Definition cost (x y : ascii) : nat := if Ascii.eqb x y then 0 else 1.

(** The cells [j = 1 .. |b|] of row [i] of [LexicalDistance.measure]'s
    table, whose cell [0] is [left]: [ai] is [a[i-1]], [aprev] is
    [a[i-2]] when [i > 1], [bprev] is [b[j-2]] when [j > 1], [up] and
    [upup] the rows [i-1] and [i-2]. *)
Fixpoint fill (ai : ascii) (aprev : option ascii) (b : list ascii) (bprev : option ascii) (j : nat)
  (up upup : list nat) (left : nat) : list nat :=
  match b with
  | [] => []
  | bj :: b' =>
      let c := Nat.min (Nat.min (nth j up 0 + 1) (left + 1)) (nth (j - 1) up 0 + cost ai bj) in
      let c := match aprev, bprev with
               | Some ap, Some bp =>
                   if Ascii.eqb ai bp && Ascii.eqb ap bj then Nat.min c (nth (j - 2) upup 0 + 1) else c
               | _, _ => c
               end in
      c :: fill ai aprev b' (Some bj) (S j) up upup c
  end.

Definition list_min (l : list nat) : nat := fold_left Nat.min l (hd 0 l).

(** The loop over the rows [i = 1 .. |a|]: [None] as soon as a row's
    smallest cell is over the threshold, the last row otherwise. *)
Fixpoint measure_rows (a : list ascii) (aprev : option ascii) (i : nat) (b : list ascii) (th : nat)
  (up upup : list nat) : option (list nat) :=
  match a with
  | [] => Some up
  | ai :: a' =>
      let cur := i :: fill ai aprev b None 1 up upup i in
      if Nat.ltb th (list_min cur) then None else measure_rows a' (Some ai) (S i) b th cur up
  end.

(** [new LexicalDistance(input).measure(opt, threshold)]: [0] for the
    same string, [1] for the same string up to case, otherwise the
    optimal-string-alignment distance of the lowercased strings when it
    is at most the threshold. *)
Definition measure (input opt : string) (th : nat) : option nat :=
  if String.eqb input opt then Some 0 else
  let il := map lower (list_ascii_of_string input) in
  let ol := map lower (list_ascii_of_string opt) in
  if bool_decide (il = ol) then Some 1 else
  let '(a, b) := if Nat.ltb (List.length ol) (List.length il) then (il, ol) else (ol, il) in
  if Nat.ltb th (List.length a - List.length b) then None else
  match measure_rows a None 1 b th (seq 0 (S (List.length b))) [] with
  | Some row => let d := nth (List.length b) row 0 in if Nat.leb d th then Some d else None
  | None => None
  end.

Definition is_digit (c : ascii) : bool := Nat.leb 48 (nat_of_ascii c) && Nat.leb (nat_of_ascii c) 57.

(** The [do ... while (isDigit(c) && num > 0)] loop reading a number. *)
Fixpoint read_num (acc : nat) (s : list ascii) : nat * list ascii :=
  match s with
  | c :: s' => if is_digit c && Nat.ltb 0 acc then read_num (acc * 10 + (nat_of_ascii c - 48)) s' else (acc, s)
  | [] => (acc, [])
  end.

(** The [while] loop of [naturalCompare]: runs of digits compare as
    numbers, other characters by code; [None] when either string ends.
    Each round consumes a character of [a], so [|a|] rounds suffice. *)
Fixpoint natural_loop (fuel : nat) (a b : list ascii) : option comparison :=
  match fuel, a, b with
  | S fuel', ca :: a', cb :: b' =>
      if is_digit ca && is_digit cb then
        let '(na, ra) := read_num (nat_of_ascii ca - 48) a' in
        let '(nb, rb) := read_num (nat_of_ascii cb - 48) b' in
        match Nat.compare na nb with
        | Eq => natural_loop fuel' ra rb
        | o => Some o
        end
      else
        match Nat.compare (nat_of_ascii ca) (nat_of_ascii cb) with
        | Eq => natural_loop fuel' a' b'
        | o => Some o
        end
  | _, _, _ => None
  end.

(** [naturalCompare(a, b)], by its sign; past the loop it compares the
    strings' lengths. *)
Definition natural_compare (a b : string) : comparison :=
  let la := list_ascii_of_string a in
  match natural_loop (S (List.length la)) la (list_ascii_of_string b) with
  | Some o => o
  | None => Nat.compare (String.length a) (String.length b)
  end.

(** The comparator of [suggestionList]'s sort: distance, then
    [naturalCompare]. *)
Definition suggestion_le (x y : string * nat) : bool :=
  match Nat.compare x.2 y.2 with
  | Lt => true
  | Gt => false
  | Eq => match natural_compare x.1 y.1 with Gt => false | _ => true end
  end.

(** [Array.prototype.sort] is stable: an insertion sort that places an
    element after those it does not precede. *)
Fixpoint insert_sorted (x : string * nat) (l : list (string * nat)) : list (string * nat) :=
  match l with
  | [] => [x]
  | y :: l' => if suggestion_le y x then y :: insert_sorted x l' else x :: l
  end.

Definition sort_suggestions (l : list (string * nat)) : list (string * nat) :=
  fold_right insert_sorted [] (rev l).

(** [suggestionList(input, options)]: the options within the threshold
    [Math.floor(input.length * 0.4) + 1] (as [2 * length / 5], which the
    floating-point product rounds to for every length), closest first. *)
Definition suggestion_list (input : string) (options : list string) : list string :=
  let th := 2 * String.length input / 5 + 1 in
  map fst (sort_suggestions (omap (fun o => option_map (fun d => (o, d)) (measure input o th)) options)).

(** [didYouMean(suggestions)]: at most five, quoted. *)
Definition did_you_mean (sugg : list string) : string :=
  match map quote sugg with
  | [] => ""
  | [s] => " Did you mean " ++ s ++ "?"
  | [s; t] => " Did you mean " ++ s ++ " or " ++ t ++ "?"
  | qs => let sel := firstn 5 qs in
          " Did you mean " ++ String.concat ", " (removelast sel) ++ ", or " ++ List.last sel "" ++ "?"
  end.

(** The reference: optimal string alignment distance, peeling the last
    characters (the lists are reversed). *)
Fixpoint osa (a : list ascii) : list ascii -> nat :=
  match a with
  | [] => fun b => List.length b
  | x :: a' =>
      fix inner (b : list ascii) : nat :=
        match b with
        | [] => S (List.length a')
        | y :: b' =>
            let c := Nat.min (Nat.min (osa a' b + 1) (inner b' + 1)) (osa a' b' + cost x y) in
            match a', b' with
            | x' :: a'', y' :: b'' =>
                if Ascii.eqb x y' && Ascii.eqb x' y then Nat.min c (osa a'' b'' + 1) else c
            | _, _ => c
            end
        end
  end.

(** What [LexicalDistance.measure] promises: [0] for the same string, [1]
    for the same string up to case, otherwise the optimal string
    alignment distance of the lowercased strings when it is at most the
    threshold. *)
Definition measure_ref (input opt : string) (th : nat) : option nat :=
  if String.eqb input opt then Some 0 else
  let il := map lower (list_ascii_of_string input) in
  let ol := map lower (list_ascii_of_string opt) in
  if bool_decide (il = ol) then Some 1 else
  let d := osa (rev il) (rev ol) in if Nat.leb d th then Some d else None.

Definition prev {T} (l : list T) (i : nat) : option T :=
  match i with 0 => None | S i' => l !! i' end.

Section Table_defs.
Variables A B : list ascii.

(** Cell [(i, j)] of [LexicalDistance.measure]'s table: the distance of
    the first [i] characters of [A] and the first [j] of [B]. *)
Definition cell (i j : nat) : nat := osa (rev (take i A)) (rev (take j B)).

(** The rows of the table, and the smallest cell of a row. *)
Definition table_row (i : nat) : list nat := map (cell i) (seq 0 (S (List.length B))).

Definition row_min (k : nat) : nat := list_min (table_row k).

End Table_defs.

Section Validate.
Variable sdl : list type_def.

(** [isLeafType] and [isCompositeType] of a named type. *)
Definition is_leaf (n : string) : bool :=
  match kind_of sdl n with Some KScalar => true | _ => false end.
Definition is_composite (n : string) : bool :=
  match kind_of sdl n with Some KObject => true | _ => false end.

(** FieldsOnCorrectTypeRule's message, with the fields of [parent] whose
    names are close (an object type has no inline-fragment suggestion). *)
Definition unknown_field_msg (parent f : string) : string :=
  "Cannot query field " ++ quote f ++ " on type " ++ quote parent ++ "."
  ++ did_you_mean (suggestion_list f (fields_of sdl parent)).

(** ScalarLeafsRule's two messages. *)
Definition leaf_selection_msg (f : string) (t : tref) : string :=
  "Field " ++ quote f ++ " must not have a selection since type " ++ quote (print_tref t)
  ++ " has no subfields.".
Definition missing_selection_msg (f : string) (t : tref) : string :=
  "Field " ++ quote f ++ " of type " ++ quote (print_tref t)
  ++ " must have a selection of subfields. Did you mean " ++ quote (f ++ " { ... }") ++ "?".

(** ScalarLeafsRule on a declared field of type [t]. *)
Definition scalar_leafs (f : string) (t : tref) (sub : list selection) : list string :=
  if is_leaf (named_type t)
  then match sub with [] => [] | _ => [leaf_selection_msg f t] end
  else match sub with [] => [missing_selection_msg f t] | _ => [] end.

(** The errors of a field selected on [parent], then those of the fields
    under it. *)
Fixpoint validate_sel (parent : string) (s : selection) : list string :=
  match s with
  | Field f sub =>
      match field_type sdl parent f with
      | None => [unknown_field_msg parent f]
      | Some t =>
          (scalar_leafs f t sub ++
           if is_composite (named_type t)
           then List.concat (map (validate_sel (named_type t)) sub)
           else [])%list
      end
  end.

End Validate.

(** ** Fuel *)

Lemma read_num_length acc s : List.length (read_num acc s).2 <= List.length s.
Proof.
  revert acc. induction s as [|c s IH]; intros acc; simpl; [lia|].
  destruct (is_digit c && Nat.ltb 0 acc); simpl; [rewrite IH|]; lia.
Qed.

(** Each round of [naturalCompare]'s loop consumes a character of its
    first string: any fuel above its length gives the same result. *)
Lemma natural_loop_fuel n m a b :
  List.length a < n -> List.length a < m -> natural_loop n a b = natural_loop m a b.
Proof.
  revert m a b. induction n as [|n IH]; intros m a b Hn Hm; [lia|].
  destruct m as [|m]; [lia|]. destruct a as [|ca a], b as [|cb b]; cbn in *; try done.
  destruct (is_digit ca && is_digit cb).
  - pose proof (read_num_length (nat_of_ascii ca - 48) a) as Ha.
    destruct (read_num _ a) as [na ra], (read_num _ b) as [nb rb]; cbn in Ha.
    destruct (Nat.compare na nb); try done. apply IH; lia.
  - destruct (Nat.compare _ _); try done. apply IH; lia.
Qed.

(** ** [LexicalDistance] computes the optimal string alignment distance *)


Lemma osa_nil_l b : osa [] b = List.length b.
Proof. done. Qed.
Lemma osa_nil_r a : osa a [] = List.length a.
Proof. by destruct a. Qed.

Lemma osa_cons x a y b :
  osa (x :: a) (y :: b)
  = let c := Nat.min (Nat.min (osa a (y :: b) + 1) (osa (x :: a) b + 1)) (osa a b + cost x y) in
    match a, b with
    | x' :: a'', y' :: b'' =>
        if Ascii.eqb x y' && Ascii.eqb x' y then Nat.min c (osa a'' b'' + 1) else c
    | _, _ => c
    end.
Proof. done. Qed.

Lemma cost_sym x y : cost x y = cost y x.
Proof. unfold cost. by rewrite Ascii.eqb_sym. Qed.

Lemma osa_sym_n n a b : List.length a + List.length b <= n -> osa a b = osa b a.
Proof.
  revert a b. induction n as [|n IH]; intros a b Hn.
  - destruct a, b; cbn in *; try lia; done.
  - destruct a as [|x a], b as [|y b]; [done| by rewrite osa_nil_r | by rewrite osa_nil_r |].
    rewrite !osa_cons. cbn in Hn.
    rewrite (IH a (y :: b)) by (cbn; lia). rewrite (IH (x :: a) b) by (cbn; lia).
    rewrite (IH a b) by lia. rewrite (cost_sym x y).
    assert (Hm : forall p q r : nat, Nat.min (Nat.min p q) r = Nat.min (Nat.min q p) r) by lia.
    rewrite (Hm (osa (y :: b) a + 1)).
    destruct a as [|x' a''], b as [|y' b'']; cbn zeta; try done.
    rewrite (IH a'' b'') by (cbn in Hn; lia).
    destruct (Ascii.eqb_spec x y'), (Ascii.eqb_spec x' y), (Ascii.eqb_spec y x'), (Ascii.eqb_spec y' x);
      subst; cbn; congruence.
Qed.

Lemma osa_sym a b : osa a b = osa b a.
Proof. by apply (osa_sym_n (List.length a + List.length b)). Qed.

Lemma osa_length_diff_n n a b :
  List.length a + List.length b <= n -> List.length a - List.length b <= osa a b.
Proof.
  revert a b. induction n as [|n IH]; intros a b Hn.
  - destruct a, b; cbn in *; lia.
  - destruct a as [|x a], b as [|y b]; [cbn; lia | cbn; lia | rewrite osa_nil_r; cbn; lia |].
    rewrite osa_cons. cbn in Hn |- *.
    pose proof (IH a (y :: b) ltac:(cbn; lia)) as H1. pose proof (IH (x :: a) b ltac:(cbn; lia)) as H2.
    pose proof (IH a b ltac:(lia)) as H3. cbn in H1, H2.
    destruct a as [|x' a''], b as [|y' b'']; cbn in *; try lia.
    pose proof (IH a'' b'' ltac:(lia)) as H4.
    destruct (Ascii.eqb x y' && Ascii.eqb x' y); lia.
Qed.

Lemma osa_length_diff a b : List.length a - List.length b <= osa a b.
Proof. by apply (osa_length_diff_n (List.length a + List.length b)). Qed.


Lemma fold_min_le_init l m : fold_left Nat.min l m <= m.
Proof. revert m. induction l as [|x l IH]; intros m; cbn; [lia|]. specialize (IH (Nat.min m x)). lia. Qed.

Lemma fold_min_le l m x : In x l -> fold_left Nat.min l m <= x.
Proof.
  revert m. induction l as [|y l IH]; intros m H; [done|]. cbn.
  destruct H as [->|H]; [|by apply IH].
  pose proof (fold_min_le_init l (Nat.min m x)). lia.
Qed.

Lemma fold_min_in l m : fold_left Nat.min l m = m \/ In (fold_left Nat.min l m) l.
Proof.
  revert m. induction l as [|y l IH]; intros m; [by left|]. cbn.
  destruct (IH (Nat.min m y)) as [->|H]; [|by right; right].
  destruct (Nat.min_spec m y) as [[_ ->]|[_ ->]]; [by left | by right; left].
Qed.

Lemma list_min_le l x : In x l -> list_min l <= x.
Proof. apply fold_min_le. Qed.

Lemma list_min_in l : l <> [] -> In (list_min l) l.
Proof.
  unfold list_min. destruct l as [|y l]; [done|]. intros _. cbn.
  destruct (fold_min_in l (Nat.min y y)) as [->|H]; [left; lia | by right].
Qed.

Section Table.
Variables A B : list ascii.
Local Abbreviation D := (cell A B).
Local Abbreviation row := (table_row A B).
Local Abbreviation minrow := (row_min A B).



Lemma rev_take_S {T} (l : list T) i x : l !! i = Some x -> rev (take (S i) l) = x :: rev (take i l).
Proof. intros H. rewrite (take_S_r _ _ x H), rev_app_distr. done. Qed.

Lemma D_0_l j : j <= List.length B -> D 0 j = j.
Proof. intros Hj. unfold cell. rewrite osa_nil_l, length_rev, length_take. lia. Qed.

Lemma D_0_r i : i <= List.length A -> D i 0 = i.
Proof. intros Hi. unfold cell. rewrite take_0. cbn [rev]. rewrite osa_nil_r, length_rev, length_take. lia. Qed.


Lemma D_step i j x y :
  A !! i = Some x -> B !! j = Some y ->
  D (S i) (S j)
  = let c := Nat.min (Nat.min (D i (S j) + 1) (D (S i) j + 1)) (D i j + cost x y) in
    match prev A i, prev B j with
    | Some x', Some y' => if Ascii.eqb x y' && Ascii.eqb x' y then Nat.min c (D (i - 1) (j - 1) + 1) else c
    | _, _ => c
    end.
Proof.
  intros Hx Hy. unfold cell. rewrite (rev_take_S A i x Hx), (rev_take_S B j y Hy), osa_cons.
  cbn zeta. destruct i as [|i'], j as [|j']; cbn [prev]; try reflexivity.
  - by destruct (rev (take (S i') A)), (A !! i').
  - destruct (A !! i') as [x'|] eqn:Ex'; [|exfalso; apply lookup_lt_Some in Hx; apply lookup_ge_None_1 in Ex'; lia].
    destruct (B !! j') as [y'|] eqn:Ey'; [|exfalso; apply lookup_lt_Some in Hy; apply lookup_ge_None_1 in Ey'; lia].
    rewrite (rev_take_S A i' x' Ex'), (rev_take_S B j' y' Ey'). cbn. by rewrite !Nat.sub_0_r.
Qed.


Lemma nth_row i k : k <= List.length B -> nth k (row i) 0 = D i k.
Proof.
  intros Hk. unfold table_row. rewrite (nth_indep _ 0 (D i 0)) by (rewrite length_map, length_seq; lia).
  rewrite map_nth, seq_nth by lia. done.
Qed.

Lemma fill_spec i x bs j left upup :
  A !! i = Some x -> drop j B = bs -> left = D (S i) j ->
  (forall x', prev A i = Some x' -> upup = row (i - 1)) ->
  fill x (prev A i) bs (prev B j) (S j) (row i) upup left = map (D (S i)) (seq (S j) (List.length bs)).
Proof.
  revert j left. induction bs as [|y bs IH]; intros j left Hx Hd Hl Hup; [done|].
  assert (Hy : B !! j = Some y) by (rewrite <- (Nat.add_0_r j), <- lookup_drop, Hd; done).
  assert (Hj : S j <= List.length B) by (apply lookup_lt_Some in Hy; lia).
  cbn [fill]. rewrite (nth_row i (S j)) by done. rewrite (nth_row i (S j - 1)) by lia.
  replace (S j - 1) with j by lia. subst left.
  assert (Hc : (let c := Nat.min (Nat.min (D i (S j) + 1) (D (S i) j + 1)) (D i j + cost x y) in
                match prev A i, prev B j with
                | Some ap, Some bp =>
                    if Ascii.eqb x bp && Ascii.eqb ap y then Nat.min c (nth (S j - 2) upup 0 + 1) else c
                | _, _ => c
                end) = D (S i) (S j)).
  { rewrite (D_step i j x y Hx Hy). cbn zeta.
    destruct (prev A i) as [x'|] eqn:Ea, (prev B j) as [y'|] eqn:Eb; try done.
    rewrite (Hup x' eq_refl). destruct j as [|j']; [done|]. rewrite nth_row by lia.
    by replace (S (S j') - 2) with (S j' - 1) by lia. }
  cbv zeta in Hc |- *. rewrite Hc. cbn [List.length seq map]. f_equal.
  replace (Some y) with (prev B (S j)) by done.
  apply IH; [done | | done | done]. replace (S j) with (j + 1) by lia. rewrite <- drop_drop, Hd. done.
Qed.


Lemma row_0 : row 0 = seq 0 (S (List.length B)).
Proof.
  unfold table_row. rewrite <- (map_id (seq 0 (S (List.length B)))) at 2. apply map_ext_in.
  intros j Hj%in_seq. apply D_0_l. lia.
Qed.

Lemma cur_row i x upup :
  A !! i = Some x -> (forall x', prev A i = Some x' -> upup = row (i - 1)) ->
  S i :: fill x (prev A i) B None 1 (row i) upup (S i) = row (S i).
Proof.
  intros Hx Hup. assert (Hi : S i <= List.length A) by (apply lookup_lt_Some in Hx; lia).
  change (fill x (prev A i) B None 1 (row i) upup (S i))
    with (fill x (prev A i) B (prev B 0) (S 0) (row i) upup (S i)).
  rewrite (fill_spec i x B 0 (S i) upup Hx (drop_0 B)) by (done || by rewrite D_0_r).
  unfold table_row. cbn [seq map]. by rewrite D_0_r.
Qed.

Lemma measure_rows_spec k i th upup :
  List.length A - i = k -> i <= List.length A ->
  (forall x', prev A i = Some x' -> upup = row (i - 1)) ->
  measure_rows (drop i A) (prev A i) (S i) B th (row i) upup
  = if forallb (fun m => Nat.leb (list_min (row m)) th) (seq (S i) k) then Some (row (List.length A)) else None.
Proof.
  revert i upup. induction k as [|k IH]; intros i upup Hk Hi Hup.
  - replace i with (List.length A) by lia. by rewrite drop_ge.
  - destruct (A !! i) as [x|] eqn:Hx; [|apply lookup_ge_None_1 in Hx; lia].
    rewrite (drop_S A x i Hx). cbn [measure_rows seq forallb].
    rewrite (cur_row i x upup Hx Hup).
    destruct (Nat.ltb_spec th (list_min (row (S i)))) as [Hlt|Hge].
    + apply Nat.leb_gt in Hlt. by rewrite Hlt.
    + apply Nat.leb_le in Hge. rewrite Hge. cbn [andb].
      replace (Some x) with (prev A (S i)) by done.
      apply IH; [lia | lia |]. intros x' _. by replace (S i - 1) with i by lia.
Qed.



Lemma minrow_le k j : j <= List.length B -> minrow k <= D k j.
Proof. intros Hj. apply list_min_le. unfold table_row. apply in_map, in_seq. lia. Qed.

Lemma minrow_at k : exists j, j <= List.length B /\ minrow k = D k j.
Proof.
  assert (Hin : In (minrow k) (row k)) by (apply list_min_in; unfold table_row; cbn; done).
  unfold row in Hin. apply in_map_iff in Hin as (j & Hj & Hs%in_seq). exists j. split; [lia | done].
Qed.

Lemma D_up k j : 1 <= k <= List.length A -> j <= List.length B -> D k j <= D (k - 1) j + 1.
Proof.
  intros Hk Hj. destruct k as [|i]; [lia|]. replace (S i - 1) with i by lia.
  destruct j as [|j]; [rewrite !D_0_r by lia; lia|].
  destruct (A !! i) as [x|] eqn:Hx; [|apply lookup_ge_None_1 in Hx; lia].
  destruct (B !! j) as [y|] eqn:Hy; [|apply lookup_ge_None_1 in Hy; lia].
  rewrite (D_step i j x y Hx Hy). cbn zeta.
  destruct (prev A i), (prev B j); try destruct (Ascii.eqb _ _ && Ascii.eqb _ _); lia.
Qed.

Lemma minrow_up k : 1 <= k <= List.length A -> minrow k <= minrow (k - 1) + 1.
Proof.
  intros Hk. destruct (minrow_at (k - 1)) as (j & Hj & ->).
  pose proof (minrow_le k j Hj). pose proof (D_up k j Hk Hj). lia.
Qed.

Lemma D_next_ge k j : 1 <= k -> S k <= List.length A -> j <= List.length B ->
  Nat.min (minrow k) (minrow (k - 1) + 1) <= D (S k) j.
Proof.
  intros Hk HkA. induction j as [|j IH]; intros Hj.
  - rewrite D_0_r by lia. pose proof (minrow_le k 0 ltac:(lia)). rewrite D_0_r in * by lia. lia.
  - destruct (A !! k) as [x|] eqn:Hx; [|apply lookup_ge_None_1 in Hx; lia].
    destruct (B !! j) as [y|] eqn:Hy; [|apply lookup_ge_None_1 in Hy; lia].
    rewrite (D_step k j x y Hx Hy). cbn zeta.
    pose proof (IH ltac:(lia)). pose proof (minrow_le k (S j) Hj). pose proof (minrow_le k j ltac:(lia)).
    pose proof (minrow_le (k - 1) (j - 1) ltac:(lia)).
    destruct (prev A k), (prev B j); try destruct (Ascii.eqb _ _ && Ascii.eqb _ _); lia.
Qed.

Lemma minrow_next k : 1 <= k -> S k <= List.length A ->
  Nat.min (minrow k) (minrow (k - 1) + 1) <= minrow (S k).
Proof.
  intros Hk HkA. destruct (minrow_at (S k)) as (j & Hj & ->). by apply D_next_ge.
Qed.

(** Once a row's smallest cell is over the threshold, so is the last
    cell of the table: stopping early does not change the answer. *)
Lemma early_exit k th :
  1 <= k <= List.length A -> th < minrow k -> th < D (List.length A) (List.length B).
Proof.
  intros Hk Hth.
  assert (Hinv : forall m, k <= m <= List.length A -> th < minrow m /\ th < minrow (m - 1) + 1).
  { intros m [Hkm HmA]. induction m as [|m IHm]; [lia|].
    destruct (decide (k = S m)) as [<-|Hne].
    - pose proof (minrow_up k Hk). lia.
    - destruct IHm as [H1 H2]; [lia|lia|].
      pose proof (minrow_next m ltac:(lia) HmA). replace (S m - 1) with m by lia. lia. }
  destruct (Hinv (List.length A) ltac:(lia)) as [H _].
  pose proof (minrow_le (List.length A) (List.length B) ltac:(lia)). lia.
Qed.

End Table.

Lemma forallb_false_ex {T} (f : T -> bool) l : forallb f l = false -> exists x, In x l /\ f x = false.
Proof.
  induction l as [|x l IH]; [done|]. cbn. destruct (f x) eqn:E; cbn; [|by exists x; split; [left|]].
  intros H. destruct (IH H) as (y & Hy & Hf). exists y. split; [by right|done].
Qed.

Lemma D_full A B : cell A B (List.length A) (List.length B) = osa (rev A) (rev B).
Proof. unfold cell. by rewrite !take_ge by lia. Qed.

Lemma measure_tail A B th :
  (if Nat.ltb th (List.length A - List.length B) then None else
   match measure_rows A None 1 B th (seq 0 (S (List.length B))) [] with
   | Some row => let d := nth (List.length B) row 0 in if Nat.leb d th then Some d else None
   | None => None
   end)
  = let d := osa (rev A) (rev B) in if Nat.leb d th then Some d else None.
Proof.
  cbv zeta. rewrite <- (row_0 A B), <- D_full.
  destruct (Nat.ltb_spec th (List.length A - List.length B)) as [Hlt|Hge].
  - pose proof (osa_length_diff (rev A) (rev B)) as Hd. rewrite !length_rev, <- D_full in Hd.
    destruct (Nat.leb_spec (cell A B (List.length A) (List.length B)) th); [lia|done].
  - rewrite <- (drop_0 A) at 1. change (@None ascii) with (prev A 0). change 1 with (S 0).
    rewrite (measure_rows_spec A B (List.length A) 0 th [] ltac:(lia) ltac:(lia) ltac:(done)).
    destruct (forallb _ _) eqn:Hall.
    + by rewrite (nth_row A B) by done.
    + apply forallb_false_ex in Hall as (m & Hm%in_seq & Hlt). apply Nat.leb_gt in Hlt.
      pose proof (early_exit A B m th ltac:(lia) ltac:(unfold row_min; lia)).
      destruct (Nat.leb_spec (cell A B (List.length A) (List.length B)) th); [lia|done].
Qed.

(** [LexicalDistance.measure]'s two-row table with its early exit
    computes what it promises: for every input, option and threshold it
    gives the optimal string alignment distance of the lowercased strings
    (edits, and transpositions of adjacent characters) when it is at most
    the threshold and [undefined] otherwise, with [0] and [1] for the same
    string and the same string up to case. *)
Theorem measure_correct input opt th : measure input opt th = measure_ref input opt th.
Proof.
  unfold measure, measure_ref. destruct (String.eqb input opt); [done|].
  destruct (bool_decide _); [done|]. cbv zeta.
  destruct (Nat.ltb _ _); rewrite measure_tail; cbv zeta; [done|]. by rewrite osa_sym.
Qed.

Lemma insert_sorted_perm x l : insert_sorted x l ≡ₚ x :: l.
Proof.
  induction l as [|y l IH]; cbn; [done|].
  destruct (suggestion_le y x); [|done].
  etrans; [apply perm_skip, IH | apply perm_swap].
Qed.

(** The sort of [suggestionList] keeps its elements. *)
Lemma sort_suggestions_perm l : sort_suggestions l ≡ₚ l.
Proof.
  unfold sort_suggestions. etrans; [|symmetry; apply Permutation_rev].
  induction (rev l) as [|x m IH]; cbn; [done|]. by rewrite insert_sorted_perm, IH.
Qed.

(** [suggestionList] suggests exactly the options within the optimal
    string alignment threshold of the input. *)
Lemma suggestion_list_spec input options o :
  In o (suggestion_list input options) <->
  In o options /\ is_Some (measure_ref input o (2 * String.length input / 5 + 1)).
Proof.
  unfold suggestion_list. rewrite in_map_iff. split.
  - intros ([o' d] & <- & Hin). cbn.
    apply (Permutation_in _ (sort_suggestions_perm _)), list_elem_of_In, list_elem_of_omap in Hin
      as (y & Hy%list_elem_of_In & Hm).
    rewrite <- measure_correct. destruct (measure _ y _) eqn:E; simplify_eq/=. by rewrite E.
  - intros [Hin [d Hd]]. exists (o, d). split; [done|].
    apply (Permutation_in _ (Permutation_sym (sort_suggestions_perm _))), list_elem_of_In, list_elem_of_omap.
    exists o. split; [by apply list_elem_of_In|]. by rewrite measure_correct, Hd.
Qed.

(** ** The order of the suggestions *)

(** [naturalCompare]'s loop is antisymmetric on any fuel. *)
Lemma natural_loop_sym n a b : natural_loop n b a = option_map CompOpp (natural_loop n a b).
Proof.
  revert a b. induction n as [|n IH]; intros a b; [done|].
  destruct a as [|ca a], b as [|cb b]; cbn; try done.
  rewrite (andb_comm (is_digit cb)). destruct (is_digit ca && is_digit cb).
  - destruct (read_num _ a) as [na ra], (read_num _ b) as [nb rb].
    rewrite (Nat.compare_antisym na nb). destruct (Nat.compare na nb); cbn; [apply IH|done|done].
  - rewrite (Nat.compare_antisym (nat_of_ascii ca)). destruct (Nat.compare _ _); cbn; [apply IH|done|done].
Qed.

Lemma natural_compare_sym a b : natural_compare b a = CompOpp (natural_compare a b).
Proof.
  unfold natural_compare.
  set (la := list_ascii_of_string a). set (lb := list_ascii_of_string b).
  rewrite (natural_loop_fuel (S (List.length lb)) (S (List.length la + List.length lb)) lb la) by lia.
  rewrite (natural_loop_fuel (S (List.length la)) (S (List.length la + List.length lb)) la lb) by lia.
  rewrite (natural_loop_sym _ la lb). destruct (natural_loop _ la lb); [done|]. apply Nat.compare_antisym.
Qed.

(** The comparator of the sort is total. *)
Lemma suggestion_le_total x y : suggestion_le y x = false -> suggestion_le x y = true.
Proof.
  unfold suggestion_le. rewrite (Nat.compare_antisym x.2 y.2), (natural_compare_sym x.1 y.1).
  intros H. destruct (Nat.compare x.2 y.2), (natural_compare x.1 y.1); cbn in *; congruence.
Qed.

Lemma suggestion_le_dist x y : suggestion_le x y = true -> x.2 <= y.2.
Proof. unfold suggestion_le. destruct (Nat.compare_spec x.2 y.2); intros Hle; [lia|lia|discriminate]. Qed.

Lemma insert_sorted_hd y x l :
  HdRel (fun p q => suggestion_le p q = true) y l -> suggestion_le y x = true ->
  HdRel (fun p q => suggestion_le p q = true) y (insert_sorted x l).
Proof.
  intros Hh Hyx. destruct l as [|z l]; cbn; [by constructor|].
  destruct (suggestion_le z x); constructor; [by inversion Hh | done].
Qed.

Lemma insert_sorted_sorted x l :
  Sorted (fun p q => suggestion_le p q = true) l ->
  Sorted (fun p q => suggestion_le p q = true) (insert_sorted x l).
Proof.
  induction l as [|y l IH]; intros Hs; cbn; [by repeat constructor|].
  apply Sorted_inv in Hs as [Hl Hh]. destruct (suggestion_le y x) eqn:E.
  - constructor; [by apply IH | by apply insert_sorted_hd].
  - constructor; [by constructor | constructor; by apply suggestion_le_total].
Qed.

(** The stable sort of [suggestionList] sorts by its comparator. *)
Lemma sort_suggestions_sorted l : Sorted (fun p q => suggestion_le p q = true) (sort_suggestions l).
Proof.
  unfold sort_suggestions. induction (rev l); cbn; [constructor | by apply insert_sorted_sorted].
Qed.

Lemma sorted_fst (dist : string -> nat) (l : list (string * nat)) :
  List.Forall (fun p => dist p.1 = p.2) l -> Sorted (fun p q => suggestion_le p q = true) l ->
  Sorted (fun o o' => dist o <= dist o') (map fst l).
Proof.
  induction l as [|[o d] l IH]; intros Hf Hs; cbn; [constructor|].
  inversion Hf as [|? ? Hd Hf']; subst. apply Sorted_inv in Hs as [Hs Hh].
  constructor; [by apply IH|]. destruct l as [|[o' d'] l]; cbn; constructor.
  inversion Hf' as [|? ? Hd' _]; subst. apply HdRel_inv, suggestion_le_dist in Hh. cbn in *. lia.
Qed.

Lemma fst_omap_pairs (m : string -> option nat) options :
  map fst (omap (fun o => option_map (fun d => (o, d)) (m o)) options)
  = List.filter (fun o => match m o with Some _ => true | None => false end) options.
Proof. induction options as [|o options IH]; cbn; [done|]. destruct (m o); cbn; by rewrite IH. Qed.

(** [suggestionList] repeats no option of a list without repeats. *)
Lemma suggestion_list_nodup input options : NoDup options -> NoDup (suggestion_list input options).
Proof.
  intros Hn. unfold suggestion_list.
  rewrite (Permutation_map fst (sort_suggestions_perm _)), fst_omap_pairs.
  by apply NoDup_ListNoDup, List.NoDup_filter, NoDup_ListNoDup.
Qed.

(** [suggestionList] puts the closest options first. *)
Lemma suggestion_list_sorted input options :
  let th := 2 * String.length input / 5 + 1 in
  Sorted (fun o o' => default 0 (measure_ref input o th) <= default 0 (measure_ref input o' th))
         (suggestion_list input options).
Proof.
  cbv zeta. unfold suggestion_list. apply sorted_fst; [|apply sort_suggestions_sorted].
  apply List.Forall_forall. intros [o d] Hin. cbn.
  apply (Permutation_in _ (sort_suggestions_perm _)), list_elem_of_In, list_elem_of_omap in Hin
    as (y & _ & Hm).
  rewrite <- measure_correct. destruct (measure _ y _) eqn:E; simplify_eq/=. by rewrite E.
Qed.

(** For any field name (the rule asks for suggestions when the
    gateway's [Query] type does not declare it), FieldsOnCorrectTypeRule's
    [suggestionList] keeps exactly the root fields of schema.ts whose
    optimal string alignment distance to it, ignoring case, is within
    [Math.floor(0.4 * length) + 1] (or that are the same name up to
    case), each once, closest first. *)
Theorem query_field_suggestions f :
  let th := 2 * String.length f / 5 + 1 in
  let sugg := suggestion_list f (fields_of sdl "Query") in
  (forall o, In o sugg <-> In o ["users"; "user"; "products"; "orders"; "order"] /\
                           is_Some (measure_ref f o th)) /\
  NoDup sugg /\
  Sorted (fun o o' => default 0 (measure_ref f o th) <= default 0 (measure_ref f o' th)) sugg.
Proof.
  assert (E : fields_of sdl "Query" = ["users"; "user"; "products"; "orders"; "order"])
    by (vm_compute; reflexivity).
  cbv zeta. split_and!; [intros o; by rewrite suggestion_list_spec, E | | apply suggestion_list_sorted].
  apply suggestion_list_nodup. rewrite E. apply NoDup_ListNoDup. repeat constructor; cbn; intuition congruence.
Qed.

End Validation.
