(* ===== verification/Variables.v ===== *)
(** How graphql-js turns the [variables] of a request into the arguments
    a resolver receives: [coerceVariableValues] checks each variable the
    operation declares against its type with [coerceInputValue] (the
    scalars' [parseValue], input objects field by field, a single value
    where a list is expected read as a list of one), and reports every
    error with the path to the offending value.  An operation sends each
    argument of its top-level field as a variable of the argument's type
    ([query ($id: ID!) { user(id: $id) { ... } }]), so the coerced
    variables are the field's arguments.  Objects have distinct keys, as
    [JSON.parse] gives them.  A key that is no field of its input type is
    reported with graphql-js's suggestions ([Validation.did_you_mean]).
    [execute] stops with "Too many errors processing variables" at the
    51st error; that limit is not modelled, so the model reports every
    error of a request with more than fifty.  The second half proves coercion sound: a value coerced
    without error [conforms] to its type, and the coerced variables of a
    field are an arguments object of the field's types ([args_ok]). *)

From S2P Require Import Prelude Js Schema Execution Validation.
Import Schema.Schema Execution.Execution.
Local Open Scope string_scope.

Module Variables.

(** A step of the path to a value inside a variable. *)
Inductive pkey : Type := PIdx (i : nat) | PKey (k : string).

(** [printPathArray]: [[0]] for an index, [.k] for a key. *)
Definition print_path (p : list pkey) : string :=
  String.concat "" (map (fun k => match k with
                                  | PIdx i => "[" ++ string_of_Z (Z.of_nat i) ++ "]"
                                  | PKey k => "." ++ k
                                  end) p).

(** An error of [coerceInputValue]: where, the value found there, and the
    message. *)
Definition cerr : Type := (list pkey * jsval * string)%type.

(** The coerced value ([undefined] where coercion failed) and the errors. *)
Definition coerced : Type := (jsval * list cerr)%type.

(** The [parseValue] of the built-in scalars. *)
Definition parse_value (n : string) (v : jsval) : res jsval :=
  if String.eqb n "Int" then
    match v with
    | JNum z => if int32 z then Ok (JNum z)
                else Throw ("Int cannot represent non 32-bit signed integer value: " ++ string_of_Z z)
    | _ => Throw ("Int cannot represent non-integer value: " ++ inspect v)
    end
  else if String.eqb n "Float" then
    match v with JNum z => Ok (JNum z) | _ => Throw ("Float cannot represent non numeric value: " ++ inspect v) end
  else if String.eqb n "String" then
    match v with JStr s => Ok (JStr s) | _ => Throw ("String cannot represent a non string value: " ++ inspect v) end
  else if String.eqb n "Boolean" then
    match v with JBool b => Ok (JBool b) | _ => Throw ("Boolean cannot represent a non boolean value: " ++ inspect v) end
  else
    match v with
    | JStr s => Ok (JStr s)
    | JNum z => Ok (JStr (string_of_Z z))
    | _ => Throw ("ID cannot represent value: " ++ inspect v)
    end.

(** The items of a coerced list, and the fields of a coerced object. *)
Definition join_items (cs : list coerced) : coerced :=
  (JArr (map fst cs), List.concat (map snd cs)).

Definition join_fields (cs : list (option (string * jsval) * list cerr)) (extra : list cerr) : coerced :=
  (JObj (omap fst cs), (List.concat (map snd cs) ++ extra)%list).

(** The error of a key that is none of the fields [names] of the input
    type [n], with the suggestions of close field names. *)
Definition not_defined (path : list pkey) (v : jsval) (n : string) (names : list string) (k : string) : cerr :=
  (path, v, "Field " ++ quote k ++ " is not defined by type " ++ quote n ++ "."
            ++ Validation.did_you_mean (Validation.suggestion_list k names)).

Definition not_provided (path : list pkey) (v : jsval) (f : string) (t : tref) : cerr :=
  (path, v, "Field " ++ quote f ++ " of required type " ++ quote (print_tref t) ++ " was not provided.").

Section Coerce.
Variable sdl : list type_def.

(** The fields of an input type. *)
Definition input_fields (n : string) : option (list (string * tref)) :=
  match find_type sdl n with Some (InputDef _ fs) => Some fs | _ => None end.

(** [coerceInputValue(v, t)] at [path]: by recursion on the value, and on
    the type for the wrappers. *)
Fixpoint coerce_value (v : jsval) : tref -> list pkey -> coerced :=
  fix go (t : tref) (path : list pkey) {struct t} : coerced :=
  match t with
  | NonNull t' =>
      if nullish v
      then (JUndefined, [(path, v, "Expected non-nullable type " ++ quote (print_tref t) ++ " not to be null.")])
      else go t' path
  | ListOf t' =>
      if nullish v then (JNull, []) else
      match v with
      | JArr xs =>
          join_items ((fix items (i : nat) (xs : list jsval) : list coerced :=
                         match xs with
                         | [] => []
                         | x :: xs' => coerce_value x t' (path ++ [PIdx i])%list :: items (S i) xs'
                         end) 0 xs)
      | _ => let '(r, es) := go t' path in (JArr [r], es)
      end
  | Named n =>
      if nullish v then (JNull, []) else
      match kind_of sdl n, input_fields n with
      | Some KScalar, _ =>
          match parse_value n v with Ok r => (r, []) | Throw m => (JUndefined, [(path, v, m)]) end
      | _, Some defs =>
          match v with
          | JObj fs =>
              join_fields
                (map (fun d =>
                   match (fix find (fs : list (string * jsval)) : option coerced :=
                            match fs with
                            | [] => None
                            | (k, x) :: fs' =>
                                if String.eqb k d.1 then Some (coerce_value x d.2 (path ++ [PKey d.1])%list)
                                else find fs'
                            end) fs with
                   | Some c => (Some (d.1, c.1), c.2)
                   | None => (None, if is_non_null d.2 then [not_provided path v d.1 d.2] else [])
                   end) defs)
                (omap (fun kv => if bool_decide (kv.1 ∈ map fst defs) then None
                                 else Some (not_defined path v n (map fst defs) kv.1)) fs)
          | JArr xs =>
              (* an array is object-like: no field is found, and its indices
                 are keys no input type defines *)
              (JObj [],
               (omap (fun d => if is_non_null d.2 then Some (not_provided path v d.1 d.2) else None) defs ++
                map (fun i => not_defined path v n (map fst defs) (string_of_Z (Z.of_nat i))) (seq 0 (List.length xs)))%list)
          | _ => (JUndefined, [(path, v, "Expected type " ++ quote n ++ " to be an object.")])
          end
      | _, None => (JUndefined, [(path, v, "Unexpected input type: " ++ quote n ++ ".")])
      end
  end.

(** The message [coerceVariableValues] makes of an error of the variable
    [x]. *)
Definition var_error (x : string) (e : cerr) : string :=
  match e with
  | (path, invalid, msg) =>
      "Variable " ++ quote ("$" ++ x) ++ " got invalid value " ++ inspect invalid ++
      match path with [] => "" | _ => " at " ++ quote (x ++ print_path path) end ++ "; " ++ msg
  end.

(** [coerceVariableValues] for the variables [defs] of an operation and the
    [variables] object of the request: the coerced variables, in the
    order they are declared, and the errors. *)
Definition coerce_variables (defs : list (string * tref)) (vars : list (string * jsval))
  : list (string * jsval) * list string :=
  fold_right (fun d acc =>
    let '(x, t) := d in
    let '(cv, es) := acc in
    match field_lookup x vars with
    | None =>
        if is_non_null t
        then (cv, ("Variable " ++ quote ("$" ++ x) ++ " of required type " ++ quote (print_tref t)
                   ++ " was not provided.") :: es)
        else (cv, es)
    | Some JNull =>
        if is_non_null t
        then (cv, ("Variable " ++ quote ("$" ++ x) ++ " of non-null type " ++ quote (print_tref t)
                   ++ " must not be null.") :: es)
        else ((x, JNull) :: cv, es)
    | Some v =>
        let '(r, ces) := coerce_value v t [] in ((x, r) :: cv, (map (var_error x) ces ++ es)%list)
    end) ([], []) defs.

(** The arguments of a field of an object type, with their types. *)
Definition field_args (parent f : string) : option (list (string * tref)) :=
  match find_type sdl parent with
  | Some (ObjectDef _ fs) => option_map fargs (List.find (fun d => String.eqb (fname d) f) fs)
  | _ => None
  end.

End Coerce.

(** ** What a coerced value looks like *)

Section Soundness.
Variable sdl : list type_def.

(** The values [parseValue] gives for a built-in scalar. *)
Definition scalar_value (n : string) (r : jsval) : bool :=
  if String.eqb n "Int" then match r with JNum z => int32 z | _ => false end
  else if String.eqb n "Float" then match r with JNum _ => true | _ => false end
  else if String.eqb n "String" then match r with JStr _ => true | _ => false end
  else if String.eqb n "Boolean" then match r with JBool _ => true | _ => false end
  else match r with JStr _ => true | _ => false end.

(** The type of the field [k] of an input object. *)
Definition tref_of (k : string) (defs : list (string * tref)) : option tref :=
  option_map snd (List.find (fun d => String.eqb d.1 k) defs).

(** Every non-null field of [defs] is present in [fs]. *)
Definition required_present (defs : list (string * tref)) (fs : list (string * jsval)) : bool :=
  forallb (fun d => negb (is_non_null d.2) || bool_decide (is_Some (field_lookup d.1 fs))) defs.

(** A value of an input type: no [null] in a non-null position, an array
    of values for a list, a value [parseValue] can give for a scalar, and
    for an input object an object whose keys are fields, each with a value
    of its type, and which has every non-null field. *)
Fixpoint conforms (v : jsval) : tref -> bool :=
  fix go (t : tref) : bool :=
  match t with
  | NonNull t' => negb (nullish v) && go t'
  | ListOf t' =>
      match v with
      | JNull => true
      | JArr xs => (fix items (xs : list jsval) : bool :=
                      match xs with [] => true | x :: xs' => conforms x t' && items xs' end) xs
      | _ => false
      end
  | Named n =>
      match v with
      | JNull => true
      | _ =>
          match kind_of sdl n, input_fields sdl n with
          | Some KScalar, _ => scalar_value n v
          | _, Some defs =>
              match v with
              | JObj fs =>
                  (fix fields (fs : list (string * jsval)) : bool :=
                     match fs with
                     | [] => true
                     | (k, x) :: fs' =>
                         match tref_of k defs with Some ft => conforms x ft | None => false end && fields fs'
                     end) fs && required_present defs fs
              | _ => false
              end
          | _, _ => false
          end
      end
  end.

(** The arguments of a field, coerced without error, have the declared
    types, and every non-null one is present. *)
Definition args_ok (defs : list (string * tref)) (args : list (string * jsval)) : bool :=
  forallb (fun kv => match tref_of kv.1 defs with Some t => conforms kv.2 t | None => false end) args
  && required_present defs args.

(** The input types of [sdl] have fields with distinct names. *)
Definition inputs_wf : bool :=
  forallb (fun d => match d with InputDef _ fs => bool_decide (NoDup (map fst fs)) | _ => true end) sdl.

(** The statement proved of every value, by induction on it. *)
Definition sound_at (v : jsval) : Prop :=
  forall t path, (coerce_value sdl v t path).2 = [] ->
    conforms (coerce_value sdl v t path).1 t = true /\
    (nullish v = false -> nullish (coerce_value sdl v t path).1 = false).

Definition children (v : jsval) : list jsval :=
  match v with JArr xs => xs | JObj fs => map snd fs | _ => [] end.

Lemma parse_value_scalar n v r : parse_value n v = Ok r -> scalar_value n r = true /\ nullish r = false.
Proof.
  unfold parse_value, scalar_value.
  repeat case_match; intros; simplify_eq/=; try done.
Qed.

Lemma find_spec (g : jsval -> coerced) (k : string) fs :
  (fix find (fs : list (string * jsval)) : option coerced :=
     match fs with
     | [] => None
     | (k', x) :: fs' => if String.eqb k' k then Some (g x) else find fs'
     end) fs = option_map g (field_lookup k fs).
Proof.
  induction fs as [|[k' x] fs IH]; cbn; [done|].
  rewrite String.eqb_sym. by destruct (String.eqb k k').
Qed.

Lemma conforms_arr rs t : conforms (JArr rs) (ListOf t) = forallb (fun x => conforms x t) rs.
Proof. cbn. induction rs as [|r rs IH]; cbn; [done|]. by rewrite IH. Qed.

Lemma conforms_obj fs n defs :
  kind_of sdl n <> Some KScalar -> input_fields sdl n = Some defs ->
  conforms (JObj fs) (Named n)
  = forallb (fun kv => match tref_of kv.1 defs with Some ft => conforms kv.2 ft | None => false end) fs
    && required_present defs fs.
Proof.
  intros Hk Hi. cbn. rewrite Hi. destruct (kind_of sdl n) as [[]|]; try done;
    (f_equal; induction fs as [|[k x] fs IH]; cbn; [done|]; by rewrite IH).
Qed.

Lemma tref_of_elem defs d : NoDup (map fst defs) -> d ∈ defs -> tref_of d.1 defs = Some d.2.
Proof.
  induction defs as [|d' defs IH]; intros Hnd Hd; [by apply not_elem_of_nil in Hd|].
  inversion Hnd as [|? ? Hn Hnd']; subst. unfold tref_of; cbn.
  apply elem_of_cons in Hd as [->|Hd].
  - by rewrite String.eqb_refl.
  - destruct (String.eqb_spec d'.1 d.1) as [Heq|]; [|by apply IH].
    exfalso. apply Hn. rewrite Heq. apply list_elem_of_In, in_map, list_elem_of_In, Hd.
Qed.

Lemma field_lookup_elem k r fs : (k, r) ∈ fs -> is_Some (field_lookup k fs).
Proof.
  induction fs as [|[k' r'] fs IH]; intros H; [by apply not_elem_of_nil in H|]; cbn.
  destruct (String.eqb_spec k k'); [by eexists|].
  apply elem_of_cons in H as [[= -> ->]|H]; [done|]. by apply IH.
Qed.

Lemma concat_nil {A} (ls : list (list A)) : List.concat ls = [] -> Forall (fun l => l = []) ls.
Proof.
  induction ls as [|l ls IH]; cbn; intros H; [constructor|].
  apply app_eq_nil in H as [-> H]. constructor; [done|]. by apply IH.
Qed.

Lemma fields_sound defs (F : string * tref -> option (string * jsval) * list cerr) :
  NoDup (map fst defs) ->
  (forall d, d ∈ defs -> (F d).2 = [] ->
     match (F d).1 with
     | Some (k, r) => k = d.1 /\ conforms r d.2 = true
     | None => is_non_null d.2 = false
     end) ->
  List.concat (map snd (map F defs)) = [] ->
  forallb (fun kv => match tref_of kv.1 defs with Some ft => conforms kv.2 ft | None => false end)
          (omap fst (map F defs)) = true /\
  required_present defs (omap fst (map F defs)) = true.
Proof.
  intros Hnd HF Hc. apply concat_nil in Hc. rewrite map_map in Hc.
  apply Forall_map in Hc. rewrite List.Forall_forall in Hc.
  split.
  - apply forallb_forall. intros [k r] Hkr%list_elem_of_In.
    apply list_elem_of_omap in Hkr as (c & Hc' & Hcs).
    apply list_elem_of_In, in_map_iff in Hc' as (d & <- & Hd).
    specialize (HF d (proj2 (list_elem_of_In _ _) Hd) (Hc d Hd)). rewrite Hcs in HF. destruct HF as [-> Hr].
    cbn [fst snd]. by rewrite (tref_of_elem defs d Hnd (proj2 (list_elem_of_In _ _) Hd)).
  - apply forallb_forall. intros d Hd.
    specialize (HF d (proj2 (list_elem_of_In _ _) Hd) (Hc d Hd)).
    destruct (F d) as [[[k r]|] es] eqn:E; cbn in HF.
    + destruct HF as [-> _]. apply orb_true_intro; right. apply bool_decide_eq_true_2.
      apply (field_lookup_elem _ r). apply list_elem_of_omap. exists (F d).
      split; [apply list_elem_of_In, in_map, Hd|]. by rewrite E.
    + by rewrite HF.
Qed.

Lemma conforms_scalar r n :
  kind_of sdl n = Some KScalar -> nullish r = false -> conforms r (Named n) = scalar_value n r.
Proof. intros Hk Hr. destruct r; try done; cbn; by rewrite Hk. Qed.

Lemma items_sound t' path xs i :
  (forall x, x ∈ xs -> sound_at x) ->
  List.concat (map snd ((fix items (i : nat) (xs : list jsval) : list coerced :=
                          match xs with
                          | [] => []
                          | x :: xs' => coerce_value sdl x t' (path ++ [PIdx i])%list :: items (S i) xs'
                          end) i xs)) = [] ->
  forallb (fun r => conforms r t')
    (map fst ((fix items (i : nat) (xs : list jsval) : list coerced :=
                 match xs with
                 | [] => []
                 | x :: xs' => coerce_value sdl x t' (path ++ [PIdx i])%list :: items (S i) xs'
                 end) i xs)) = true.
Proof.
  revert i. induction xs as [|x xs IHxs]; intros i IH Herr; cbn in *; [done|].
  apply app_eq_nil in Herr as [Hx Hxs]. apply andb_true_intro. split.
  - apply (IH x (proj2 (elem_of_cons _ _ _) (or_introl eq_refl)) t' _ Hx).
  - apply IHxs; [|done]. intros y Hy. apply IH. apply elem_of_cons. by right.
Qed.

(** The equations of [coerce_value], one per kind of type. *)
Lemma cv_nonnull v t path :
  coerce_value sdl v (NonNull t) path
  = if nullish v
    then (JUndefined, [(path, v, "Expected non-nullable type " ++ quote (print_tref (NonNull t)) ++ " not to be null.")])
    else coerce_value sdl v t path.
Proof. by destruct v. Qed.

Lemma cv_list v t path :
  coerce_value sdl v (ListOf t) path
  = if nullish v then (JNull, []) else
    match v with
    | JArr xs =>
        join_items ((fix items (i : nat) (xs : list jsval) : list coerced :=
                       match xs with
                       | [] => []
                       | x :: xs' => coerce_value sdl x t (path ++ [PIdx i])%list :: items (S i) xs'
                       end) 0 xs)
    | _ => let '(r, es) := coerce_value sdl v t path in (JArr [r], es)
    end.
Proof. by destruct v. Qed.

Lemma cv_named v n path :
  coerce_value sdl v (Named n) path
  = if nullish v then (JNull, []) else
    match kind_of sdl n, input_fields sdl n with
    | Some KScalar, _ =>
        match parse_value n v with Ok r => (r, []) | Throw m => (JUndefined, [(path, v, m)]) end
    | _, Some defs =>
        match v with
        | JObj fs =>
            join_fields
              (map (fun d =>
                 match (fix find (fs : list (string * jsval)) : option coerced :=
                          match fs with
                          | [] => None
                          | (k, x) :: fs' =>
                              if String.eqb k d.1 then Some (coerce_value sdl x d.2 (path ++ [PKey d.1])%list)
                              else find fs'
                          end) fs with
                 | Some c => (Some (d.1, c.1), c.2)
                 | None => (None, if is_non_null d.2 then [not_provided path v d.1 d.2] else [])
                 end) defs)
              (omap (fun kv => if bool_decide (kv.1 ∈ map fst defs) then None
                               else Some (not_defined path v n (map fst defs) kv.1)) fs)
        | JArr xs =>
            (JObj [],
             (omap (fun d => if is_non_null d.2 then Some (not_provided path v d.1 d.2) else None) defs ++
              map (fun i => not_defined path v n (map fst defs) (string_of_Z (Z.of_nat i))) (seq 0 (List.length xs)))%list)
        | _ => (JUndefined, [(path, v, "Expected type " ++ quote n ++ " to be an object.")])
        end
    | _, None => (JUndefined, [(path, v, "Unexpected input type: " ++ quote n ++ ".")])
    end.
Proof. by destruct v. Qed.

Lemma conforms_nonnull r t : conforms r (NonNull t) = negb (nullish r) && conforms r t.
Proof. by destruct r. Qed.

Lemma inputs_wf_nodup n defs :
  inputs_wf = true -> input_fields sdl n = Some defs -> NoDup (map fst defs).
Proof.
  unfold inputs_wf, input_fields, find_type. intros Hwf Hf.
  destruct (List.find _ sdl) as [d|] eqn:E; [|done]. apply find_some in E as [Hd _].
  destruct d as [|m fs]; [done|]. injection Hf as <-.
  apply (proj1 (forallb_forall _ _) Hwf) in Hd. by apply bool_decide_eq_true in Hd.
Qed.

Section Go.
(** The fields of each input type have distinct names. *)
Hypothesis Hnodup : forall n defs, input_fields sdl n = Some defs -> NoDup (map fst defs).

Lemma obj_sound v n defs path :
  (forall x, x ∈ children v -> sound_at x) ->
  kind_of sdl n <> Some KScalar -> input_fields sdl n = Some defs ->
  let c := match v with
    | JObj fs =>
        join_fields
          (map (fun d =>
             match (fix find (fs : list (string * jsval)) : option coerced :=
                      match fs with
                      | [] => None
                      | (k, x) :: fs' =>
                          if String.eqb k d.1 then Some (coerce_value sdl x d.2 (path ++ [PKey d.1])%list)
                          else find fs'
                      end) fs with
             | Some c => (Some (d.1, c.1), c.2)
             | None => (None, if is_non_null d.2 then [not_provided path v d.1 d.2] else [])
             end) defs)
          (omap (fun kv => if bool_decide (kv.1 ∈ map fst defs) then None
                           else Some (not_defined path v n (map fst defs) kv.1)) fs)
    | JArr xs =>
        (JObj [],
         (omap (fun d => if is_non_null d.2 then Some (not_provided path v d.1 d.2) else None) defs ++
          map (fun i => not_defined path v n (map fst defs) (string_of_Z (Z.of_nat i))) (seq 0 (List.length xs)))%list)
    | _ => (JUndefined, [(path, v, "Expected type " ++ quote n ++ " to be an object.")])
    end in
  c.2 = [] -> conforms c.1 (Named n) = true /\ nullish c.1 = false.
Proof.
  intros IH Hk Hi c Herr. subst c. destruct v as [| | | | |xs|fs]; try discriminate; split; try done.
  - cbn [fst snd] in Herr |- *. rewrite (conforms_obj [] n defs Hk Hi).
    apply app_eq_nil in Herr as [Hom _]. unfold required_present. apply forallb_forall. intros d Hd.
    destruct (is_non_null d.2) eqn:Hnn; [|done]. exfalso.
    assert (Hin : not_provided path (JArr xs) d.1 d.2 ∈
                  omap (fun d => if is_non_null d.2 then Some (not_provided path (JArr xs) d.1 d.2) else None) defs).
    { apply list_elem_of_omap. exists d. rewrite Hnn. split; [by apply list_elem_of_In|done]. }
    rewrite Hom in Hin. by apply not_elem_of_nil in Hin.
  - unfold join_fields in Herr |- *. cbn [fst snd] in Herr |- *. apply app_eq_nil in Herr as [Hcs _].
    rewrite (conforms_obj _ n defs Hk Hi). apply andb_true_intro.
    apply fields_sound; [by apply (Hnodup n) | | done].
    intros d _ Hd. rewrite (find_spec (fun x => coerce_value sdl x d.2 (path ++ [PKey d.1])%list)) in Hd |- *.
    destruct (field_lookup d.1 fs) as [x|] eqn:E; cbn in Hd |- *.
    + split; [done|]. apply (IH x); [|done].
      cbn. clear -E. induction fs as [|[k y] fs IHfs]; cbn in E; [done|].
      destruct (String.eqb d.1 k); [injection E as <-; apply elem_of_cons; by left|].
      apply elem_of_cons; right. by apply IHfs.
    + by destruct (is_non_null d.2).
Qed.

Lemma go_sound v : (forall x, x ∈ children v -> sound_at x) -> sound_at v.
Proof.
  intros IH t. induction t as [n|t' IHt|t' IHt]; intros path Herr.
  - rewrite cv_named in Herr |- *. destruct (nullish v) eqn:Hn; [split; [reflexivity | discriminate]|].
    destruct (kind_of sdl n) as [k|] eqn:Hk.
    + destruct k.
      * destruct (parse_value n v) as [r|m] eqn:Hp; [|discriminate].
        destruct (parse_value_scalar _ _ _ Hp) as [Hs Hr]. cbn. rewrite conforms_scalar by done. by split.
      * destruct (input_fields sdl n) as [defs|] eqn:Hi; [|discriminate].
        destruct (obj_sound v n defs path IH ltac:(congruence) Hi Herr); by split.
      * destruct (input_fields sdl n) as [defs|] eqn:Hi; [|discriminate].
        destruct (obj_sound v n defs path IH ltac:(congruence) Hi Herr); by split.
    + destruct (input_fields sdl n) as [defs|] eqn:Hi; [|discriminate].
      destruct (obj_sound v n defs path IH ltac:(congruence) Hi Herr); by split.
  - rewrite cv_list in Herr |- *. destruct (nullish v) eqn:Hn; [split; [reflexivity | discriminate]|].
    destruct v as [| | b | z | s | xs | fs]; try discriminate Hn;
      [ | | | unfold join_items in Herr |- *; cbn [fst snd] in Herr |- *; rewrite conforms_arr;
              split; [by apply items_sound | done] | ];
      destruct (coerce_value sdl _ t' path) as [r es] eqn:Ec; cbn [fst snd] in Herr |- *; subst es;
      (destruct (IHt path) as [Hc _]; [by rewrite Ec|]); rewrite Ec in Hc; cbn [fst] in Hc;
      (split; [rewrite conforms_arr; cbn; by rewrite Hc | done]).
  - rewrite cv_nonnull in Herr |- *. destruct (nullish v) eqn:Hn; [discriminate|].
    destruct (IHt path Herr) as [Hc Hnn]. rewrite conforms_nonnull, Hc, (Hnn eq_refl). by split.
Qed.

Lemma all_sound v : sound_at v.
Proof.
  induction v as [| | | | |xs IHxs|fs IHfs] using jsval_ind'; apply go_sound; intros x Hx; cbn in Hx;
    try (by apply not_elem_of_nil in Hx).
  - by apply (proj1 (Forall_forall _ _) IHxs).
  - apply list_elem_of_In, in_map_iff in Hx as ([k y] & <- & Hy).
    apply (proj1 (List.Forall_forall _ _) IHfs _ Hy).
Qed.

(** Coercion is sound: a value coerced without error is a value of its
    type. *)
Theorem coerce_value_sound v t path :
  (coerce_value sdl v t path).2 = [] -> conforms (coerce_value sdl v t path).1 t = true.
Proof. intros H. apply (all_sound v t path H). Qed.

Lemma input_null_ok t : is_non_null t = false -> conforms JNull t = true.
Proof. by destruct t. Qed.

Lemma field_lookup_cons_is_Some k p fs : is_Some (field_lookup k fs) -> is_Some (field_lookup k (p :: fs)).
Proof. destruct p as [k' x]; cbn. by destruct (String.eqb k k'). Qed.

Lemma coerce_variables_cons x t defs vars :
  coerce_variables sdl ((x, t) :: defs) vars =
  let '(cv, es) := coerce_variables sdl defs vars in
  match field_lookup x vars with
  | None =>
      if is_non_null t
      then (cv, ("Variable " ++ quote ("$" ++ x) ++ " of required type " ++ quote (print_tref t)
                 ++ " was not provided.") :: es)
      else (cv, es)
  | Some JNull =>
      if is_non_null t
      then (cv, ("Variable " ++ quote ("$" ++ x) ++ " of non-null type " ++ quote (print_tref t)
                 ++ " must not be null.") :: es)
      else ((x, JNull) :: cv, es)
  | Some v =>
      let '(r, ces) := coerce_value sdl v t [] in ((x, r) :: cv, (map (var_error x) ces ++ es)%list)
  end.
Proof. reflexivity. Qed.

Lemma coerce_variables_keys defs vars :
  Forall (fun kv => kv.1 ∈ map fst defs) (coerce_variables sdl defs vars).1.
Proof.
  induction defs as [|[x t] defs IH]; [constructor|]. rewrite coerce_variables_cons.
  destruct (coerce_variables sdl defs vars) as [cv es]; cbn in IH.
  assert (Hw : Forall (fun kv => kv.1 ∈ x :: map fst defs) cv).
  { eapply Forall_impl; [exact IH|]. intros kv Hk. apply elem_of_cons. by right. }
  destruct (field_lookup x vars) as [[]|]; try destruct (is_non_null t); try destruct (coerce_value _ _ _ _);
    cbn; try (constructor; [apply elem_of_cons; by left|]); exact Hw.
Qed.

Lemma required_cons defs p cv : required_present defs cv = true -> required_present defs (p :: cv) = true.
Proof.
  unfold required_present. rewrite !forallb_forall. intros H d Hd. specialize (H d Hd).
  apply orb_true_iff in H as [H|H]; apply orb_true_iff; [by left|right].
  apply bool_decide_eq_true in H. apply bool_decide_eq_true_2. by apply field_lookup_cons_is_Some.
Qed.

Lemma args_ok_tail x t defs cv :
  x ∉ map fst defs -> Forall (fun kv => kv.1 ∈ map fst defs) cv -> args_ok defs cv = true ->
  forallb (fun kv => match tref_of kv.1 ((x, t) :: defs) with Some t => conforms kv.2 t | None => false end) cv
    = true /\ required_present defs cv = true.
Proof.
  intros Hx Hkeys Hok. apply andb_prop in Hok as [Hf Hr]. split; [|done].
  apply forallb_forall. intros [k r] Hkr. pose proof (proj1 (List.Forall_forall _ _) Hkeys _ Hkr) as Hk.
  cbn in Hk |- *. unfold tref_of; cbn. destruct (String.eqb_spec x k) as [->|]; [done|].
  apply (proj1 (forallb_forall _ _) Hf _ Hkr).
Qed.

Lemma args_ok_cons x t defs r cv :
  x ∉ map fst defs -> Forall (fun kv => kv.1 ∈ map fst defs) cv -> args_ok defs cv = true ->
  conforms r t = true -> args_ok ((x, t) :: defs) ((x, r) :: cv) = true.
Proof.
  intros Hx Hkeys Hok Hr. destruct (args_ok_tail x t defs cv Hx Hkeys Hok) as [Hf Hreq].
  unfold args_ok, required_present. cbn [forallb fst snd]. unfold tref_of at 1; cbn.
  rewrite String.eqb_refl. cbn [option_map snd]. rewrite Hr, Hf. cbn. rewrite orb_true_r. cbn [andb].
  exact (required_cons defs (x, r) cv Hreq).
Qed.

Lemma args_ok_skip x t defs cv :
  x ∉ map fst defs -> Forall (fun kv => kv.1 ∈ map fst defs) cv -> args_ok defs cv = true ->
  is_non_null t = false -> args_ok ((x, t) :: defs) cv = true.
Proof.
  intros Hx Hkeys Hok Ht. destruct (args_ok_tail x t defs cv Hx Hkeys Hok) as [Hf Hreq].
  unfold args_ok, required_present in *. cbn [forallb fst snd]. by rewrite Hf, Ht, Hreq.
Qed.

Theorem coerce_variables_sound defs vars args :
  NoDup (map fst defs) -> coerce_variables sdl defs vars = (args, []) -> args_ok defs args = true.
Proof.
  revert args. induction defs as [|[x t] defs IH]; intros args Hnd Hc; [by injection Hc as <-|].
  inversion Hnd as [|? ? Hx Hnd']; subst.
  pose proof (coerce_variables_keys defs vars) as Hkeys.
  rewrite coerce_variables_cons in Hc.
  destruct (coerce_variables sdl defs vars) as [cv es]; cbn in Hkeys.
  destruct (field_lookup x vars) as [v|] eqn:Ev.
  - assert (Hv : {v = JNull} + {v <> JNull}) by (destruct v; (left; reflexivity) || (right; discriminate)).
    destruct Hv as [->|Hv].
    + destruct (is_non_null t) eqn:Ht; [discriminate|]. injection Hc as <- ->.
      apply args_ok_cons; [done | done | by apply IH | by apply input_null_ok].
    + assert (Hc' : (let '(r, ces) := coerce_value sdl v t [] in
                     ((x, r) :: cv, (map (var_error x) ces ++ es)%list)) = (args, [])).
      { destruct v; done. }
      destruct (coerce_value sdl v t []) as [r ces] eqn:Ecv. injection Hc' as <- Hes.
      apply app_eq_nil in Hes as [Hces ->]. apply map_eq_nil in Hces.
      pose proof (coerce_value_sound v t [] ltac:(by rewrite Ecv)) as Hs. rewrite Ecv in Hs.
      apply args_ok_cons; [done | done | by apply IH | done].
  - destruct (is_non_null t) eqn:Ht; [discriminate|]. injection Hc as <- ->.
    apply args_ok_skip; [done | done | by apply IH | done].
Qed.

End Go.

End Soundness.

End Variables.
