(* ===== verification/Router.v ===== *)
(** The GraphQL entry point of the gateway (gateway/src/app.ts): the root
    object binding field names to service methods, the way graphql-js calls
    a root method for a field ([method(args, context, info)], with [args]
    the object of the field's arguments), and the handler of graphql-http's
    Express adapter that answers [/graphql].  The handler runs graphql-js's
    [validate], which first asserts that the schema is valid: with the schema
    of schema.ts ([Schema.schema_invalid]) that assertion throws, and the
    adapter answers every request with a bare 500.  [graphql_http_with]
    takes the schema as a parameter: on [Schema.sdl_fixed] it validates the
    selection ([Validation]), coerces the variables ([Variables]), runs the
    root method and completes its value ([Execution]), which shows what the
    gateway does once [RegisterUserResult] is fixed.  Section [Handler]
    gives the three outcomes of a valid schema, which the theorems on
    single operations instantiate. *)

From S2P Require Import Prelude Js Redis Http UserBackend Backends Kafka World Schema Execution Variables Validation ProductService OrderService UserService.
Local Open Scope string_scope.

Inductive op_kind : Type := Query | Mutation.

Definition op_type (k : op_kind) : string :=
  match k with Query => "Query" | Mutation => "Mutation" end.

(** The methods of the three services. *)
Inductive resolver : Type :=
| UsersGetAll | UsersGetById | UsersPost
| ProductsGetAll | ProductsGetById | ProductsPost
| OrdersGetAll | OrdersGetById | OrdersPost.

(** [const root = { users: UserService.getAll, ... }] *)
Definition root (field : string) : option resolver :=
  if String.eqb field "users" then Some UsersGetAll
  else if String.eqb field "user" then Some UsersGetById
  else if String.eqb field "registerUser" then Some UsersPost
  else if String.eqb field "products" then Some ProductsGetAll
  else if String.eqb field "product" then Some ProductsGetById
  else if String.eqb field "createProduct" then Some ProductsPost
  else if String.eqb field "orders" then Some OrdersGetAll
  else if String.eqb field "order" then Some OrdersGetById
  else if String.eqb field "placeOrder" then Some OrdersPost
  else None.

(** [method(args, context)]: a method declared with a string parameter
    receives the whole [args] object in it. *)
Definition call (r : resolver) (args : jsval) (ctx : context) : M World jsval :=
  match r with
  | UsersGetAll => UserService.getAll
  | UsersGetById => UserService.getById args
  | UsersPost => UserService.post args
  | ProductsGetAll => ProductService.getAll
  | ProductsGetById => ProductService.getById args
  | ProductsPost => ProductService.post api_key args ctx
  | OrdersGetAll => OrderService.getAll
  | OrdersGetById => OrderService.getById args
  | OrdersPost => OrderService.post jwt_secret jwt_verify_of args ctx
  end.

(** graphql-js resolves the top-level field with [defaultFieldResolver]
    on the root value, which queries and mutations share: the root's
    method, called with the arguments object, or [undefined] for a field
    the root does not bind. *)
Definition execute (field : string) (args : jsval) (ctx : context) : M World jsval :=
  match root field with
  | Some r => call r args ctx
  | None => mret JUndefined
  end.

(** The [errors] of a response (graphql-js adds the [locations] and
    [path] of each error, not modelled). *)
Definition gql_errors (msgs : list string) : jsval :=
  JArr (map (fun m => JObj [("message", JStr m)]) msgs).

(** [{ data }], or [{ errors, data }] when errors were recorded; [data] is
    [null] when the field's failure reaches the root. *)
Definition gql_reply (field : string) (o : Execution.outcome) : response :=
  let data := match o.1 with Some v => JObj [(field, v)] | None => JNull end in
  match o.2 with
  | [] => mkResponse 200 (JObj [("data", data)])
  | es => mkResponse 200 (JObj [("errors", gql_errors es); ("data", data)])
  end.

(** [app.all("/graphql", createHandler({ schema, rootValue: root, context }))]
    for a schema [sdl], on a request that parses to one operation with one
    top-level field, which it passes each of its arguments as a variable of
    the argument's type, the [variables] object [vars], and the selection
    [sub] under the field, accepted as [application/json]: [validate]
    asserts the schema valid, and its exception escapes the handler to the
    adapter's [catch], which answers [res.writeHead(500).end()]; with a
    valid schema, a selection that fails validation
    ([Validation.validate_sel]) is answered [{ errors }], so are
    variables that fail coercion ([Variables.coerce_variables]), and
    otherwise the resolver runs on the coerced arguments and its value is
    completed against the field's type (a rejection is the field's
    error).  A field that passes validation is declared, so [defs] are its
    arguments. *)
Definition graphql_http_with (sdl : list Schema.type_def) (k : op_kind) (field : string)
  (vars : list (string * jsval)) (sub : list Execution.selection) (ctx : context) : M World response :=
  match Schema.validate_schema sdl with
  | _ :: _ => mret (mkResponse 500 JUndefined)
  | [] =>
      match Validation.validate_sel sdl (op_type k) (Execution.Field field sub) with
      | (_ :: _) as es => mret (mkResponse 200 (JObj [("errors", gql_errors es)]))
      | [] =>
          let defs := default [] (Variables.field_args sdl (op_type k) field) in
          match Variables.coerce_variables sdl defs vars with
          | (args, []) =>
              try_catch
                (v ← execute field (JObj args) ctx;
                 mret (gql_reply field (Execution.complete_sel sdl (Execution.Field field sub) (op_type k) v)))
                (fun e => mret (gql_reply field (Some JNull, [e])))
          | (_, es) => mret (mkResponse 200 (JObj [("errors", gql_errors es)]))
          end
      end
  end.

(** The gateway's handler, on the schema of schema.ts. *)
Definition graphql_http
  : op_kind -> string -> list (string * jsval) -> list Execution.selection -> context -> M World response :=
  graphql_http_with Schema.sdl.

(** The error of an [Int] out of 32 bits in the [price] of a
    [CreateProductInput]. *)
Definition price_error (z : Z) : string :=
  Variables.var_error "input" ([Variables.PKey "price"], JNum z,
    "Int cannot represent non 32-bit signed integer value: " ++ string_of_Z z).

(** C1: Every operation sent to the gateway's [/graphql] is answered with a
    bare 500 and changes nothing: no resolver runs, no service is called and
    the cache is not touched, because the schema fails graphql-js's
    validation before execution. *)
Theorem every_request_fails k field vars sub ctx w :
  graphql_http k field vars sub ctx w = (Ok (mkResponse 500 JUndefined), w).
Proof. reflexivity. Qed.

(** ** Dispatch *)

(** Every declared field is bound to a service method. *)
Lemma root_total k field : field ∈ Schema.fields_of Schema.sdl (op_type k) -> is_Some (root field).
Proof.
  destruct k; vm_compute [Schema.fields_of]; intros H;
    repeat (apply elem_of_cons in H as [->|H]; [by eexists|]); by apply not_elem_of_nil in H.
Qed.

(** The [products(id)] query runs [getAll], whatever its [id]. *)
Lemma products_ignores_id i ctx w :
  execute "products" (JObj [("id", JStr i)]) ctx w = ProductService.getAll w.
Proof. reflexivity. Qed.

(** [user(id)] and [order(id)] put the whole [args] object in the URL:
    every id requests [/[object Object]]. *)
Lemma id_path_object i : "/" ++ to_template (JObj [("id", JStr i)]) = "/[object Object]".
Proof. reflexivity. Qed.

(** [user(id: i)] resolves to a 500 for every [i]: the user service
    receives [[object Object]], which is not an ObjectId. *)
Lemma user_get_fails i ctx w :
  execute "user" (JObj [("id", JStr i)]) ctx w
  = (Throw (status_msg 500), log_state (UserSvc, get_req "/[object Object]") w).
Proof.
  change (execute "user" (JObj [("id", JStr i)]) ctx w)
    with (get_result UserSvc "/[object Object]" w).
  unfold get_result, http_get.
  assert (Hs : serve UserSvc (get_req "/[object Object]")
                 (update ((view w ++ [(UserSvc, get_req "/[object Object]")])%list) w)
               = (Some (UserBackend.get_by_id "[object Object]" (w_users w)),
                  log_state (UserSvc, get_req "/[object Object]") w))
    by (cbn; reflexivity).
  rewrite (bind_throw _ _ _ _ _ (send_status_error _ _ _ _ _ Hs eq_refl)). reflexivity.
Qed.

(** ** The handler on the fixed schema *)

Section Handler.
Variables (sdl : list Schema.type_def) (k : op_kind) (field : string)
  (vars : list (string * jsval)) (sub : list Execution.selection) (ctx : context).
Hypothesis Hsdl : Schema.validate_schema sdl = [].

(** A selection that fails validation is answered with its errors, before
    anything runs. *)
Lemma handler_invalid e es :
  Validation.validate_sel sdl (op_type k) (Execution.Field field sub) = e :: es ->
  graphql_http_with sdl k field vars sub ctx
  = mret (mkResponse 200 (JObj [("errors", gql_errors (e :: es))])).
Proof. intros Hv. unfold graphql_http_with. rewrite Hsdl, Hv. reflexivity. Qed.

Hypothesis Hvalid : Validation.validate_sel sdl (op_type k) (Execution.Field field sub) = [].

(** Variables that fail coercion are answered with their errors, before
    the resolver runs. *)
Lemma handler_coerce_error defs args e es :
  Variables.field_args sdl (op_type k) field = Some defs ->
  Variables.coerce_variables sdl defs vars = (args, e :: es) ->
  graphql_http_with sdl k field vars sub ctx
  = mret (mkResponse 200 (JObj [("errors", gql_errors (e :: es))])).
Proof.
  intros Hd Hc. unfold graphql_http_with. rewrite Hsdl, Hvalid, Hd. cbv zeta.
  change (default [] (Some defs)) with defs. by rewrite Hc.
Qed.

(** Otherwise the resolver runs on the coerced arguments, and its value is
    completed, or its rejection is the field's error. *)
Lemma handler_runs defs args :
  Variables.field_args sdl (op_type k) field = Some defs ->
  Variables.coerce_variables sdl defs vars = (args, []) ->
  graphql_http_with sdl k field vars sub ctx
  = try_catch
      (v ← execute field (JObj args) ctx;
       mret (gql_reply field (Execution.complete_sel sdl (Execution.Field field sub) (op_type k) v)))
      (fun e => mret (gql_reply field (Some JNull, [e]))).
Proof.
  intros Hd Hc. unfold graphql_http_with. rewrite Hsdl, Hvalid, Hd. cbv zeta.
  change (default [] (Some defs)) with defs. by rewrite Hc.
Qed.

End Handler.

(** Invalid requests never reach a backend: on a valid schema, a request
    whose selection fails validation or whose variables fail coercion is
    answered with a non-empty list of errors and leaves the world (the
    cache, the backends and the request log) unchanged. *)
Theorem rejected_before_backend sdl k field vars sub ctx w r w' :
  Schema.validate_schema sdl = [] ->
  Validation.validate_sel sdl (op_type k) (Execution.Field field sub) <> [] \/
  (Variables.coerce_variables sdl (default [] (Variables.field_args sdl (op_type k) field)) vars).2 <> [] ->
  graphql_http_with sdl k field vars sub ctx w = (r, w') ->
  w' = w /\ exists es, es <> [] /\ r = Ok (mkResponse 200 (JObj [("errors", gql_errors es)])).
Proof.
  intros Hsdl Hbad. unfold graphql_http_with. rewrite Hsdl.
  destruct (Validation.validate_sel _ _ _) as [|e es]; cbv zeta.
  - destruct Hbad as [Hv|Hc]; [done|].
    destruct (Variables.coerce_variables _ _ _) as [args [|e es]]; [done|].
    intros [= <- <-]. split; [done|]. by exists (e :: es).
  - intros [= <- <-]. split; [done|]. by exists (e :: es).
Qed.

Lemma rejected_before_backend_witness :
  Schema.validate_schema Schema.sdl_fixed = [] /\
  (Validation.validate_sel Schema.sdl_fixed "Query" (Execution.Field "user" [Execution.Field "username" []]) <> [] \/
   (Variables.coerce_variables Schema.sdl_fixed
      (default [] (Variables.field_args Schema.sdl_fixed "Query" "user")) []).2 <> []) /\
  (graphql_http_with Schema.sdl_fixed Query "user" [] [Execution.Field "username" []] (mkContext [])
     order_world).2 = order_world.
Proof.
  split_and!; [reflexivity | right; vm_compute; discriminate |].
  destruct (graphql_http_with Schema.sdl_fixed Query "user" [] [Execution.Field "username" []] (mkContext [])
              order_world) as [r w'] eqn:E.
  apply (rejected_before_backend Schema.sdl_fixed Query "user" [] [Execution.Field "username" []]
           (mkContext []) order_world r w' eq_refl); [right; vm_compute; discriminate | exact E].
Defined.

(** The resolvers can rely on the schema's argument types: on a valid
    schema whose input types and arguments have distinct field names,
    every request is either answered with errors before anything runs,
    or runs the resolver on an arguments object in which every argument
    has its declared type and every non-null argument is present. *)
Theorem resolver_args_well_typed sdl k field vars sub ctx :
  Schema.validate_schema sdl = [] -> Variables.inputs_wf sdl = true ->
  NoDup (map fst (default [] (Variables.field_args sdl (op_type k) field))) ->
  (exists es, es <> [] /\
     graphql_http_with sdl k field vars sub ctx = mret (mkResponse 200 (JObj [("errors", gql_errors es)]))) \/
  (exists args, Variables.args_ok sdl (default [] (Variables.field_args sdl (op_type k) field)) args = true /\
     graphql_http_with sdl k field vars sub ctx
     = try_catch
         (v ← execute field (JObj args) ctx;
          mret (gql_reply field (Execution.complete_sel sdl (Execution.Field field sub) (op_type k) v)))
         (fun e => mret (gql_reply field (Some JNull, [e])))).
Proof.
  intros Hsdl Hwf Hnd. unfold graphql_http_with. rewrite Hsdl.
  destruct (Validation.validate_sel _ _ _) as [|e es]; [cbv zeta|left; by exists (e :: es)].
  destruct (Variables.coerce_variables _ _ _) as [args [|e es]] eqn:Hc; [right|left; by exists (e :: es)].
  exists args. split; [|done].
  apply (Variables.coerce_variables_sound sdl (fun n defs => Variables.inputs_wf_nodup sdl n defs Hwf) _ vars);
    [done | exact Hc].
Qed.

Lemma resolver_args_well_typed_witness :
  Schema.validate_schema Schema.sdl_fixed = [] /\ Variables.inputs_wf Schema.sdl_fixed = true /\
  NoDup (map fst (default [] (Variables.field_args Schema.sdl_fixed (op_type Mutation) "createProduct"))) /\
  ((exists es, es <> [] /\
     graphql_http_with Schema.sdl_fixed Mutation "createProduct" [] [Execution.Field "_id" []] (mkContext [])
     = mret (mkResponse 200 (JObj [("errors", gql_errors es)]))) \/
   (exists args, Variables.args_ok Schema.sdl_fixed
                   (default [] (Variables.field_args Schema.sdl_fixed (op_type Mutation) "createProduct")) args = true /\
     graphql_http_with Schema.sdl_fixed Mutation "createProduct" [] [Execution.Field "_id" []] (mkContext [])
     = try_catch
         (v ← execute "createProduct" (JObj args) (mkContext []);
          mret (gql_reply "createProduct"
                  (Execution.complete_sel Schema.sdl_fixed (Execution.Field "createProduct" [Execution.Field "_id" []])
                     (op_type Mutation) v)))
         (fun e => mret (gql_reply "createProduct" (Some JNull, [e]))))).
Proof.
  assert (Hnd : NoDup (map fst (default [] (Variables.field_args Schema.sdl_fixed (op_type Mutation) "createProduct"))))
    by (vm_compute; apply NoDup_singleton).
  split_and!; [reflexivity | reflexivity | exact Hnd |].
  exact (resolver_args_well_typed Schema.sdl_fixed Mutation "createProduct" [] [Execution.Field "_id" []]
           (mkContext []) eq_refl eq_refl Hnd).
Defined.

(** C6: [product], bound in the root to [ProductService.getById], is not a
    field of [Query]: the request is refused by validation, with the
    suggestion of [products], and nothing runs, so the cached
    single-product read cannot be reached. *)
Theorem product_field_unreachable vars sub ctx w :
  graphql_http_with Schema.sdl_fixed Query "product" vars sub ctx w
  = (Ok (mkResponse 200 (JObj [("errors", gql_errors
        ["Cannot query field " ++ quote "product" ++ " on type " ++ quote "Query" ++
         ". Did you mean " ++ quote "products" ++ "?"])])), w).
Proof. reflexivity. Qed.

(** C3: Even with [RegisterUserResult] fixed, no product can be read:
    [products(id: i)] runs [getAll], whose value is the list of products,
    and graphql-js completes it as the one [Product] the schema declares,
    so every valid query that selects [name] first is answered
    [products: null] with a non-null error, after the cache and the
    product service have been used as [getAll] uses them. *)
Theorem products_query_fixed i sub ctx w xs w' :
  Validation.validate_sel Schema.sdl_fixed "Query"
    (Execution.Field "products" (Execution.Field "name" [] :: sub)) = [] ->
  ProductService.getAll w = (Ok (JArr xs), w') ->
  graphql_http_with Schema.sdl_fixed Query "products" [("id", JStr i)]
    (Execution.Field "name" [] :: sub) ctx w
  = (Ok (mkResponse 200 (JObj [("errors", gql_errors [Execution.non_null_msg "Product" "name"]);
                              ("data", JObj [("products", JNull)])])), w').
Proof.
  intros Hv H.
  rewrite (handler_runs _ Query _ [("id", JStr i)] _ ctx Schema.schema_fixed_valid Hv [("id", Schema.nn "ID")]
             [("id", JStr i)] eq_refl eq_refl).
  apply try_ok. by rewrite (bind_ok _ _ _ _ _ (eq_trans (products_ignores_id i ctx w) H)).
Qed.

Lemma products_query_fixed_witness :
  let w := ProductService.world0 None ∅ in
  graphql_http_with Schema.sdl_fixed Query "products" [("id", JStr "id0")]
    [Execution.Field "name" []; Execution.Field "price" []] (mkContext []) w
  = (Ok (mkResponse 200 (JObj [("errors", gql_errors [Execution.non_null_msg "Product" "name"]);
                              ("data", JObj [("products", JNull)])])), (ProductService.getAll w).2).
Proof.
  apply (products_query_fixed "id0" [Execution.Field "price" []] (mkContext [])
           (ProductService.world0 None ∅) [ProductService.pen]); reflexivity.
Defined.

(** C22: Even with the schema fixed, [user(id: i)] fails for every [i]:
    the user service receives [[object Object]], which is not an
    ObjectId, and answers 500, so the query is answered [user: null]
    with axios's error after one request. *)
Theorem user_query_always_fails i sub ctx w :
  Validation.validate_sel Schema.sdl_fixed "Query" (Execution.Field "user" sub) = [] ->
  graphql_http_with Schema.sdl_fixed Query "user" [("id", JStr i)] sub ctx w
  = (Ok (mkResponse 200 (JObj [("errors", gql_errors [status_msg 500]); ("data", JObj [("user", JNull)])])),
     log_state (UserSvc, get_req "/[object Object]") w).
Proof.
  intros Hv.
  rewrite (handler_runs _ Query _ [("id", JStr i)] _ ctx Schema.schema_fixed_valid Hv [("id", Schema.nn "ID")]
             [("id", JStr i)] eq_refl eq_refl).
  rewrite (try_throw _ _ _ _ _ (bind_throw _ _ _ _ _ (user_get_fails i ctx w))). reflexivity.
Qed.

Lemma user_query_always_fails_witness :
  graphql_http_with Schema.sdl_fixed Query "user" [("id", JStr "64b7f0c2a1d3e4f5a6b7c8d9")]
    [Execution.Field "username" []] (mkContext []) (ProductService.world0 None ∅)
  = (Ok (mkResponse 200 (JObj [("errors", gql_errors [status_msg 500]); ("data", JObj [("user", JNull)])])),
     log_state (UserSvc, get_req "/[object Object]") (ProductService.world0 None ∅)).
Proof. apply user_query_always_fails. reflexivity. Defined.

(** ** Mutations on the fixed schema *)

(** C4: A [createProduct] whose [price] does not fit in 32 bits is refused
    before any resolver runs: the answer is the variable's coercion error,
    with the path [input.price], and no request is sent, so nothing is
    created and the world is unchanged. *)
Theorem create_product_price_refused n z q sub ctx w :
  Validation.validate_sel Schema.sdl_fixed "Mutation" (Execution.Field "createProduct" sub) = [] ->
  Execution.int32 z = false -> Execution.int32 q = true ->
  graphql_http_with Schema.sdl_fixed Mutation "createProduct"
    [("input", JObj [("name", JStr n); ("price", JNum z); ("quantity", JNum q)])] sub ctx w
  = (Ok (mkResponse 200 (JObj [("errors", gql_errors [price_error z])])), w).
Proof.
  intros Hv Hz Hq.
  rewrite (handler_coerce_error _ Mutation _ [("input", JObj [("name", JStr n); ("price", JNum z); ("quantity", JNum q)])] _ ctx Schema.schema_fixed_valid Hv
             [("input", Schema.Named "CreateProductInput")]
             [("input", JObj [("name", JStr n); ("price", if Execution.int32 z then JNum z else JUndefined);
                              ("quantity", JNum q)])] (price_error z) [] eq_refl).
  - reflexivity.
  - cbv -[Execution.int32 string_of_Z Variables.var_error]. by rewrite Hq, Hz.
Qed.

Lemma create_product_price_refused_witness :
  graphql_http_with Schema.sdl_fixed Mutation "createProduct"
    [("input", JObj [("name", JStr "pen"); ("price", JNum 3000000000); ("quantity", JNum 5)])]
    [Execution.Field "_id" []] (mkContext []) (ProductService.world0 None ∅)
  = (Ok (mkResponse 200 (JObj [("errors", gql_errors
       ["Variable " ++ quote "$input" ++ " got invalid value 3000000000 at " ++ quote "input.price" ++
        "; Int cannot represent non 32-bit signed integer value: 3000000000"])])),
     ProductService.world0 None ∅).
Proof.
  rewrite (create_product_price_refused "pen" 3000000000 5 [Execution.Field "_id" []] (mkContext []) _
             eq_refl eq_refl eq_refl).
  reflexivity.
Defined.

(** C5: With the schema fixed, [registerUser] gets through coercion and
    reaches the user service, which refuses the body the gateway sends:
    the answer is the axios error with [registerUser: null], the request
    is logged and no user is created. *)
Theorem register_user_fixed_rejected u p sub ctx w :
  Validation.validate_sel Schema.sdl_fixed "Mutation" (Execution.Field "registerUser" sub) = [] ->
  graphql_http_with Schema.sdl_fixed Mutation "registerUser"
    [("input", JObj [("username", JStr u); ("password", JStr p)])] sub ctx w
  = (Ok (mkResponse 200 (JObj [("errors", gql_errors [status_msg 400]);
                              ("data", JObj [("registerUser", JNull)])])),
     log_state (UserSvc, register_req (JObj [("username", JStr u); ("password", JStr p)])) w).
Proof.
  intros Hv.
  rewrite (handler_runs _ Mutation _ [("input", JObj [("username", JStr u); ("password", JStr p)])] _ ctx
             Schema.schema_fixed_valid Hv
             [("input", Schema.Named "RegisterUserInput")]
             [("input", JObj [("username", JStr u); ("password", JStr p)])] eq_refl eq_refl).
  assert (He : execute "registerUser" (JObj [("input", JObj [("username", JStr u); ("password", JStr p)])]) ctx w
               = (Throw (status_msg 400),
                  log_state (UserSvc, register_req (JObj [("username", JStr u); ("password", JStr p)])) w))
    by apply UserService.post_wrapped_rejected.
  rewrite (try_throw _ _ _ _ _ (bind_throw _ _ _ _ _ He)). reflexivity.
Qed.

Lemma register_user_fixed_rejected_witness :
  graphql_http_with Schema.sdl_fixed Mutation "registerUser"
    [("input", JObj [("username", JStr "ada"); ("password", JStr "pw")])]
    [Execution.Field "access_token" []] (mkContext []) (ProductService.world0 None ∅)
  = (Ok (mkResponse 200 (JObj [("errors", gql_errors [status_msg 400]);
                              ("data", JObj [("registerUser", JNull)])])),
     log_state (UserSvc, register_req (JObj [("username", JStr "ada"); ("password", JStr "pw")]))
               (ProductService.world0 None ∅)).
Proof. apply register_user_fixed_rejected. reflexivity. Defined.

(** C9: With the schema fixed, [placeOrder] with one product given as an
    object rather than a list, and a token that verifies, sends the order
    service exactly one [POST /] whose [products] is the list of that one
    product, with the token's [userId] in [x-user-id], and answers the
    completion of the service's result against [Order]. *)
Theorem place_order_single_item pid q sub ctx w auth token k payload uid rsp w' r :
  let item := JObj [("_id", JStr pid); ("quantity", JNum q)] in
  Validation.validate_sel Schema.sdl_fixed "Mutation" (Execution.Field "placeOrder" sub) = [] ->
  Execution.int32 q = true ->
  header ctx "authorization" = Some auth -> split_at1 "Bearer " auth = Some token -> token <> "" ->
  jwt_secret w = Some k -> k <> "" -> jwt_verify_of w token k = Ok payload ->
  prop payload "userId" = Ok uid ->
  serve OrderSvc (OrderService.order_req (JArr [item]) uid) (log_state (OrderSvc, OrderService.order_req (JArr [item]) uid) w)
    = (Some rsp, w') ->
  ok_status (status rsp) = true -> prop (data rsp) "result" = Ok r ->
  graphql_http_with Schema.sdl_fixed Mutation "placeOrder" [("products", item)] sub ctx w
  = (Ok (gql_reply "placeOrder"
           (Execution.complete_sel Schema.sdl_fixed (Execution.Field "placeOrder" sub) "Mutation" r)), w').
Proof.
  intros item Hv Hq Hh Hsp Ht Hk Hk' Hver Hu Hs Hst Hr.
  assert (Hc : Variables.coerce_variables Schema.sdl_fixed
                 [("products", Schema.ListOf (Schema.Named "OrderProductInput"))] [("products", item)]
               = ([("products", JArr [item])], [])) by (cbv -[Execution.int32]; by rewrite Hq).
  rewrite (handler_runs _ Mutation _ [("products", item)] _ ctx Schema.schema_fixed_valid Hv
             [("products", Schema.ListOf (Schema.Named "OrderProductInput"))]
             [("products", JArr [item])] eq_refl Hc).
  assert (He : execute "placeOrder" (JObj [("products", JArr [item])]) ctx w = (Ok r, w'))
    by exact (OrderService.post_authorized jwt_secret jwt_verify_of (JObj [("products", JArr [item])]) ctx w
                (JArr [item]) auth token k payload
                uid rsp w' r eq_refl Hh Hsp Ht Hk Hk' Hver Hu Hs Hst Hr).
  apply try_ok. by rewrite (bind_ok _ _ _ _ _ He).
Qed.

Lemma place_order_single_item_witness :
  let ctx := mkContext [("authorization", "Bearer tok:u1")] in
  let item := JObj [("_id", JStr "id0"); ("quantity", JNum 1)] in
  let req := OrderService.order_req (JArr [item]) (JStr "u1") in
  graphql_http_with Schema.sdl_fixed Mutation "placeOrder" [("products", item)]
    [Execution.Field "userId" []; Execution.Field "products" [Execution.Field "quantity" []]] ctx order_world
  = (Ok (mkResponse 200 (JObj [("data", JObj [("placeOrder",
          JObj [("userId", JStr "u1"); ("products", JArr [JObj [("quantity", JNum 1)]])])])])),
     (serve OrderSvc req (log_state (OrderSvc, req) order_world)).2).
Proof.
  cbv zeta.
  rewrite (place_order_single_item "id0" 1
             [Execution.Field "userId" []; Execution.Field "products" [Execution.Field "quantity" []]] (mkContext [("authorization", "Bearer tok:u1")]) order_world
             "Bearer tok:u1" "tok:u1" "s3cret" (JObj [("userId", JStr "u1")]) (JStr "u1")
             (mkResponse 201 (envelope (JObj [("_id", JStr "id0"); ("userId", JStr "u1");
                                              ("products", JArr [JObj [("_id", JStr "id0"); ("quantity", JNum 1)]])])))
             _ _ eq_refl eq_refl eq_refl eq_refl ltac:(discriminate) eq_refl ltac:(discriminate)
             eq_refl eq_refl eq_refl eq_refl eq_refl).
  reflexivity.
Defined.
