(* ===== verification/WebSockets.v ===== *)
(** The WebSocket relay (WebSockets/server/src/index.ts) and its browser
    client (WebSockets/client/src/App.jsx).  The server greets every new
    connection and relays every message it receives to every other client
    whose [readyState] is [OPEN].  The client shows [Loading...] until its
    socket opens, then a button that sends ["Hello from client"] and the
    last message it received.  Sockets are told apart by an id, as the code
    compares the socket objects ([client !== ws]); the order of
    [wss.clients] is the order of connection. *)

From S2P Require Import Prelude.
Local Open Scope string_scope.
Local Open Scope list_scope.

Module WsServer.

(** [WebSocket.CONNECTING], [OPEN], [CLOSING], [CLOSED] *)
Inductive ready_state : Type := CONNECTING | OPEN | CLOSING | CLOSED.

#[export] Instance ready_state_eq_dec : EqDecision ready_state.
Proof. solve_decision. Defined.

(** A message: its data and the [isBinary] flag. *)
Record frame : Type := mkFrame { payload : string; binary : bool }.

(** One server-side socket and the frames it has sent to its peer. *)
Record socket : Type := mkSocket { sid : nat; ready : ready_state; inbox : list frame }.

(** [wss.clients], the next socket id, and the URLs the HTTP server has
    answered. *)
Record server : Type := mkServer { clients : list socket; next_sid : nat; http_log : list string }.

Definition server0 : server := mkServer [] 0 [].

(** [http.createServer((request, response) => { ...; response.end("Hello World"); })] *)
Definition on_request (url : string) (srv : server) : string * server :=
  ("Hello World", mkServer (clients srv) (next_sid srv) (http_log srv ++ [url])).

Definition hello : frame := mkFrame "Hello from server" false.

(** [ws.send(data, { binary })]: a frame goes out on an open socket only. *)
Definition send_frame (f : frame) (s : socket) : socket :=
  if decide (ready s = OPEN) then mkSocket (sid s) (ready s) (inbox s ++ [f]) else s.

(** [wss.on('connection', (ws) => { ...; ws.send('Hello from server'); })]:
    the new socket joins [wss.clients] open and is greeted. *)
Definition on_connection (srv : server) : server :=
  mkServer (clients srv ++ [send_frame hello (mkSocket (next_sid srv) OPEN [])])
           (S (next_sid srv)) (http_log srv).

(** The body of [wss.clients.forEach] for one [client]. *)
Definition relay (sender : nat) (f : frame) (c : socket) : socket :=
  if negb (Nat.eqb (sid c) sender) && bool_decide (ready c = OPEN) then send_frame f c else c.

(** [ws.on('message', (data, isBinary) => { wss.clients.forEach(...) })] *)
Definition on_message (sender : nat) (f : frame) (srv : server) : server :=
  mkServer (map (relay sender f) (clients srv)) (next_sid srv) (http_log srv).

(** [ws.close()] has started: the socket is [CLOSING] and still in
    [wss.clients]. *)
Definition set_ready (id : nat) (r : ready_state) (srv : server) : server :=
  mkServer (map (fun c => if Nat.eqb (sid c) id then mkSocket (sid c) r (inbox c) else c) (clients srv))
           (next_sid srv) (http_log srv).

(** The ['close'] event: [ws] removes the socket from [wss.clients]. *)
Definition on_close (id : nat) (srv : server) : server :=
  mkServer (List.filter (fun c => negb (Nat.eqb (sid c) id)) (clients srv)) (next_sid srv) (http_log srv).

Definition find_socket (id : nat) (srv : server) : option socket :=
  List.find (fun c => Nat.eqb (sid c) id) (clients srv).

(** What can happen to the server, with the messages relayed so far: a
    connection, a message from an open client, the start of a close, and
    the close. *)
Inductive sstep : server * list (nat * frame) -> server * list (nat * frame) -> Prop :=
| step_request srv h url : sstep (srv, h) ((on_request url srv).2, h)
| step_connect srv h : sstep (srv, h) (on_connection srv, h)
| step_message srv h id f c :
    find_socket id srv = Some c -> ready c = OPEN ->
    sstep (srv, h) (on_message id f srv, h ++ [(id, f)])
| step_closing srv h id : sstep (srv, h) (set_ready id CLOSING srv, h)
| step_close srv h id : sstep (srv, h) (on_close id srv, h).

(** The messages of [h] a client [id] may receive: those of the others. *)
Definition from_others (id : nat) (h : list (nat * frame)) : list frame :=
  map snd (List.filter (fun e => negb (Nat.eqb e.1 id)) h).

(** Ids are distinct and below the counter, and each client's frames are
    the greeting followed by messages of other clients, in the order they
    were sent. *)
Definition wf (st : server * list (nat * frame)) : Prop :=
  let '(srv, h) := st in
  NoDup (map sid (clients srv)) /\
  Forall (fun c => sid c < next_sid srv /\
                   exists rest, inbox c = hello :: rest /\ sublist rest (from_others (sid c) h))
         (clients srv).

(** ** The relay *)

Lemma send_sid f c : sid (send_frame f c) = sid c.
Proof. unfold send_frame. by case_decide. Qed.

Lemma relay_sid sender f c : sid (relay sender f c) = sid c.
Proof. unfold relay. case_match; [apply send_sid | done]. Qed.

Lemma map_sid_relay sender f cs : map sid (map (relay sender f) cs) = map sid cs.
Proof. rewrite map_map. apply map_ext, relay_sid. Qed.

Lemma set_ready_sids id r srv : map sid (clients (set_ready id r srv)) = map sid (clients srv).
Proof. cbn. rewrite map_map. apply map_ext. intros c. by case_match. Qed.

Lemma from_others_app id h e :
  from_others id (h ++ [e]) = from_others id h ++ (if Nat.eqb e.1 id then [] else [e.2]).
Proof. unfold from_others. rewrite List.filter_app, map_app. cbn. by destruct (Nat.eqb e.1 id). Qed.

Lemma relay_inbox sender f c :
  inbox (relay sender f c) =
  inbox c ++ (if negb (Nat.eqb (sid c) sender) && bool_decide (ready c = OPEN) then [f] else []).
Proof.
  unfold relay. destruct (Nat.eqb (sid c) sender); cbn; [by rewrite app_nil_r|].
  unfold send_frame. case_bool_decide; [by rewrite decide_True | by rewrite app_nil_r].
Qed.

Lemma relay_ready sender f c : ready (relay sender f c) = ready c.
Proof. unfold relay, send_frame. case_match; [by case_decide | done]. Qed.

(** Sockets with the same id in a list of distinct ids are the same. *)
Lemma sid_unique cs c c' :
  NoDup (map sid cs) -> c ∈ cs -> c' ∈ cs -> sid c = sid c' -> c = c'.
Proof.
  induction cs as [|x cs IH]; [by intros _ ?%not_elem_of_nil|].
  cbn. intros [Hx Hn]%NoDup_cons Hc Hc' Hs.
  apply elem_of_cons in Hc as [->|Hc]; apply elem_of_cons in Hc' as [->|Hc']; try done.
  - exfalso. apply Hx. rewrite Hs. apply list_elem_of_In, in_map, list_elem_of_In, Hc'.
  - exfalso. apply Hx. rewrite <- Hs. apply list_elem_of_In, in_map, list_elem_of_In, Hc.
  - by apply IH.
Qed.

(** ** The invariant *)

Lemma wf_step st st' : sstep st st' -> wf st -> wf st'.
Proof.
  intros Hs. destruct Hs as [srv h url|srv h|srv h id f c Hf Ho|srv h id|srv h id];
    intros [Hn Hc].
  - split; done.
  - cbn in *. split.
    + rewrite map_app. cbn. rewrite send_sid. cbn. apply NoDup_app. split_and!; [done| |apply NoDup_singleton].
      intros x Hx ->%list_elem_of_singleton. apply list_elem_of_In, in_map_iff in Hx as (c & Hc' & Hin).
      apply list_elem_of_In in Hin. pose proof (proj1 (Forall_forall _ _) Hc c Hin) as [Hlt _]. lia.
    + apply Forall_app. split.
      * eapply Forall_impl; [exact Hc|]. intros c [Hlt Hr]. split; [lia|done].
      * apply Forall_singleton. rewrite send_sid. split; [cbn; lia|].
        exists []. split; [reflexivity | apply sublist_nil_l].
  - cbn in *. split; [by rewrite map_sid_relay|].
    apply Forall_forall. intros c' Hc'. apply list_elem_of_In, in_map_iff in Hc' as (c0 & <- & Hin).
    apply list_elem_of_In in Hin. destruct (proj1 (Forall_forall _ _) Hc c0 Hin) as [Hlt (rest & Hi & Hsub)].
    rewrite relay_sid. split; [done|]. rewrite relay_inbox, Hi, from_others_app. cbn [fst snd].
    rewrite (Nat.eqb_sym id (sid c0)). destruct (Nat.eqb (sid c0) id); cbn.
    + exists rest. split; [by rewrite app_nil_r|]. by apply sublist_inserts_r.
    + exists (rest ++ if bool_decide (ready c0 = OPEN) then [f] else []). split; [done|].
      case_bool_decide; [by apply sublist_app | rewrite app_nil_r; by apply sublist_inserts_r].
  - split; [by rewrite set_ready_sids|]. cbn in *.
    apply Forall_forall. intros c' Hc'. apply list_elem_of_In, in_map_iff in Hc' as (c0 & <- & Hin).
    apply list_elem_of_In in Hin. destruct (proj1 (Forall_forall _ _) Hc c0 Hin) as [Hlt Hr].
    by case_match.
  - cbn in *. split; [by apply NoDup_map_filter|].
    apply Forall_forall. intros c' Hin. apply list_elem_of_In, filter_In in Hin as [Hin _].
    apply list_elem_of_In in Hin. exact (proj1 (Forall_forall _ _) Hc c' Hin).
Qed.

(** C39: Every state the server can reach has distinct socket ids, and each
    client has received the greeting and then only messages of other
    clients, in the order they were sent: a message is never echoed to its
    sender. *)
Theorem reachable_wf st : rtc sstep (server0, []) st -> wf st.
Proof.
  intros Hr. assert (wf (server0, [])) as H0 by (split; constructor).
  revert H0. induction Hr as [|x y z Hs _ IH]; [done|]. intros Hx. by apply IH, (wf_step x y).
Qed.

End WsServer.

(** The React client of App.jsx. *)
Module WsApp.
Import WsServer.

(** [const [socket, setSocket] = useState(null)] and
    [const [message, setMessage] = useState('')] *)
Record app : Type := mkApp { socket_of : option nat; message : string }.

Definition app0 : app := mkApp None "".

(** [socket.onopen = () => { ...; setSocket(socket) }] *)
Definition onopen (id : nat) (a : app) : app := mkApp (Some id) (message a).

(** [socket.onmessage = (message) => { ...; setMessage(message.data) }] *)
Definition onmessage (data : string) (a : app) : app := mkApp (socket_of a) data.

Inductive view : Type :=
| Loading
| Page (button : string) (shown : string).

(** [if (!socket) return <div>Loading...</div>; return (<> <button ...> ... {message} </>)] *)
Definition render (a : app) : view :=
  match socket_of a with
  | None => Loading
  | Some _ => Page "Send message to server" (message a)
  end.

(** [onClick={() => socket.send('Hello from client')}] *)
Definition click (a : app) : option (nat * frame) :=
  match socket_of a with
  | Some id => Some (id, mkFrame "Hello from client" false)
  | None => None
  end.

(** The client behind a server-side socket: opened, then every frame the
    server sent handed to [onmessage] in order. *)
Definition app_of (c : socket) : app :=
  fold_left (fun a f => onmessage (payload f) a) (inbox c) (onopen (sid c) app0).

(** Messages change what the page shows, never its socket. *)
Lemma fold_left_socket fs a :
  socket_of (fold_left (fun a f => onmessage (payload f) a) fs a) = socket_of a.
Proof. revert a. induction fs as [|f fs IH]; intros a; [done|]. cbn. by rewrite IH. Qed.

Lemma app_of_socket c : socket_of (app_of c) = Some (sid c).
Proof. unfold app_of. by rewrite fold_left_socket. Qed.

Lemma app_of_relay sender f c :
  sid c <> sender -> ready c = OPEN -> app_of (relay sender f c) = onmessage (payload f) (app_of c).
Proof.
  intros Hs Ho. unfold app_of. rewrite relay_inbox, relay_sid.
  rewrite (proj2 (Nat.eqb_neq _ _) Hs), bool_decide_eq_true_2 by done. cbn.
  by rewrite fold_left_app.
Qed.

Lemma relay_self sender f c : sid c = sender -> relay sender f c = c.
Proof. intros <-. unfold relay. by rewrite Nat.eqb_refl. Qed.

(** C40: A click in one open client reaches every other open client, which
    then shows ["Hello from client"], and is not echoed back: the clicking
    client's page is unchanged. *)
Theorem click_relayed srv h ci :
  wf (srv, h) -> ci ∈ clients srv -> ready ci = OPEN ->
  exists f, click (app_of ci) = Some (sid ci, f) /\
  (forall c, c ∈ clients (on_message (sid ci) f srv) -> sid c <> sid ci -> ready c = OPEN ->
     render (app_of c) = Page "Send message to server" "Hello from client") /\
  (forall c, c ∈ clients (on_message (sid ci) f srv) -> sid c = sid ci ->
     render (app_of c) = render (app_of ci)).
Proof.
  intros [Hn _] Hci Ho. exists (mkFrame "Hello from client" false).
  split; [unfold click; by rewrite app_of_socket|]. split.
  - intros c Hc Hs Hr. apply list_elem_of_In, in_map_iff in Hc as (c0 & <- & _).
    rewrite relay_sid in Hs. rewrite relay_ready in Hr. rewrite app_of_relay by done.
    unfold render. cbn [onmessage socket_of message]. by rewrite app_of_socket.
  - intros c Hc Hs. apply list_elem_of_In, in_map_iff in Hc as (c0 & <- & Hin).
    rewrite relay_sid in Hs. rewrite relay_self by done.
    apply list_elem_of_In in Hin. by rewrite (sid_unique _ c0 ci Hn Hin Hci Hs).
Qed.
End WsApp.

(** ** Runs on a concrete server *)

Import WsServer WsApp.

(** Two browser tabs connected to the relay. *)
Definition two_clients : server := on_connection (on_connection server0).

Definition ping : frame := mkFrame "ping" false.

Lemma two_clients_wf : wf (two_clients, []).
Proof.
  apply (wf_step (on_connection server0, [])); [apply step_connect|].
  apply (wf_step (server0, [])); [apply step_connect | split; constructor].
Qed.

Lemma reachable_wf_witness : wf (on_message 0 ping two_clients, [(0, ping)]).
Proof.
  apply reachable_wf.
  eapply rtc_l; [apply step_connect|]. eapply rtc_l; [apply step_connect|].
  eapply rtc_l; [apply (step_message _ _ 0 ping (mkSocket 0 OPEN [hello])); reflexivity|].
  apply rtc_refl.
Defined.

Lemma click_relayed_witness :
  exists f, click (app_of (mkSocket 0 OPEN [hello])) = Some (0, f) /\
  (forall c, c ∈ clients (on_message 0 f two_clients) -> sid c <> 0 -> ready c = OPEN ->
     render (app_of c) = Page "Send message to server" "Hello from client") /\
  (forall c, c ∈ clients (on_message 0 f two_clients) -> sid c = 0 ->
     render (app_of c) = render (app_of (mkSocket 0 OPEN [hello]))).
Proof.
  apply (click_relayed two_clients []); [apply two_clients_wf | | reflexivity].
  apply elem_of_cons. left. reflexivity.
Defined.
