(* ===== verification/Leetcode.v ===== *)
(** The Leetcode submission queue (Redis-Leetcode/server/src/index.ts and
    Redis-Leetcode/worker/src/index.ts).  The server's [POST /submit]
    serializes the submission, [LPUSH]es it on the list [submissions] and
    [PUBLISH]es it on the channel of the same name, where the server's own
    subscriber logs it.  The worker connects and then loops on
    [BRPOP submissions 0], parsing each element; on any error it schedules
    [main] again after five seconds.  The two processes share one Redis
    server; each has its own client connections.  The server's HTTP layer
    ([express.json()] and its two routes) is [route].

    node-redis's [client.connect()] ([redis_connect]) sets [isOpen] at
    once and rejects on a client already open.  A failed attempt emits
    ['error']: the server's connections have a listener (lines 10-16), so
    they retry until Redis answers and [await client.connect()] stays
    pending; the worker's client has none, so the attempt throws and the
    promise rejects with the client left open.  For the same reason a lost
    connection ends the worker's process (an ['error'] event without a
    listener is an uncaught exception). *)

From S2P Require Import Prelude Js.
Local Open Scope string_scope.
Local Open Scope list_scope.

Module Queue.

(** The Redis server: its lists, and the channels the server process's
    [subscriber] connection listens on.  Whether a connection can be
    opened at all is [up]. *)
Record redis : Type := mkRedis {
  up : bool;
  lists : gmap string (list string);
  channels : list string
}.

Definition closed_msg : string := "The client is closed".

(** The elements of the list at [k], head first; a missing key is an empty
    list. *)
Definition list_at (k : string) (r : redis) : list string := default [] (lists r !! k).

(** [client.lPush(k, v)]: the element goes to the head; the reply is the
    new length. *)
Definition lpush (open : bool) (k v : string) (r : redis) : res nat * redis :=
  if open then
    let l := v :: list_at k r in (Ok (List.length l), mkRedis (up r) (<[k := l]> (lists r)) (channels r))
  else (Throw closed_msg, r).

(** [client.publish(ch, msg)]: the reply is the number of subscribers that
    receive it (here the server's [subscriber], when it listens on [ch]). *)
Definition publish (open : bool) (ch : string) (r : redis) : res nat :=
  if open then Ok (if bool_decide (ch ∈ channels r) then 1 else 0) else Throw closed_msg.

(** [client.brPop(k, 0)]: the tail of the list, removed (a list left empty
    is deleted); [None] while the list is empty, as the call blocks. *)
Definition brpop (open : bool) (k : string) (r : redis) : option (res string * redis) :=
  if open then
    match list_at k r with
    | [] => None
    | l => Some (Ok (List.last l ""),
                 mkRedis (up r) (match removelast l with
                                 | [] => delete k (lists r)
                                 | l' => <[k := l']> (lists r)
                                 end) (channels r))
    end
  else Some (Throw closed_msg, r).

(** Where the worker's [main] stands. *)
Inductive wpc : Type :=
| WStart      (** [main()] is called: before [await client.connect()] *)
| WLoop       (** in [while (true)], before [await client.brPop(...)] *)
| WSleeping   (** the [catch] ran: [setTimeout(main, 5000)] is pending *)
| WDead.      (** the process has ended on an uncaught exception *)

(** Both processes, and what has gone through the list (the elements
    pushed and popped, oldest first), which no code reads. *)
Record system : Type := mkSys {
  redis_of : redis;
  srv_client : bool;          (** [client.isOpen] in the server *)
  srv_subscriber : bool;      (** [subscriber.isOpen] in the server *)
  srv_listening : bool;
  srv_log : list string;      (** what the subscriber's callback printed *)
  wk_open : bool;             (** [client.isOpen] in the worker *)
  wk_pc : wpc;
  wk_seen : list jsval;       (** the messages the worker parsed *)
  pushed : list string;
  popped : list string
}.

Definition with_redis (r : redis) (s : system) : system :=
  mkSys r (srv_client s) (srv_subscriber s) (srv_listening s) (srv_log s) (wk_open s) (wk_pc s)
        (wk_seen s) (pushed s) (popped s).

(** ** The server *)

(** What [client.connect()] does: [CPending] while the promise has not
    settled. *)
Inductive conn : Type := CConnected | CPending | CRejected (e : string).

Definition redis_connect (listener is_open reachable : bool) : conn :=
  if is_open then CRejected "Socket already opened"
  else if reachable then CConnected
  else if listener then CPending
  else CRejected "connect ECONNREFUSED 127.0.0.1:6379".

(** [client.on('error', ...)] and [subscriber.on('error', ...)] in the
    server; [const client = createClient()] in the worker, with no
    listener. *)
Definition srv_error_listener : bool := true.
Definition wk_error_listener : bool := false.

(** One [if (!c.isOpen) { try { await c.connect(); ... } catch ... }] of
    [connectToRedis]: [None] while the [await] is pending, otherwise
    [isOpen] after it and whether it connected. *)
Definition connect_open (is_open : bool) (r : redis) : option (bool * bool) :=
  if is_open then Some (true, false)
  else match redis_connect srv_error_listener false (up r) with
       | CConnected => Some (true, true)
       | CPending => None
       | CRejected _ => Some (true, false)
       end.

(** [connectToRedis()]: the client, then the subscriber, which subscribes
    to [submissions] once connected; [None] while a connection waits for
    an unreachable Redis. *)
Definition connectToRedis (s : system) : option system :=
  let r := redis_of s in
  match connect_open (srv_client s) r with
  | None => None
  | Some (c, _) =>
      match connect_open (srv_subscriber s) r with
      | None => None
      | Some (sub, fresh) =>
          let r' := if fresh then mkRedis (up r) (lists r) (channels r ++ ["submissions"]) else r in
          Some (mkSys r' c sub (srv_listening s) (srv_log s) (wk_open s) (wk_pc s)
                      (wk_seen s) (pushed s) (popped s))
      end
  end.

(** [startServer()]: [app.listen] once [connectToRedis()] has returned. *)
Definition startServer (s : system) : option system :=
  match connectToRedis s with
  | Some s' => Some (mkSys (redis_of s') (srv_client s') (srv_subscriber s') true (srv_log s')
                           (wk_open s') (wk_pc s') (wk_seen s') (pushed s') (popped s'))
  | None => None
  end.

(** The object [{ problemId, userId, code, language }], built from the
    fields of the body ([undefined] for a missing one). *)
Definition submission_of (body : jsval) : res jsval :=
  match prop body "problemId", prop body "userId", prop body "code", prop body "language" with
  | Ok p, Ok u, Ok c, Ok l => Ok (JObj [("problemId", p); ("userId", u); ("code", c); ("language", l)])
  | _, _, _, _ => Throw "Cannot destructure req.body"
  end.

(** [app.post('/submit', ...)]: the status and text of the reply; [None]
    when the destructuring before the [try] throws and no reply is sent.
    The subscriber's callback runs when the message is published. *)
Definition submit (body : jsval) (s : system) : option (Z * string) * system :=
  match submission_of body with
  | Throw _ => (None, s)
  | Ok obj =>
      let submission := ser obj in
      match lpush (srv_client s) "submissions" submission (redis_of s) with
      | (Throw _, _) => (Some (500%Z, "Error submitting code"), s)
      | (Ok _, r) =>
          let s1 := mkSys r (srv_client s) (srv_subscriber s) (srv_listening s) (srv_log s)
                          (wk_open s) (wk_pc s) (wk_seen s) (pushed s ++ [submission]) (popped s) in
          match publish (srv_client s) "submissions" r with
          | Throw _ => (Some (500%Z, "Error submitting code"), s1)
          | Ok n =>
              let log := if Nat.eqb n 0 then srv_log s else srv_log s ++ [submission] in
              (Some (200%Z, "Code submitted successfully"),
               mkSys r (srv_client s) (srv_subscriber s) (srv_listening s) log
                     (wk_open s) (wk_pc s) (wk_seen s) (pushed s ++ [submission]) (popped s))
          end
      end
  end.

(** ** The HTTP layer: [app.use(express.json())] and the two routes *)

(** The body of a request: JSON (as [JSON.parse] reads it), text that is
    not JSON, or a body of another content type. *)
Inductive body : Type := JsonBody (v : jsval) | MalformedJson | OtherBody.

(** What [express.json()] leaves in [req.body]: a JSON object or array
    (strict mode refuses any other value), [{}] when the content type is
    not JSON, and a 400 from the error handler for a body it refuses. *)
Definition parse_body (b : body) : option jsval :=
  match b with
  | JsonBody (JObj fs) => Some (JObj fs)
  | JsonBody (JArr xs) => Some (JArr xs)
  | JsonBody _ | MalformedJson => None
  | OtherBody => Some (JObj [])
  end.

Inductive http_req : Type := HGet (path : string) | HPost (path : string) (b : body).

(** The server's answer to a request: none before [app.listen]; Express's
    404 page (its text) for a path no route handles. *)
Definition route (r : http_req) (s : system) : option (Z * string) * system :=
  if negb (srv_listening s) then (None, s) else
  match r with
  | HGet p =>
      if String.eqb p "/" then (Some (200%Z, "Hello World"), s)
      else (Some (404%Z, ("Cannot GET " ++ p)%string), s)
  | HPost p b =>
      match parse_body b with
      | None => (Some (400%Z, "Bad Request"), s)
      | Some v =>
          if String.eqb p "/submit" then submit v s
          else (Some (404%Z, ("Cannot POST " ++ p)%string), s)
      end
  end.

(** C26: Nothing checks the submission: a [POST /submit] whose body is not JSON
    leaves [req.body] empty, and the server queues the submission ["{}"]
    and answers that the code was submitted. *)
Theorem empty_submission_queued s :
  srv_listening s = true -> srv_client s = true ->
  (route (HPost "/submit" OtherBody) s).1 = Some (200%Z, "Code submitted successfully") /\
  list_at "submissions" (redis_of (route (HPost "/submit" OtherBody) s).2)
  = "{}" :: list_at "submissions" (redis_of s).
Proof.
  intros Hl Hc. unfold route, submit, lpush, publish. rewrite Hl, Hc. cbn.
  split; [by repeat case_match | unfold list_at; cbn; by rewrite lookup_insert_eq].
Qed.

(** ** The worker *)

Definition set_worker (open : bool) (pc : wpc) (s : system) : system :=
  mkSys (redis_of s) (srv_client s) (srv_subscriber s) (srv_listening s) (srv_log s) open pc
        (wk_seen s) (pushed s) (popped s).

(** One step of the worker's [main]: [None] while it waits ([brPop] on an
    empty list) or has ended. *)
Definition worker_step (s : system) : option system :=
  match wk_pc s with
  | WStart =>
      match redis_connect wk_error_listener (wk_open s) (up (redis_of s)) with
      | CConnected => Some (set_worker true WLoop s)
      | CPending => None
      | CRejected _ => Some (set_worker true WSleeping s)
      end
  | WLoop =>
      match brpop (wk_open s) "submissions" (redis_of s) with
      | None => None
      | Some (Throw _, r) => Some (set_worker (wk_open s) WSleeping (with_redis r s))
      | Some (Ok e, r) =>
          let s1 := mkSys r (srv_client s) (srv_subscriber s) (srv_listening s) (srv_log s)
                          (wk_open s) WLoop (wk_seen s) (pushed s) (popped s ++ [e]) in
          match json_parse e with
          | Some v => Some (mkSys r (srv_client s) (srv_subscriber s) (srv_listening s) (srv_log s)
                                  (wk_open s) WLoop (wk_seen s ++ [v]) (pushed s) (popped s ++ [e]))
          | None => Some (set_worker (wk_open s) WSleeping s1)
          end
      end
  | WSleeping => Some (set_worker (wk_open s) WStart s)   (* the timer fires: [main()] *)
  | WDead => None
  end.

(** ** The system *)

Inductive event : Type :=
| Submit (body : jsval)   (** a [POST /submit] with a JSON body *)
| Push (v : string)       (** another Redis client runs [LPUSH submissions v] *)
| Work                    (** the worker runs until its next [await] *)
| Drop                    (** Redis closes the worker's connection *)
| RedisUp                 (** the Redis server becomes reachable *)
| Boot.                   (** the server process runs [startServer()] *)

Definition exec_event (a : event) (s : system) : option system :=
  match a with
  | Submit body => Some (route (HPost "/submit" (JsonBody body)) s).2
  | Push v =>
      match lpush true "submissions" v (redis_of s) with
      | (Ok _, r) => Some (mkSys r (srv_client s) (srv_subscriber s) (srv_listening s) (srv_log s)
                                 (wk_open s) (wk_pc s) (wk_seen s) (pushed s ++ [v]) (popped s))
      | (Throw _, _) => None
      end
  | Work => worker_step s
  | Drop => Some (if wk_open s then set_worker true WDead s else s)
  | RedisUp => Some (with_redis (mkRedis true (lists (redis_of s)) (channels (redis_of s))) s)
  | Boot => startServer s
  end.

Fixpoint run_events (sched : list event) (s : system) : option system :=
  match sched with
  | [] => Some s
  | a :: sched' => match exec_event a s with Some s' => run_events sched' s' | None => None end
  end.

(** Both processes before they start, with Redis reachable or not. *)
Definition sys0 (up : bool) : system :=
  mkSys (mkRedis up ∅ []) false false false [] false WStart [] [] [].

(** ** The list is a FIFO queue *)

(** Everything pushed is either popped already or still in the list, and
    the worker pops in the order of the pushes. *)
Definition fifo (s : system) : Prop :=
  popped s ++ rev (list_at "submissions" (redis_of s)) = pushed s.

(** The worker has parsed every popped element that parses, in order. *)
Definition seen_popped (s : system) : Prop := wk_seen s = omap json_parse (popped s).

(** The server's start and Redis becoming reachable leave the queue and
    the worker as they are. *)
Definition same_queue (s s' : system) : Prop :=
  list_at "submissions" (redis_of s') = list_at "submissions" (redis_of s) /\
  pushed s' = pushed s /\ popped s' = popped s /\
  wk_open s' = wk_open s /\ wk_pc s' = wk_pc s /\ wk_seen s' = wk_seen s.

Lemma list_at_insert k l u m c : list_at k (mkRedis u (<[k := l]> m) c) = l.
Proof. unfold list_at. cbn. by rewrite lookup_insert_eq. Qed.

Lemma startServer_same s s' : startServer s = Some s' -> same_queue s s'.
Proof.
  unfold startServer, connectToRedis, connect_open, redis_connect, srv_error_listener.
  destruct (srv_client s), (srv_subscriber s), (up (redis_of s)); cbn; intros H; simplify_eq/=;
    by split_and!.
Qed.

(** A [POST /submit] either reaches the handler or leaves everything as
    it is. *)
Lemma route_submit_cases b s :
  (route (HPost "/submit" b) s).2 = s \/ exists v, (route (HPost "/submit" b) s).2 = (submit v s).2.
Proof.
  unfold route. destruct (srv_listening s); cbn; [|by left].
  destruct (parse_body b) as [v|]; cbn; [right; by exists v | by left].
Qed.

(** The handler touches the list and [pushed], nothing of the worker. *)
Lemma submit_worker body s :
  let s' := (submit body s).2 in
  popped s' = popped s /\ wk_seen s' = wk_seen s /\ wk_open s' = wk_open s /\ wk_pc s' = wk_pc s /\
  up (redis_of s') = up (redis_of s) /\ srv_client s' = srv_client s /\ srv_listening s' = srv_listening s.
Proof.
  unfold submit, lpush, publish. destruct (submission_of body); [|done].
  destruct (srv_client s) eqn:E; cbn; by split_and!.
Qed.

Lemma submit_fifo body s : fifo s -> fifo (submit body s).2.
Proof.
  unfold fifo, submit. intros Hf. destruct (submission_of body) as [obj|]; [|done].
  unfold lpush, publish. destruct (srv_client s); [|done]. cbn [snd fst redis_of pushed popped].
  rewrite list_at_insert; cbn; by rewrite app_assoc, Hf.
Qed.

Lemma brpop_pop k r e r' :
  brpop true k r = Some (Ok e, r') -> rev (list_at k r) = e :: rev (list_at k r').
Proof.
  unfold brpop. destruct (list_at k r) as [|x l] eqn:E; [done|].
  remember (x :: l) as l0 eqn:El. intros [= <- <-].
  assert (Hl : l0 = removelast l0 ++ [List.last l0 ""]) by (apply app_removelast_last; by subst).
  unfold list_at. cbn [lists]. destruct (removelast l0) as [|y l'] eqn:Er; rewrite Hl at 1.
  - rewrite lookup_delete_eq. done.
  - rewrite lookup_insert_eq. cbn [default]. by rewrite rev_app_distr.
Qed.

Lemma brpop_closed k r : brpop false k r = Some (Throw closed_msg, r).
Proof. done. Qed.

(** What a step of the worker leaves of the server and of Redis. *)
Lemma worker_step_server s s' :
  worker_step s = Some s' ->
  up (redis_of s') = up (redis_of s) /\ srv_client s' = srv_client s /\ srv_listening s' = srv_listening s.
Proof.
  unfold worker_step. intros H. destruct (wk_pc s).
  - unfold redis_connect, wk_error_listener in H.
    destruct (wk_open s), (up (redis_of s)) eqn:Eu; injection H as <-; cbn; rewrite ?Eu; by split_and!.
  - destruct (brpop _ _ _) as [[x r]|] eqn:Eb; [|done].
    assert (Hu : up r = up (redis_of s)).
    { unfold brpop in Eb. destruct (wk_open s); [|by injection Eb as _ <-].
      destruct (list_at _ _); [done|]. by injection Eb as _ <-. }
    destruct x as [e|m]; [destruct (json_parse e)|]; injection H as <-; cbn; by split_and!.
  - injection H as <-; by split_and!.
  - done.
Qed.

Lemma exec_fifo a s s' : exec_event a s = Some s' -> fifo s -> fifo s'.
Proof.
  destruct a as [body|v| | | |]; cbn; intros He Hf.
  - injection He as <-. destruct (route_submit_cases (JsonBody body) s) as [->|[v ->]]; [done|].
    by apply submit_fifo.
  - injection He as <-. unfold fifo in *. cbn. rewrite list_at_insert. cbn. by rewrite app_assoc, Hf.
  - unfold worker_step in He. destruct (wk_pc s).
    + unfold redis_connect, wk_error_listener in He.
      destruct (wk_open s), (up (redis_of s)); injection He as <-; exact Hf.
    + revert He. destruct (wk_open s); intros He.
      * destruct (brpop true _ _) as [[[e|m] r]|] eqn:Eb; [|..|done].
        -- pose proof (brpop_pop _ _ _ _ Eb) as Hp. unfold fifo in *.
           destruct (json_parse e); injection He as <-; cbn;
             rewrite <- Hf, Hp, <- app_assoc; reflexivity.
        -- unfold brpop in Eb. destruct (list_at _ _); [done|]. discriminate.
      * rewrite brpop_closed in He. injection He as <-. exact Hf.
    + injection He as <-. exact Hf.
    + done.
  - injection He as <-. by destruct (wk_open s).
  - injection He as <-. exact Hf.
  - destruct (startServer_same s s' He) as (Hl & Hp & Ho & _). unfold fifo in *. by rewrite Hl, Hp, Ho.
Qed.

Lemma exec_seen a s s' : exec_event a s = Some s' -> seen_popped s -> seen_popped s'.
Proof.
  unfold seen_popped. destruct a as [body|v| | | |]; cbn; intros He Hs.
  - injection He as <-. destruct (route_submit_cases (JsonBody body) s) as [->|[v ->]]; [done|].
    by destruct (submit_worker v s) as (-> & -> & _).
  - by injection He as <-.
  - unfold worker_step in He. destruct (wk_pc s).
    + unfold redis_connect, wk_error_listener in He.
      destruct (wk_open s), (up (redis_of s)); by injection He as <-.
    + destruct (brpop (wk_open s) _ _) as [[[e|m] r]|]; [|..|done].
      * destruct (json_parse e) eqn:Ej; injection He as <-; cbn; rewrite omap_snoc, Ej, Hs; by rewrite ?app_nil_r.
      * by injection He as <-.
    + by injection He as <-.
    + done.
  - injection He as <-. by destruct (wk_open s).
  - by injection He as <-.
  - destruct (startServer_same s s' He) as (_ & _ & -> & _ & _ & ->). exact Hs.
Qed.

(** A property every step of a schedule keeps holds after the schedule. *)
Lemma run_inv (P : system -> Prop) sched s s' :
  (forall a t t', a ∈ sched -> exec_event a t = Some t' -> P t -> P t') ->
  run_events sched s = Some s' -> P s -> P s'.
Proof.
  revert s. induction sched as [|a sched IH]; intros s Hstep Hr Hs; cbn in Hr.
  - by injection Hr as <-.
  - destruct (exec_event a s) as [s1|] eqn:He; [|done]. apply (IH s1); [|done|].
    + intros b t t' Hb. apply Hstep. by apply elem_of_cons; right.
    + apply (Hstep a s s1); [apply elem_of_cons; by left | done | done].
Qed.

(** C33: The invariant holds from the start, whatever the schedule. *)
Theorem queue_fifo up sched s :
  run_events sched (sys0 up) = Some s ->
  popped s ++ rev (list_at "submissions" (redis_of s)) = pushed s /\
  wk_seen s = omap json_parse (popped s).
Proof.
  intros Hr. split.
  - apply (run_inv fifo sched (sys0 up) s); [intros a t t' _; apply exec_fifo | done | done].
  - apply (run_inv seen_popped sched (sys0 up) s); [intros a t t' _; apply exec_seen | done | done].
Qed.

(** ** Without other writers, the worker reads the submissions *)

(** Every element pushed is the serialization of a value other than
    [undefined]. *)
Definition clean (s : system) : Prop :=
  exists objs, pushed s = map ser objs /\ Forall (fun o => o <> JUndefined) objs.

Definition no_push (a : event) : Prop := match a with Push _ => False | _ => True end.

Lemma submission_defined body obj : submission_of body = Ok obj -> obj <> JUndefined.
Proof. unfold submission_of. repeat case_match; congruence. Qed.

Lemma submit_clean body s : clean s -> clean (submit body s).2.
Proof.
  intros (objs & Hp & Hd). unfold submit.
  destruct (submission_of body) as [obj|] eqn:Eb; [|by exists objs].
  assert (Hobj : obj <> JUndefined) by (by apply (submission_defined body)).
  unfold lpush, publish. destruct (srv_client s); [|by exists objs].
  exists (objs ++ [obj]). cbn. rewrite Hp, map_app. split; [done|].
  apply Forall_app. by split; [|constructor].
Qed.

Lemma exec_clean a s s' : no_push a -> exec_event a s = Some s' -> clean s -> clean s'.
Proof.
  intros Ha He Hc. destruct a as [body|v| | | |]; cbn in He; [|done|..].
  - injection He as <-. destruct (route_submit_cases (JsonBody body) s) as [->|[v ->]]; [done|].
    by apply submit_clean.
  - destruct Hc as (objs & Hp & Hd). unfold worker_step in He. exists objs. split; [|done].
    rewrite <- Hp. repeat case_match; simplify_eq; done.
  - injection He as <-. by destruct (wk_open s).
  - by injection He as <-.
  - destruct (startServer_same s s' He) as (_ & Hp & _). destruct Hc as (objs & Hp' & Hd).
    exists objs. by rewrite Hp.
Qed.

Lemma omap_parse_take objs n :
  Forall (fun o => o <> JUndefined) objs ->
  omap json_parse (take n (map ser objs)) = map json_norm (take n objs).
Proof.
  revert n. induction objs as [|o objs IH]; intros n Hd; [by destruct n|].
  destruct n as [|n]; [done|]. apply Forall_cons in Hd as [Ho Hd]. cbn [map firstn].
  rewrite omap_cons, parse_ser_norm by done. cbn [map firstn]. by rewrite IH.
Qed.

(** C34: With no other writer than the server, the worker has parsed exactly
    the first submissions, in the order they were made, each as
    [JSON.parse(JSON.stringify(obj))] reads it. *)
Theorem worker_sees_submissions up sched s :
  run_events sched (sys0 up) = Some s -> Forall no_push sched ->
  exists objs, pushed s = map ser objs /\
    wk_seen s = map json_norm (take (List.length (wk_seen s)) objs).
Proof.
  intros Hr Hn.
  assert (Hf : fifo s) by (apply (run_inv fifo sched (sys0 up) s); [intros ???? ; apply exec_fifo | done | done]).
  assert (Hs : seen_popped s)
    by (apply (run_inv seen_popped sched (sys0 up) s); [intros ????; apply exec_seen | done | done]).
  assert (Hc : clean s).
  { apply (run_inv clean sched (sys0 up) s); [|done | by exists []].
    intros a t t' Ha. apply exec_clean. by apply (proj1 (Forall_forall _ _) Hn). }
  destruct Hc as (objs & Hp & Hd). exists objs. split; [done|].
  unfold fifo, seen_popped in *.
  assert (Hpop : popped s = take (List.length (popped s)) (map ser objs)).
  { rewrite <- Hp, <- Hf, take_app_length. done. }
  set (n := List.length (popped s)) in Hpop.
  assert (Hn' : n <= List.length objs).
  { pose proof (f_equal List.length Hpop) as E. rewrite length_take, length_map in E. lia. }
  assert (Hw : wk_seen s = map json_norm (take n objs)) by (rewrite Hs, Hpop; by apply omap_parse_take).
  rewrite Hw at 1. do 2 f_equal. rewrite Hw, length_map, length_take. lia.
Qed.

(** ** The worker's progress *)

Lemma brpop_oldest k r e os :
  list_at k r = rev (e :: os) ->
  exists r', brpop true k r = Some (Ok e, r') /\ list_at k r' = rev os /\ up r' = up r /\
             channels r' = channels r.
Proof.
  intros H. unfold brpop. rewrite H. cbn [rev].
  destruct (rev os ++ [e]) as [|x l] eqn:El; [by destruct (rev os)|].
  rewrite <- El, last_last, removelast_last.
  eexists. split; [reflexivity|]. unfold list_at. cbn [lists up channels].
  destruct (rev os) as [|y l'] eqn:Er.
  - by rewrite lookup_delete_eq.
  - by rewrite lookup_insert_eq.
Qed.

Lemma drain os s :
  wk_pc s = WLoop -> wk_open s = true -> list_at "submissions" (redis_of s) = rev os ->
  Forall (fun e => is_Some (json_parse e)) os ->
  exists s', run_events (repeat Work (List.length os)) s = Some s' /\
    list_at "submissions" (redis_of s') = [] /\ wk_seen s' = wk_seen s ++ omap json_parse os /\
    wk_pc s' = WLoop /\ wk_open s' = true.
Proof.
  revert s. induction os as [|e os IH]; intros s Hpc Ho Hl Hp.
  - exists s. by rewrite app_nil_r.
  - apply Forall_cons in Hp as [[v Hv] Hp].
    destruct (brpop_oldest _ _ _ _ Hl) as (r' & Hb & Hl' & _).
    cbn [repeat List.length run_events exec_event]. unfold worker_step. rewrite Hpc, Ho, Hb, Hv.
    edestruct (IH (mkSys r' (srv_client s) (srv_subscriber s) (srv_listening s) (srv_log s)
                         true WLoop (wk_seen s ++ [v]) (pushed s) (popped s ++ [e])))
      as (s' & Hr & He & Hs & Hpc' & Ho'); [done..|].
    exists s'. split_and!; try done. rewrite Hs, omap_cons, Hv. cbn. by rewrite <- app_assoc.
Qed.

(** C30: Liveness of the loop: a worker waiting in [brPop] with an open
    client pops and parses every element of the list, oldest first, in as
    many steps as there are elements, and waits again on the empty list. *)
Theorem worker_drains s :
  wk_pc s = WLoop -> wk_open s = true ->
  Forall (fun e => is_Some (json_parse e)) (list_at "submissions" (redis_of s)) ->
  exists s', run_events (repeat Work (List.length (list_at "submissions" (redis_of s)))) s = Some s' /\
    list_at "submissions" (redis_of s') = [] /\
    wk_seen s' = wk_seen s ++ omap json_parse (rev (list_at "submissions" (redis_of s))) /\
    wk_pc s' = WLoop.
Proof.
  intros Hpc Ho Hp. rewrite <- (length_rev (list_at _ _)).
  destruct (drain (rev (list_at "submissions" (redis_of s))) s Hpc Ho) as (s' & ? & ? & ? & ? & _);
    [by rewrite rev_involutive | by apply Forall_rev |].
  by exists s'.
Qed.

(** The worker after a failure with its client still open: [main] calls
    [client.connect()] again, which rejects, and so on every five seconds;
    or the process has ended. *)
Definition parked (s : system) : Prop := wk_open s = true /\ wk_pc s <> WLoop.

Lemma exec_parked a s s' :
  exec_event a s = Some s' -> parked s ->
  popped s' = popped s /\ wk_seen s' = wk_seen s /\ parked s'.
Proof.
  intros He [Ho Hpc]. destruct a as [body|v| | | |]; cbn in He.
  - injection He as <-. destruct (route_submit_cases (JsonBody body) s) as [->|[v ->]]; [done|].
    destruct (submit_worker v s) as (-> & -> & Ho' & Hpc' & _). unfold parked. by rewrite Ho', Hpc'.
  - injection He as <-. unfold parked. by split_and!.
  - unfold worker_step, redis_connect in He. rewrite Ho in He.
    destruct (wk_pc s); try done; injection He as <-; unfold parked; cbn; split_and!; done.
  - injection He as <-. rewrite Ho. unfold parked. cbn. split_and!; done.
  - by injection He as <-.
  - destruct (startServer_same s s' He) as (_ & _ & -> & Ho' & Hpc' & ->). unfold parked.
    by rewrite Ho', Hpc'.
Qed.

(** C35: A worker whose [main] failed with its client open never pops
    again, whatever happens next, Redis coming back and the connection
    being lost included: each retry's [client.connect()] rejects on the
    open client, and a lost connection ends the process.  This is the
    fate of a worker started while Redis is unreachable, or that popped
    an element [JSON.parse] refuses. *)
Theorem worker_stuck s sched s' :
  wk_open s = true -> wk_pc s <> WLoop -> run_events sched s = Some s' ->
  popped s' = popped s /\ wk_seen s' = wk_seen s /\ wk_pc s' <> WLoop.
Proof.
  intros Ho Hpc Hr.
  assert (H : popped s' = popped s /\ wk_seen s' = wk_seen s /\ parked s').
  { apply (run_inv (fun t => popped t = popped s /\ wk_seen t = wk_seen s /\ parked t) sched s s');
      [|done | split_and!; done].
    intros a t t' _ He (Hp & Hw & Hk).
    destruct (exec_parked a t t') as (Hp' & Hw' & Hk'); [done|done|].
    split_and!; congruence. }
  destruct H as (? & ? & _ & ?). done.
Qed.

(** ** The server waits for Redis *)

Definition offline (s : system) : Prop :=
  up (redis_of s) = false /\ srv_client s = false /\ srv_listening s = false.

Lemma exec_offline a s s' : a <> RedisUp -> exec_event a s = Some s' -> offline s -> offline s'.
Proof.
  intros Ha He (Hu & Hc & Hl). destruct a as [body|v| | | |]; cbn in He.
  - injection He as <-. unfold route. rewrite Hl. done.
  - injection He as <-. unfold offline. by split_and!.
  - destruct (worker_step_server s s' He) as (Hu' & Hc' & Hl'). unfold offline. by rewrite Hu', Hc', Hl'.
  - injection He as <-. by destruct (wk_open s).
  - done.
  - unfold startServer, connectToRedis, connect_open, redis_connect, srv_error_listener in He.
    by rewrite Hc, Hu in He.
Qed.

(** C36: While Redis is unreachable the server never listens: the
    [await client.connect()] of [connectToRedis] keeps retrying (the
    ['error'] listener prints each failure) and never returns, so its
    [catch] never runs, [startServer] never reaches [app.listen], and
    every request goes unanswered, whatever else happens. *)
Theorem server_waits_for_redis sched s :
  Forall (fun a => a <> RedisUp) sched -> run_events sched (sys0 false) = Some s ->
  srv_listening s = false /\ forall r, route r s = (None, s).
Proof.
  intros Hn Hr.
  assert (Ho : offline s).
  { apply (run_inv offline sched (sys0 false) s); [|done | done].
    intros a t t' Ha. apply exec_offline. by apply (proj1 (Forall_forall _ _) Hn). }
  destruct Ho as (_ & _ & Hl). split; [done|]. intros r. unfold route. by rewrite Hl.
Qed.

(** Once Redis is reachable, [startServer()] returns and the server
    listens, with the subscriber on [submissions]. *)
Lemma boot_reachable s :
  up (redis_of s) = true ->
  exists s', startServer s = Some s' /\ srv_listening s' = true /\ srv_client s' = true /\
             srv_subscriber s' = true.
Proof.
  intros Hu. unfold startServer, connectToRedis, connect_open, redis_connect. rewrite Hu.
  destruct (srv_client s), (srv_subscriber s); cbn; by eexists.
Qed.

(** A submission on a connected server is answered 200, put at the head
    of the list, and printed by the server's own subscriber when it
    listens on the channel. *)
Theorem submit_ok s body obj :
  srv_client s = true -> submission_of body = Ok obj ->
  let '(r, s') := submit body s in
  r = Some (200%Z, "Code submitted successfully") /\
  list_at "submissions" (redis_of s') = ser obj :: list_at "submissions" (redis_of s) /\
  srv_log s' = srv_log s ++ (if bool_decide ("submissions" ∈ channels (redis_of s)) then [ser obj] else []).
Proof.
  intros Hc Hb. unfold submit. rewrite Hb. unfold lpush, publish. rewrite Hc.
  cbn [channels]. case_bool_decide; cbv beta iota zeta; cbn [Nat.eqb redis_of srv_log];
    rewrite list_at_insert; split_and!; try done. by rewrite app_nil_r.
Qed.

End Queue.

(** ** Runs on a concrete system *)

Import Queue.

Definition sub1 : jsval :=
  JObj [("problemId", JNum 1); ("userId", JStr "u1"); ("code", JStr "print(1)"); ("language", JStr "python")].

(** A submission without [userId] and [language]. *)
Definition sub2 : jsval := JObj [("problemId", JNum 2); ("code", JStr "x")].

(** The server starts, two submissions arrive, the worker connects and
    pops the first. *)
Definition demo : list event := [Boot; Submit sub1; Submit sub2; Work; Work].

Definition after (sched : list event) (s : system) : system :=
  match run_events sched s with Some s' => s' | None => s end.

Lemma queue_fifo_witness :
  popped (after demo (sys0 true)) ++ rev (list_at "submissions" (redis_of (after demo (sys0 true))))
    = pushed (after demo (sys0 true)) /\
  wk_seen (after demo (sys0 true)) = omap json_parse (popped (after demo (sys0 true))).
Proof. apply (queue_fifo true demo). vm_compute. reflexivity. Defined.

Lemma worker_sees_submissions_witness :
  exists objs, pushed (after demo (sys0 true)) = map ser objs /\
    wk_seen (after demo (sys0 true)) =
      map json_norm (take (List.length (wk_seen (after demo (sys0 true)))) objs).
Proof.
  apply (worker_sees_submissions true demo); [vm_compute; reflexivity | repeat constructor].
Defined.

(** What the handler builds from [sub2]: the missing fields are [undefined]. *)
Definition obj2 : jsval :=
  JObj [("problemId", JNum 2); ("userId", JUndefined); ("code", JStr "x"); ("language", JUndefined)].

(** The worker waits in [brPop] with both submissions queued. *)
Definition waiting : system := after [Boot; Submit sub1; Submit sub2; Work] (sys0 true).

Lemma worker_drains_witness :
  exists s', run_events (repeat Work (List.length (list_at "submissions" (redis_of waiting)))) waiting = Some s' /\
    list_at "submissions" (redis_of s') = [] /\
    wk_seen s' = wk_seen waiting ++ omap json_parse (rev (list_at "submissions" (redis_of waiting))) /\
    wk_pc s' = WLoop.
Proof.
  apply worker_drains; [vm_compute; reflexivity | vm_compute; reflexivity |].
  assert (E : list_at "submissions" (redis_of waiting) = [ser obj2; ser sub1])
    by (vm_compute; reflexivity).
  rewrite E. repeat constructor; rewrite parse_ser_norm by discriminate; by eexists.
Defined.

(** The worker starts while Redis is down: its [client.connect()] is
    refused, leaving the client open. *)
Definition refused : system := after [Work] (sys0 false).

(** Redis comes up, the server starts and takes a submission, the worker
    retries, and then loses its connection. *)
Definition recovery : list event := [RedisUp; Boot; Submit sub1; Work; Work; Work; Work; Drop].

Lemma worker_stuck_witness :
  popped (after recovery refused) = popped refused /\
  wk_seen (after recovery refused) = wk_seen refused /\
  wk_pc (after recovery refused) <> WLoop.
Proof.
  apply (worker_stuck refused recovery); [vm_compute; reflexivity | vm_compute; discriminate |
                                          vm_compute; reflexivity].
Defined.

(** Submissions and the worker while Redis is down. *)
Definition outage : list event := [Submit sub1; Work; Push "x"; Work; Work].

Lemma server_waits_for_redis_witness :
  srv_listening (after outage (sys0 false)) = false /\
  forall r, route r (after outage (sys0 false)) = (None, after outage (sys0 false)).
Proof.
  apply (server_waits_for_redis outage); [repeat constructor; discriminate | vm_compute; reflexivity].
Defined.

(** The server once started with Redis up. *)
Definition booted : system := after [Boot] (sys0 true).

Lemma submit_ok_witness :
  let '(r, s') := submit sub2 booted in
  r = Some (200%Z, "Code submitted successfully") /\
  list_at "submissions" (redis_of s') = ser obj2 :: list_at "submissions" (redis_of booted) /\
  srv_log s' = srv_log booted ++
    (if bool_decide ("submissions" ∈ channels (redis_of booted)) then [ser obj2] else []).
Proof. apply (submit_ok booted sub2 obj2); vm_compute; reflexivity. Defined.

Lemma empty_submission_queued_witness :
  (route (HPost "/submit" OtherBody) booted).1 = Some (200%Z, "Code submitted successfully") /\
  list_at "submissions" (redis_of (route (HPost "/submit" OtherBody) booted).2)
  = "{}" :: list_at "submissions" (redis_of booted).
Proof. apply empty_submission_queued; reflexivity. Defined.
