(* ===== verification/KafkaLog.v ===== *)
(** The Kafka demos of Kafka/Kafka-Harkirat/src (producer.ts, consumer.ts,
    index.ts) against a broker that keeps each topic as a log (one
    partition, as the demos create their topic with the default).  The
    producer appends to the log of a topic; a consumer of a group starts at
    its group's committed offset, or at the start of the log for a new
    group that subscribes [fromBeginning], hands each message to
    [eachMessage], and commits the next offset afterwards (kafkajs commits
    after the handler returns).  Each program runs as a process with its
    own client on [localhost:9092]; when no broker answers there, its
    first [connect()] rejects and [run().catch(console.error)] prints the
    error. *)

From S2P Require Import Prelude.
Local Open Scope string_scope.
Local Open Scope list_scope.

Module Broker.

(** The logs of the topics, and the committed offset of each
    (group, topic). *)
Record broker : Type := mkBroker {
  topics : gmap string (list string);
  committed : gmap (string * string) nat
}.

Definition log_of (t : string) (b : broker) : list string := default [] (topics b !! t).

(** [producer.send({ topic, messages })]: the values are appended to the
    topic's log, which is created if needed. *)
Definition append (t : string) (vs : list string) (b : broker) : broker :=
  mkBroker (<[t := log_of t b ++ vs]> (topics b)) (committed b).

(** [kafka.consumer({ groupId })] and its state.  [printed] is what
    [eachMessage] logs ([{ partition, offset, value }]); [handled] records
    which topic each handled offset came from. *)
Record consumer : Type := mkConsumer {
  group : string;
  connected : bool;
  subs : list string;
  running : bool;
  offsets : gmap string nat;
  printed : list (nat * nat * string);
  handled : list (string * nat)
}.

Definition consumer0 (g : string) : consumer := mkConsumer g false [] false ∅ [] [].

(** Where a consumer of group [g] starts reading [t] when subscribed with
    [fromBeginning: true]: the committed offset, or the start of the log. *)
Definition start_pos (g t : string) (b : broker) : nat := default 0 (committed b !! (g, t)).

(** [consumer.connect()] *)
Definition connect (c : consumer) : consumer :=
  mkConsumer (group c) true (subs c) (running c) (offsets c) (printed c) (handled c).

(** [consumer.subscribe({ topic, fromBeginning: true })] *)
Definition subscribe (t : string) (c : consumer) : res consumer :=
  if connected c then Ok (mkConsumer (group c) true (subs c ++ [t]) (running c) (offsets c) (printed c) (handled c))
  else Throw "The consumer is not connected".

(** [consumer.run({ eachMessage })]: each subscribed topic is read from
    where the group stands. *)
Definition run (b : broker) (c : consumer) : res consumer :=
  if connected c then
    Ok (mkConsumer (group c) true (subs c) true
                   (fold_left (fun m t => <[t := start_pos (group c) t b]> m) (subs c) (offsets c))
                   (printed c) (handled c))
  else Throw "The consumer is not connected".

(** One fetched message of [t] handed to [eachMessage], which logs
    [{ partition: 0, offset, value: message.value.toString() }]; [None]
    when there is nothing to fetch. *)
Definition fetch (t : string) (b : broker) (c : consumer) : option consumer :=
  if running c then
    match offsets c !! t with
    | Some p =>
        match log_of t b !! p with
        | Some v => Some (mkConsumer (group c) (connected c) (subs c) true (<[t := S p]> (offsets c))
                                     (printed c ++ [(0, p, v)]) (handled c ++ [(t, p)]))
        | None => None
        end
    | None => None
    end
  else None.

(** The commit kafkajs makes after [eachMessage] returns. *)
Definition commit (t : string) (c : consumer) (b : broker) : broker :=
  match offsets c !! t with
  | Some p => mkBroker (topics b) (<[(group c, t) := p]> (committed b))
  | None => b
  end.

(** The consumer's process dies; what it printed stays printed. *)
Definition crash (c : consumer) : consumer :=
  mkConsumer (group c) false [] false ∅ (printed c) (handled c).

(** What can happen to the broker and one consumer running the demo's
    [run()] ([connect], [subscribe] to [t] from the beginning, [run]):
    other producers append, messages are fetched and committed, and the
    process may die and be started again. *)
Inductive kstep (t : string) : broker * consumer -> broker * consumer -> Prop :=
| k_append b c t' vs : kstep t (b, c) (append t' vs b, c)
| k_connect b c : kstep t (b, c) (b, connect c)
| k_subscribe b c c' : subscribe t c = Ok c' -> kstep t (b, c) (b, c')
| k_run b c c' : run b c = Ok c' -> kstep t (b, c) (b, c')
| k_fetch b c c' : fetch t b c = Some c' -> kstep t (b, c) (b, c')
| k_commit b c : kstep t (b, c) (commit t c b, c)
| k_crash b c : kstep t (b, c) (b, crash c).

(** ** Delivery *)

(** The messages of [vs] as [eachMessage] prints them, the first at
    offset [p]. *)
Definition from_offset (p : nat) (vs : list string) : list (nat * nat * string) :=
  zip_with (fun o v => (0, o, v)) (seq p (List.length vs)) vs.

(** [n] fetches of [t] in a row. *)
Fixpoint fetches (n : nat) (t : string) (b : broker) (c : consumer) : option consumer :=
  match n with
  | O => Some c
  | S n' => match fetch t b c with Some c' => fetches n' t b c' | None => None end
  end.

Lemma log_of_append t t' vs b :
  log_of t (append t' vs b) = log_of t b ++ (if bool_decide (t = t') then vs else []).
Proof.
  unfold log_of, append. cbn [topics]. case_bool_decide as Ht.
  - subst. by rewrite lookup_insert_eq.
  - rewrite lookup_insert_ne by congruence. by rewrite app_nil_r.
Qed.

Lemma lookup_fold_insert (f : string -> nat) (l : list string) (m : gmap string nat) t :
  fold_left (fun m t' => <[t' := f t']> m) l m !! t = if bool_decide (t ∈ l) then Some (f t) else m !! t.
Proof.
  revert m. induction l as [|x l IH]; intros m; cbn [fold_left].
  - by rewrite bool_decide_eq_false_2 by (apply not_elem_of_nil).
  - rewrite IH. case_bool_decide as Hl; case_bool_decide as Hxl; try done.
    + exfalso. apply Hxl. by apply elem_of_cons; right.
    + apply elem_of_cons in Hxl as [->|]; [|done]. by rewrite lookup_insert_eq.
    + rewrite lookup_insert_ne; [done|]. intros ->. apply Hxl. by apply elem_of_cons; left.
Qed.

(** A running consumer at [p] prints the rest of the log, one message per
    fetch, in order. *)
Lemma fetches_rest t b c p vs :
  running c = true -> offsets c !! t = Some p -> drop p (log_of t b) = vs ->
  exists c', fetches (List.length vs) t b c = Some c' /\
    printed c' = printed c ++ from_offset p vs /\ offsets c' !! t = Some (p + List.length vs) /\
    handled c' = handled c ++ map (fun o => (t, o)) (seq p (List.length vs)) /\ running c' = true.
Proof.
  revert c p. induction vs as [|v vs IH]; intros c p Hr Hp Hd.
  - exists c. rewrite !app_nil_r, Nat.add_0_r. done.
  - assert (Hv : log_of t b !! p = Some v).
    { rewrite <- (take_drop p (log_of t b)), Hd, lookup_app_r; rewrite length_take.
      - assert (p <= List.length (log_of t b)).
        { destruct (decide (p <= List.length (log_of t b))); [done|].
          rewrite drop_ge in Hd by lia. discriminate. }
        by rewrite Nat.min_l, Nat.sub_diag by done.
      - lia. }
    cbn [fetches List.length]. unfold fetch at 1. rewrite Hr, Hp, Hv.
    edestruct (IH (mkConsumer (group c) (connected c) (subs c) true (<[t := S p]> (offsets c))
                              (printed c ++ [(0, p, v)]) (handled c ++ [(t, p)])) (S p))
      as (c' & Hf & Hpr & Hpo & Hh & Hr'); [done | cbn [offsets]; by rewrite lookup_insert_eq | |].
    { replace (S p) with (p + 1) by lia. rewrite <- drop_drop, Hd. done. }
    exists c'. split_and!; [done | | | | done].
    + rewrite Hpr. cbn [printed]. by rewrite <- app_assoc.
    + rewrite Hpo. f_equal. lia.
    + rewrite Hh. cbn [handled]. by rewrite <- app_assoc.
Qed.

(** Liveness of the consumer: a running consumer at offset [p] of a
    topic prints every later message of its log, in offset order, in as
    many fetches as there are messages. *)
Theorem consumer_catches_up t b c p :
  running c = true -> offsets c !! t = Some p ->
  exists c', fetches (List.length (log_of t b) - p) t b c = Some c' /\
    printed c' = printed c ++ from_offset p (drop p (log_of t b)) /\
    offsets c' !! t = Some (Nat.max p (List.length (log_of t b))).
Proof.
  intros Hr Hp. destruct (fetches_rest t b c p (drop p (log_of t b)) Hr Hp eq_refl)
    as (c' & Hf & Hpr & Hpo & _).
  rewrite length_drop in Hf, Hpo. exists c'. split_and!; [done | done |]. rewrite Hpo. f_equal. lia.
Qed.

(** ** No message is lost across crashes *)

(** The consumer keeps its group, and every offset below where the group
    will restart (its committed offset) or below the current position has
    been handled. *)
Definition no_loss (t g : string) (st : broker * consumer) : Prop :=
  let '(b, c) := st in
  group c = g /\
  (forall o, o < start_pos g t b -> (t, o) ∈ handled c) /\
  (forall p, offsets c !! t = Some p -> forall o, o < p -> (t, o) ∈ handled c).

Lemma kstep_no_loss t g st st' : kstep t st st' -> no_loss t g st -> no_loss t g st'.
Proof.
  intros Hs. destruct Hs as [b c t' vs|b c|b c c' Hs|b c c' Hs|b c c' Hs|b c|b c];
    intros (Hg & Hc & Hp).
  - split_and!; done.
  - split_and!; done.
  - unfold subscribe in Hs. destruct (connected c); [|done]. injection Hs as <-. split_and!; done.
  - unfold run in Hs. destruct (connected c); [|done]. injection Hs as <-.
    split_and!; [done | done |]. cbn [offsets]. intros p. rewrite lookup_fold_insert, Hg.
    case_bool_decide; [intros [= <-]; apply Hc | apply Hp].
  - unfold fetch in Hs. destruct (running c); [|done].
    destruct (offsets c !! t) as [p|] eqn:Ep; [|done]. destruct (log_of t b !! p); [|done].
    injection Hs as <-. split_and!; cbn [group offsets handled]; [done | |].
    + intros o Ho. apply elem_of_app. left. by apply Hc.
    + intros p'. rewrite lookup_insert_eq. intros [= <-] o Ho. apply elem_of_app.
      destruct (decide (o < p)); [left; by apply (Hp p) | right; apply list_elem_of_singleton; do 2 f_equal; lia].
  - unfold commit. destruct (offsets c !! t) as [p|] eqn:Ep; split_and!; try done;
      try (intros p0 Hp0; first [apply Hp; congruence | congruence]).
    unfold start_pos. cbn [committed]. rewrite Hg, lookup_insert_eq. cbn. by apply Hp.
  - split_and!; [done | done |]. intros p Hp0. exfalso. cbn in Hp0. by rewrite lookup_empty in Hp0.
Qed.

(** C37: At-least-once delivery: for a consumer of a group new to the
    topic, whatever producers append and however often its process dies,
    every offset below the group's committed offset has been handed to
    [eachMessage]: a restart never skips a message. *)
Theorem committed_were_handled t g b0 b c :
  committed b0 !! (g, t) = None -> rtc (kstep t) (b0, consumer0 g) (b, c) ->
  forall o, o < default 0 (committed b !! (g, t)) -> (t, o) ∈ handled c.
Proof.
  intros H0 Hr. apply (rtc_inv _ (no_loss t g)) in Hr as (_ & Hc & _); [exact Hc | apply kstep_no_loss |].
  split_and!; [done | | intros p Hp0; exfalso; cbn in Hp0; by rewrite lookup_empty in Hp0]. unfold start_pos. rewrite H0. cbn. lia.
Qed.

(** ** The demo programs *)

Definition hello_msg : string := "Hello KafkaJS user from NodeJS!".

(** producer.ts: [await producer.connect(); await producer.send({ topic:
    'payment', messages: [{ value: hello_msg }] })] *)
Definition producer_run (b : broker) : broker := append "payment" [hello_msg] b.

(** The consumer half of consumer.ts and index.ts: [await consumer.connect();
    await consumer.subscribe({ topic: 'payment', fromBeginning: true });
    await consumer.run({ eachMessage })] for the group [g]. *)
Definition consumer_run (g : string) (b : broker) : res consumer :=
  match subscribe "payment" (connect (consumer0 g)) with
  | Ok c => run b c
  | Throw e => Throw e
  end.

(** index.ts: the producer sends first, then the consumer of the group
    [payment-service] starts. *)
Definition index_run (b : broker) : broker * res consumer :=
  let b' := producer_run b in (b', consumer_run "payment-service" b').

(** ** The clients and [run().catch(console.error)] *)

(** [new Kafka({ clientId, brokers })] *)
Record kafka_client : Type := mkKafka { client_id : string; brokers : list string }.

(** The clients of index.ts, producer.ts and consumer.ts. *)
Definition index_kafka : kafka_client := mkKafka "payment-service" ["localhost:9092"].
Definition producer_kafka : kafka_client := mkKafka "payment" ["localhost:9092"].
Definition consumer_kafka : kafka_client := mkKafka "payment" ["localhost:9092"].

(** [producer.connect()] and [consumer.connect()] succeed when one of the
    client's brokers answers ([up]); otherwise they reject with kafkajs's
    connection error, written here with the address it names. *)
Definition reachable (up : string -> bool) (k : kafka_client) : bool := existsb up (brokers k).

Definition connection_error (k : kafka_client) : string :=
  "Connection error: " ++ String.concat ", " (brokers k).

(** [run().catch(console.error)]: what a rejection of [run()] prints. *)
Definition printed_error {A} (r : res A) : list string :=
  match r with Throw e => [e] | Ok _ => [] end.

(** producer.ts as a process: the broker after it and its error output. *)
Definition producer_main (up : string -> bool) (b : broker) : broker * list string :=
  if reachable up producer_kafka then (producer_run b, []) else (b, [connection_error producer_kafka]).

(** consumer.ts as a process, for its group [payment]. *)
Definition consumer_main (up : string -> bool) (b : broker) : res consumer * list string :=
  let r := if reachable up consumer_kafka then consumer_run "payment" b
           else Throw (connection_error consumer_kafka) in
  (r, printed_error r).

(** index.ts as a process: [producer.connect()] is its first await, so an
    unreachable broker stops it before anything is sent or consumed. *)
Definition index_main (up : string -> bool) (b : broker) : broker * res consumer * list string :=
  if reachable up index_kafka then let '(b', r) := index_run b in (b', r, printed_error r)
  else (b, Throw (connection_error index_kafka), [connection_error index_kafka]).

Lemma consumer_run_ok g b :
  consumer_run g b = Ok (mkConsumer g true ["payment"] true {[ "payment" := start_pos g "payment" b ]} [] []).
Proof. done. Qed.

(** C31: index.ts against a broker where [payment-service] has not committed
    anything on [payment]: the consumer prints every message of the topic
    from offset 0, the one index.ts sent last. *)
Theorem index_prints_log b :
  committed b !! ("payment-service", "payment") = None ->
  exists c c', index_run b = (producer_run b, Ok c) /\
    fetches (S (List.length (log_of "payment" b))) "payment" (producer_run b) c = Some c' /\
    printed c' = from_offset 0 (log_of "payment" b ++ [hello_msg]).
Proof.
  intros H0.
  assert (Hl : log_of "payment" (producer_run b) = log_of "payment" b ++ [hello_msg]).
  { unfold producer_run. by rewrite log_of_append, bool_decide_eq_true_2. }
  assert (Hs : start_pos "payment-service" "payment" (producer_run b) = 0).
  { unfold start_pos, producer_run, append. cbn [committed]. by rewrite H0. }
  set (c := mkConsumer "payment-service" true ["payment"] true
              {[ "payment" := start_pos "payment-service" "payment" (producer_run b) ]} [] []).
  edestruct (fetches_rest "payment" (producer_run b) c 0 (log_of "payment" b ++ [hello_msg]))
    as (c' & Hf & Hp & _); [done | cbn [offsets c]; by rewrite lookup_singleton_eq, Hs | by rewrite Hl |].
  rewrite length_app, Nat.add_1_r in Hf. exists c, c'. split_and!; [|done | done].
  unfold index_run. by rewrite consumer_run_ok.
Qed.

(** With the broker of [localhost:9092] down, each demo prints kafkajs's
    connection error once and changes nothing: no message is sent, and no
    consumer runs. *)
Lemma demos_offline up b :
  up "localhost:9092" = false ->
  producer_main up b = (b, ["Connection error: localhost:9092"]) /\
  consumer_main up b = (Throw "Connection error: localhost:9092", ["Connection error: localhost:9092"]) /\
  index_main up b = (b, Throw "Connection error: localhost:9092", ["Connection error: localhost:9092"]).
Proof. intros Hd. unfold producer_main, consumer_main, index_main, reachable. cbn. by rewrite Hd. Qed.

End Broker.

(** ** Runs on a concrete broker *)

Import Broker.

(** A broker where [payment] already holds one message. *)
Definition broker1 : broker := mkBroker {[ "payment" := ["paid 10"] ]} ∅.

Lemma index_prints_log_witness :
  exists c c', index_run broker1 = (producer_run broker1, Ok c) /\
    fetches (S (List.length (log_of "payment" broker1))) "payment" (producer_run broker1) c = Some c' /\
    printed c' = from_offset 0 (log_of "payment" broker1 ++ [hello_msg]).
Proof. apply index_prints_log. reflexivity. Defined.

(** The consumer of group [payment] after one fetch and a commit of
    offset 1. *)
Definition consumer1 : consumer :=
  mkConsumer "payment" true ["payment"] true {[ "payment" := 1 ]} [(0, 0, "paid 10")] [("payment", 0)].

Lemma consumer_catches_up_witness :
  exists c', fetches (List.length (log_of "payment" (producer_run broker1)) - 1) "payment" (producer_run broker1) consumer1 = Some c' /\
    printed c' = printed consumer1 ++ from_offset 1 (drop 1 (log_of "payment" (producer_run broker1))) /\
    offsets c' !! "payment" = Some (Nat.max 1 (List.length (log_of "payment" (producer_run broker1)))).
Proof. apply consumer_catches_up; reflexivity. Defined.

Lemma committed_were_handled_witness : ("payment", 0) ∈ handled consumer1.
Proof.
  apply (committed_were_handled "payment" "payment" broker1 (commit "payment" consumer1 broker1) consumer1);
    [reflexivity | | vm_compute; lia].
  eapply rtc_l; [apply k_connect|]. eapply rtc_l; [apply k_subscribe; reflexivity|].
  eapply rtc_l; [apply k_run; reflexivity|]. eapply rtc_l; [apply k_fetch; reflexivity|].
  eapply rtc_l; [apply k_commit|]. apply rtc_refl.
Defined.
