(* ===== verification/EcommKafka.v ===== *)
(** The Kafka clients of the product and order services
    (Ecomm_Microservices/services/products/src/kafka.ts and
    services/orders/src/kafka.ts).  Each builds a kafkajs client with the
    service's name as [clientId], the broker [localhost:9092] and the log
    level [ERROR], and exports a consumer of the group named after the
    service and a producer.  The consumers are those of the broker model
    of [KafkaLog]: a group reads from its own committed offset, so the two
    services, in two groups, would each receive every message of a topic.
    Nothing under src/ subscribes either consumer; the orders service
    only connects its own ([OrdersMain]). *)

From S2P Require Import Prelude KafkaLog.
Local Open Scope string_scope.

Module Clients.
Import KafkaLog.Broker.

(** [logLevel] of kafkajs. *)
Inductive log_level : Type := NOTHING | ERROR | WARN | INFO | DEBUG.

(** [new Kafka({ clientId, brokers, logLevel })] *)
Record kafka : Type := mkKafka {
  client_id : string;
  brokers : list string;
  level : log_level
}.

(** The exports of a service's kafka.ts: [kafka.consumer({ groupId })],
    and [kafka.producer()], whose [send] appends to the broker's logs
    ([append]). *)
Record clients : Type := mkClients {
  svc_kafka : kafka;
  svc_consumer : consumer
}.

(** kafka.ts of the service [name]: [clientId] and [groupId] are both the
    name. *)
Definition service_clients (name : string) : clients :=
  mkClients (mkKafka name ["localhost:9092"] ERROR) (consumer0 name).

Definition products_clients : clients := service_clients "products".
Definition orders_clients : clients := service_clients "orders".

(** A commit of one group leaves where every other group starts. *)
Lemma commit_other_group g t c b :
  group c <> g -> start_pos g t (commit t c b) = start_pos g t b.
Proof.
  intros Hg. unfold commit. destruct (offsets c !! t); [|done].
  unfold start_pos. cbn [committed]. rewrite lookup_insert_ne; [done|]. congruence.
Qed.

(** What the orders service's consumer commits never moves the products
    service's group: both would read every message of a topic. *)
Lemma services_groups_independent t c b :
  group c = group (svc_consumer orders_clients) ->
  start_pos (group (svc_consumer products_clients)) t (commit t c b)
  = start_pos (group (svc_consumer products_clients)) t b.
Proof. intros Hc. apply commit_other_group. by rewrite Hc. Qed.

End Clients.
