(* ===== verification/KafkaAdmin.v ===== *)
(** The Kafka admin demo (src/Kafka/admin.js with its client, client.js):
    [init] starts [admin.connect()] without awaiting it, logs that the
    connection succeeded, creates the topic [rider-updates] with two
    partitions, and disconnects.  The kafkajs admin is modelled on a
    cluster of topics with their partition counts: [createTopics] connects
    by itself (through its metadata refresh) and resolves to [false],
    creating nothing, when the topic already exists.  A promise that
    rejects with no handler ends the Node process with status 1. *)

From S2P Require Import Prelude.
Local Open Scope string_scope.

Module Admin.

Record sys : Type := mkSys {
  kafka_broker : option string;   (** [process.env.KAFKA_BROKER] *)
  up_at : string -> bool;          (** the addresses a broker answers on *)
  partitions : gmap string nat;    (** the cluster's topics *)
  connected : bool;
  out : list string;               (** console output *)
  unhandled : list string;         (** rejections no handler caught *)
  exit_code : option Z
}.

(** [exports.kafka = new Kafka({ clientId: 'my-app', brokers:
    [process.env.KAFKA_BROKER] })]: without the variable the one broker
    address is [undefined], on which no broker answers. *)
Definition broker_up (s : sys) : bool :=
  match kafka_broker s with Some a => up_at s a | None => false end.

Definition set_connected (b : bool) (s : sys) : sys :=
  mkSys (kafka_broker s) (up_at s) (partitions s) b (out s) (unhandled s) (exit_code s).

Definition log (msg : string) : M sys unit :=
  modify (fun s => mkSys (kafka_broker s) (up_at s) (partitions s) (connected s)
                         (out s ++ [msg])%list (unhandled s) (exit_code s)).

Definition connection_error (s : sys) : string :=
  "Connection error: " ++ default "undefined" (kafka_broker s).

(** [admin.connect()] *)
Definition admin_connect : M sys unit := fun s =>
  if broker_up s then (Ok tt, set_connected true s) else (Throw (connection_error s), s).

(** [admin.createTopics({ topics: [{ topic, numPartitions }] })] *)
Definition create_topic (topic : string) (n : nat) : M sys bool := fun s =>
  if negb (broker_up s) then (Throw (connection_error s), s)
  else match partitions s !! topic with
       | Some _ => (Ok false, set_connected true s)
       | None => (Ok true, mkSys (kafka_broker s) (up_at s) (<[topic := n]> (partitions s)) true
                                 (out s) (unhandled s) (exit_code s))
       end.

(** [admin.disconnect()] *)
Definition disconnect : M sys unit := modify (set_connected false).

(** A promise started and not awaited: its rejection is recorded as
    unhandled. *)
Definition detach {A} (m : M sys A) : M sys unit := fun s =>
  match m s with
  | (Ok _, s') => (Ok tt, s')
  | (Throw e, s') => (Ok tt, mkSys (kafka_broker s') (up_at s') (partitions s') (connected s')
                                    (out s') (unhandled s' ++ [e])%list (exit_code s'))
  end.

(** [async function init() { ... }] *)
Definition init : M sys unit :=
  detach admin_connect;;
  log "Adming Connection Success";;
  _ ← create_topic "rider-updates" 2;
  log "Topic Created Success [rider-updates]";;
  disconnect;;
  log "Admin Disconnected".

(** [init();] as the script's last statement: a rejection of [init()] is
    unhandled too, and Node exits with status 1 when there is one. *)
Definition main (s : sys) : sys :=
  let s' := (detach init s).2 in
  mkSys (kafka_broker s') (up_at s') (partitions s') (connected s') (out s') (unhandled s')
        (Some (match unhandled s' with [] => 0%Z | _ => 1%Z end)).

Definition sys0 (broker : option string) (up : string -> bool) (ts : gmap string nat) : sys :=
  mkSys broker up ts false [] [] None.

Definition all_logs : list string :=
  ["Adming Connection Success"; "Topic Created Success [rider-updates]"; "Admin Disconnected"].

(** C32: With a broker that answers, the script logs its three lines and exits
    with status 0; [rider-updates] has two partitions if it did not exist,
    and keeps the partitions it had if it did, although the script reports
    it created. *)
Theorem admin_run_online broker up ts :
  broker_up (sys0 broker up ts) = true ->
  main (sys0 broker up ts) =
  mkSys broker up (if decide (is_Some (ts !! "rider-updates")) then ts else <[ "rider-updates" := 2 ]> ts)
        false all_logs [] (Some 0%Z).
Proof.
  intros Hup. unfold main, init, detach, admin_connect, create_topic, log, disconnect; unfold_m.
  cbn [kafka_broker up_at partitions connected out unhandled exit_code set_connected sys0] in *.
  rewrite !Hup. cbn. unfold broker_up in *. cbn in *. rewrite Hup.
  destruct (ts !! "rider-updates") eqn:E; cbn; rewrite ?E; cbn; reflexivity.
Qed.

(** C38: With no broker answering (or [KAFKA_BROKER] unset), the script still
    logs that the admin connected: both the detached [connect] and [init]
    reject with no handler, the process exits with status 1, and no topic
    is created. *)
Theorem admin_run_offline broker up ts :
  broker_up (sys0 broker up ts) = false ->
  let e := "Connection error: " ++ default "undefined" broker in
  main (sys0 broker up ts) = mkSys broker up ts false ["Adming Connection Success"] [e; e] (Some 1%Z).
Proof.
  intros Hdown. unfold broker_up in Hdown; cbn in Hdown.
  unfold main, init, detach, admin_connect, create_topic, log, broker_up, sys0; unfold_m.
  destruct broker as [a|]; simpl; [rewrite Hdown; simpl; rewrite ?Hdown|]; reflexivity.
Qed.

End Admin.

Import Admin.

Definition up_local (a : string) : bool := String.eqb a "localhost:9092".

Lemma admin_run_online_witness :
  main (sys0 (Some "localhost:9092") up_local (<[ "rider-updates" := 1 ]> ∅)) =
  mkSys (Some "localhost:9092") up_local (<[ "rider-updates" := 1 ]> ∅) false all_logs [] (Some 0%Z).
Proof. rewrite (admin_run_online (Some "localhost:9092") up_local _ eq_refl). reflexivity. Defined.

Lemma admin_run_offline_witness :
  main (sys0 None up_local ∅) =
  mkSys None up_local ∅ false ["Adming Connection Success"]
        ["Connection error: undefined"; "Connection error: undefined"] (Some 1%Z).
Proof. rewrite (admin_run_offline None up_local ∅ eq_refl). reflexivity. Defined.
