(* ===== verification/OrdersMain.v ===== *)
(** The entry point of the orders service
    (Ecomm_Microservices/services/orders/src/index.ts, with the clients of
    ./kafka.ts): [main] connects mongoose to [process.env.MONGO_URI || '']
    and then connects the Kafka consumer; the process then listens, or, on
    a failure, disconnects the producer and the consumer and exits with
    status 1.  The consumer is the one of the gateway's model
    ([Kafka.consumer]). *)

From S2P Require Import Prelude Kafka.
Local Open Scope string_scope.

Module OrdersMain.

Record proc : Type := mkProc {
  mongo_uri : option string;      (** [process.env.MONGO_URI] *)
  mongo_up : string -> bool;      (** the URIs a MongoDB server answers on *)
  mongo_connected : bool;
  consumer : Kafka.consumer;
  producer_connected : bool;
  listening : bool;
  exit_code : option Z
}.

(** [await mongoose.connect(uri)]: an empty string is no connection
    string. *)
Definition mongoose_connect (uri : string) : M proc unit := fun p =>
  if String.eqb uri "" then (Throw "Invalid scheme, expected connection string to start with mongodb://", p)
  else if mongo_up p uri then
    (Ok tt, mkProc (mongo_uri p) (mongo_up p) true (consumer p) (producer_connected p) (listening p) (exit_code p))
  else (Throw ("connect ECONNREFUSED " ++ uri), p).

Definition with_consumer (c : Kafka.consumer) (p : proc) : proc :=
  mkProc (mongo_uri p) (mongo_up p) (mongo_connected p) c (producer_connected p) (listening p) (exit_code p).

(** A consumer operation run on the process's consumer. *)
Definition on_consumer {A} (m : M Kafka.consumer A) : M proc A := fun p =>
  let '(r, c) := m (consumer p) in (r, with_consumer c p).

(** [const main = async () => { await mongoose.connect(process.env.MONGO_URI || '');
    await consumer.connect(); }] *)
Definition main : M proc unit :=
  uri ← gets (fun p => default "" (mongo_uri p));
  mongoose_connect uri;;
  on_consumer Kafka.connect.

(** [main().then(() => app.listen(...)).catch(async (e) => { await producer.disconnect();
    await consumer.disconnect(); process.exit(1); })] *)
Definition start : M proc unit :=
  try_catch (main;; modify (fun p => mkProc (mongo_uri p) (mongo_up p) (mongo_connected p) (consumer p)
                                      (producer_connected p) true (exit_code p)))
  (fun _ =>
    modify (fun p => mkProc (mongo_uri p) (mongo_up p) (mongo_connected p) (consumer p) false
                            (listening p) (exit_code p));;
    on_consumer Kafka.disconnect;;
    modify (fun p => mkProc (mongo_uri p) (mongo_up p) (mongo_connected p) (consumer p)
                            (producer_connected p) (listening p) (Some 1%Z))).

(** The process as it starts: nothing connected. *)
Definition proc0 (uri : option string) (up : string -> bool) : proc :=
  mkProc uri up false Kafka.consumer0 false false None.

(** Without [MONGO_URI], [main] rejects at once: the process exits with
    status 1 and never listens. *)
Theorem start_without_uri up :
  let p := (start (proc0 None up)).2 in
  exit_code p = Some 1%Z /\ listening p = false /\ Kafka.connected (consumer p) = false.
Proof. split_and!; reflexivity. Qed.

(** C8: When it starts, the service's consumer is connected but never
    subscribed nor run: no message of any topic ever reaches it. *)
Theorem orders_consumer_idle uri up m :
  uri <> "" -> up uri = true ->
  let p := (start (proc0 (Some uri) up)).2 in
  listening p = true /\ Kafka.connected (consumer p) = true /\ Kafka.receives (consumer p) m = false.
Proof.
  intros Hu Hup. unfold start, main, mongoose_connect, on_consumer. unfold_m. cbn -[String.eqb].
  rewrite (proj2 (String.eqb_neq _ _) Hu), Hup. split_and!; reflexivity.
Qed.

End OrdersMain.

Import OrdersMain.

Lemma orders_consumer_idle_witness :
  let p := (start (proc0 (Some "mongodb://db:27017/orders") (fun _ => true))).2 in
  listening p = true /\ Kafka.connected (consumer p) = true /\
  Kafka.receives (consumer p) (Kafka.mkMessage "inventory-events" 0 0 "{}") = false.
Proof. apply orders_consumer_idle; [discriminate | reflexivity]. Defined.
